(** * Verification of the plan-validation services

    A shallow embedding of three services of the repository and the proofs
    of their specified properties.

    - [src/services/codex.ts]: module [Codex] has the records, the text
      parser [parseCodexOutput], the quota classifier [isQuotaError] and the
      values the handlers of the spawned process resolve with; module
      [CodexService] has the methods that log and spawn.  Module
      [ParserRun] has [parseCodexOutput] as the method runs, statement by
      statement on the object it allocates.
    - [src/services/change-applier.ts]: module [ChangeApplier] has
      [assessImpact], [generateConfirmationSummary] and
      [createConfirmationRequest].
    - [src/services/execution-manager.ts]: module [ExecutionManager] has the
      manager object, [initialize], [execute], [executeViaOpenAI] and the
      singleton factory [getExecutionManager].
    - Further parts of the sources: module [Proposals] has
      [parseProposedChanges], [generateDescription] and
      [validateChangesApplied] of [src/services/change-applier.ts]; module
      [ValidatePlan] has [determineValidationStatus] of
      [src/tools/validate-plan.ts].

    Texts.  A JavaScript string is a sequence of UTF-16 code units.  The
    development uses [string], whose characters are 8 bits wide: a text is
    the sequence of its code units, and the texts covered are those whose
    code units are below 256.  The character classes, [trim] and
    [toLowerCase] below are the JavaScript ones restricted to that range.

    Patterns.  The regular expressions of the parser are kept as syntax
    (module [Regex]) and run by a backtracking matcher with greedy
    quantifiers and ordered alternatives; the matcher is proved sound and
    complete for the language of a pattern.

    Effects.  Methods that log, spawn a process or call the API run in the
    monad [Runtime.M]: the world answers the n-th probe, process and API
    call, and a trace records what was logged and invoked, in order. *)

From Stdlib Require Import Bool Arith NArith List Ascii String Lia DecimalString.
From Stdlib Require Import Decimal DecimalPos DecimalN.
Import ListNotations.

Local Open Scope string_scope.
Local Open Scope bool_scope.

(* ================================================================== *)
(** ** Characters and texts *)
(* ================================================================== *)

Module Text.

Definition code (c : ascii) : N := N_of_ascii c.

Definition between (lo hi : N) (c : ascii) : bool :=
  ((lo <=? code c) && (code c <=? hi))%N.

Definition isCode (n : N) (c : ascii) : bool := (code c =? n)%N.

(** [\n] *)
Definition isNewline : ascii -> bool := isCode 10.

(** [[^\n]] *)
Definition notNewline (c : ascii) : bool := negb (isNewline c).

(** [\d] *)
Definition isDigit : ascii -> bool := between 48 57.

(** [\s], which is also the set [String.prototype.trim] strips: TAB, LF, VT,
    FF, CR, SPACE and NO-BREAK SPACE are its members below 256. *)
Definition isSpace (c : ascii) : bool := between 9 13 c || isCode 32 c || isCode 160 c.

(** Case folding of a regular expression with the [i] flag and without the
    [u] flag: two code units match when their canonical forms agree, and a
    code unit outside ASCII never folds to an ASCII one, so an ASCII letter
    of the pattern matches exactly its two ASCII cases. *)
Definition foldAscii (c : ascii) : ascii :=
  if between 65 90 c then ascii_of_N (code c + 32) else c.

(** One code unit of [String.prototype.toLowerCase]: [A-Z] and the
    capital letters of the upper half (0xC0 to 0xDE, without the
    multiplication sign 0xD7) move up by 32. *)
Definition lowerChar (c : ascii) : ascii :=
  if between 65 90 c || (between 192 222 c && negb (isCode 215 c))
  then ascii_of_N (code c + 32) else c.

Fixpoint toLowerCase (s : string) : string :=
  match s with
  | "" => ""
  | String c s' => String (lowerChar c) (toLowerCase s')
  end.

(** [s.includes(p)] *)
Fixpoint includes (s p : string) : bool :=
  if prefix p s then true
  else match s with
       | "" => false
       | String _ s' => includes s' p
       end.

(** [s.startsWith(p)] *)
Definition startsWith (s p : string) : bool := prefix p s.

(** [s.endsWith(p)]: some suffix of [s] is [p]. *)
Fixpoint endsWith (s p : string) : bool :=
  if (s =? p)%string then true
  else match s with
       | "" => false
       | String _ s' => endsWith s' p
       end.

(** [s.trim()] *)
Fixpoint trimStart (s : string) : string :=
  match s with
  | "" => ""
  | String c s' => if isSpace c then trimStart s' else s
  end.

Fixpoint trimEnd (s : string) : string :=
  match s with
  | "" => ""
  | String c s' =>
      match trimEnd s' with
      | "" => if isSpace c then "" else String c ""
      | t => String c t
      end
  end.

Definition trim (s : string) : string := trimEnd (trimStart s).

(** [s.split('\n')]: never empty, [''.split('\n')] is [['']]. *)
Fixpoint splitLines (s : string) : list string :=
  match s with
  | "" => [""]
  | String c s' =>
      if isNewline c then "" :: splitLines s'
      else match splitLines s' with
           | l :: ls => String c l :: ls
           | [] => [String c ""]
           end
  end.

(** [lines.join(sep)] *)
Definition join (sep : string) (ls : list string) : string := concat sep ls.

(** [parseInt(ds, 10)] on a run of decimal digits.  JavaScript rounds the
    value to a double from 2^53 on; the only caller clamps the result to
    [0, 100], where the rounded and the exact value give the same answer. *)
Fixpoint parseDigits (acc : N) (s : string) : N :=
  match s with
  | "" => acc
  | String c s' => parseDigits (10 * acc + (code c - 48)) s'
  end.

Definition parseInt (s : string) : N := parseDigits 0 s.

(** [`${n}`] for a non-negative integer. *)
Definition showN (n : N) : string := NilZero.string_of_uint (N.to_uint n).

(** [a || b] on strings: the empty string is falsy. *)
Definition orElse (a b : string) : string :=
  match a with "" => b | _ => a end.

Definition newline : string := String (ascii_of_N 10) "".

End Text.

(* ================================================================== *)
(** ** Regular expressions with backtracking *)
(* ================================================================== *)

Module Regex.
Import Text.

(** The fragment of the pattern language the sources use.  Quantifiers are
    greedy and alternatives are tried left to right, as the backtracking
    matcher of the language specification prescribes. *)
Inductive regex : Type :=
| Eps
| Cls (p : ascii -> bool)
| Seq (r1 r2 : regex)
| Alt (r1 r2 : regex)
| Star (r : regex).

(** [r+] and [r?] *)
Definition Plus (r : regex) : regex := Seq r (Star r).
Definition Opt (r : regex) : regex := Alt r Eps.

(** A literal under the [i] flag. *)
Definition chr (c : ascii) : regex :=
  Cls (fun x => Ascii.eqb (foldAscii x) (foldAscii c)).

Fixpoint lit (s : string) : regex :=
  match s with
  | "" => Eps
  | String c s' => Seq (chr c) (lit s')
  end.

Section Matcher.
Context {A : Type}.

(** The loop of a greedy star.  [m] matches one iteration; an iteration
    that consumes nothing is rejected.  [n] bounds the number of
    iterations and is taken to be the length of the input, which no run
    can exceed since every iteration consumes a character. *)
Fixpoint star_loop (m : string -> (string -> option A) -> option A)
         (k : string -> option A) (n : nat) (s : string) : option A :=
  match n with
  | O => k s
  | S n' =>
      match m s (fun s' => if (length s' <? length s)%nat
                           then star_loop m k n' s' else None) with
      | Some x => Some x
      | None => k s
      end
  end.

(** [rmatch r s k]: match [r] at the start of [s] and hand the rest of the
    input to the continuation [k]; when [k] fails, backtrack. *)
Fixpoint rmatch (r : regex) (s : string) (k : string -> option A)
  : option A :=
  match r with
  | Eps => k s
  | Cls p =>
      match s with
      | String c s' => if p c then k s' else None
      | "" => None
      end
  | Seq r1 r2 => rmatch r1 s (fun s1 => rmatch r2 s1 k)
  | Alt r1 r2 =>
      match rmatch r1 s k with
      | Some x => Some x
      | None => rmatch r2 s k
      end
  | Star r1 => star_loop (rmatch r1) k (length s) s
  end.
End Matcher.

(** A pattern of the shape [/before(group)/]: every pattern of the parser
    ends with its only capture group. *)
Record pattern : Type := { before : regex; group : regex }.

(** The text that [s1] has in front of its suffix [s2]. *)
Definition consumed (s1 s2 : string) : string :=
  substring 0 (length s1 - length s2) s1.

(** The match anchored at the start of [s]: the text of group 1. *)
Definition matchHere (p : pattern) (s : string) : option string :=
  rmatch (before p) s
         (fun s1 => rmatch (group p) s1 (fun s2 => Some (consumed s1 s2))).

(** [s.match(p)] for a pattern without the [g] flag: the leftmost match;
    the result is group 1 of the match. *)
Fixpoint exec (p : pattern) (s : string) : option string :=
  match matchHere p s with
  | Some g => Some g
  | None =>
      match s with
      | "" => None
      | String _ s' => exec p s'
      end
  end.

(** [s.replace(/^r/, '')]: without the [m] flag the anchor holds at the
    start of the text only. *)
Definition stripPrefix (r : regex) (s : string) : string :=
  match rmatch r s (fun rest => Some rest) with
  | Some rest => rest
  | None => s
  end.

(** The language of a pattern. *)
Inductive matches : regex -> string -> Prop :=
| MEps : matches Eps ""
| MCls p c : p c = true -> matches (Cls p) (String c "")
| MSeq r1 r2 s1 s2 :
    matches r1 s1 -> matches r2 s2 -> matches (Seq r1 r2) (s1 ++ s2)
| MAltL r1 r2 s : matches r1 s -> matches (Alt r1 r2) s
| MAltR r1 r2 s : matches r2 s -> matches (Alt r1 r2) s
| MStar0 r : matches (Star r) ""
| MStarS r s1 s2 :
    matches r s1 -> matches (Star r) s2 -> matches (Star r) (s1 ++ s2).

(** What a successful run of the matcher found: a prefix in the language
    of the pattern, and a rest the continuation accepted. *)
Definition found {A : Type} (r : regex) (s : string)
           (k : string -> option A) (x : A) : Prop :=
  exists s1 s2, s = s1 ++ s2 /\ matches r s1 /\ k s2 = Some x.

(** A text has an occurrence of a pattern when one of its substrings is in
    the language of the pattern. *)
Definition occurs (p : pattern) (s : string) : Prop :=
  exists pre mid rest,
    s = pre ++ mid ++ rest /\ matches (Seq (before p) (group p)) mid.

End Regex.

(* ================================================================== *)
(** ** [src/services/codex.ts] *)
(* ================================================================== *)

Module Codex.
Import Text Regex.

Inductive SuggestionType : Type :=
| code_change | dependency | architecture | security | performance | other.

Inductive Severity : Type := info | warning | error_.

Record CodexSuggestion : Type := {
  type : SuggestionType;
  file : option string;
  description : string;
  suggestion : string;
  severity : Severity
}.

Record CodexFeasibility : Type := {
  score : N;
  blockers : list string;
  risks : list string;
  dependencies_missing : list string
}.

Record CodexCodeReview : Type := {
  suggestions : list CodexSuggestion;
  best_practice_violations : list string;
  improvements : list string
}.

(** [estimated_complexity] holds one of the texts ['low'], ['medium'] and
    ['high']. *)
Record CodexImplementationAnalysis : Type := {
  completeness : N;
  gaps : list string;
  estimated_complexity : string
}.

(** The four fields that [parseCodexOutput] and [getDefaultParsedResult]
    return and that a [CodexResult] takes over from them. *)
Record ParsedResult : Type := {
  feasibility : CodexFeasibility;
  codeReview : CodexCodeReview;
  implementationAnalysis : CodexImplementationAnalysis;
  changesApplied : list string
}.

Inductive Mode : Type := suggest | apply.

Inductive ExecutionPath : Type := codex_cli | openai_api.

(** [feasibility], [codeReview], [implementationAnalysis] and
    [changesApplied] of the result are the fields of [parsed]. *)
Record CodexResult : Type := {
  success : bool;
  mode : Mode;
  executionPath : ExecutionPath;
  rawOutput : string;
  rawError : string;
  parsed : ParsedResult;
  error : option string;
  quotaExhausted : bool
}.

Record CodexExecutionOptions : Type := {
  planContent : string;
  projectPath : string;
  applyChanges : option bool;
  timeout : option N;
  additionalInstructions : option string
}.

Definition DEFAULT_TIMEOUT : N := 5 * 60 * 1000.

(** *** Patterns of the parser *)

(** [[:\s]*] *)
Definition isSep (c : ascii) : bool := isCode 58 c || isSpace c.
Definition seps : regex := Star (Cls isSep).

(** [\s+] *)
Definition spaces1 : regex := Plus (Cls isSpace).

(** [[-*\d.]] *)
Definition isBullet (c : ascii) : bool :=
  isCode 45 c || isCode 42 c || isDigit c || isCode 46 c.

(** [/kw[:\s]*(\d+)/i] *)
Definition scorePattern (kw : string) : pattern :=
  {| before := Seq (lit kw) seps; group := Plus (Cls isDigit) |}.

(** [/complexity[:\s]*(low|medium|high)/i] *)
Definition complexityPattern : pattern :=
  {| before := Seq (lit "complexity") seps;
     group := Alt (lit "low") (Alt (lit "medium") (lit "high")) |}.

(** [(?:[-*\d.]\s*[^\n]+\n?)] *)
Definition listLine : regex :=
  Seq (Cls isBullet)
      (Seq (Star (Cls isSpace))
           (Seq (Plus (Cls notNewline)) (Opt (Cls isNewline)))).

(** [/header[:\s]*\n((?:[-*\d.]\s*[^\n]+\n?)+)/i] *)
Definition listPattern (header : regex) : pattern :=
  {| before := Seq header (Seq seps (Cls isNewline));
     group := Plus listLine |}.

(** [words?] *)
Definition plural (w : string) : regex := Seq (lit w) (Opt (lit "s")).

Definition blockersHeader : regex := plural "blocker".
Definition risksHeader : regex := plural "risk".
(** [(?:missing\s+)?dependenc(?:y|ies)] *)
Definition depsHeader : regex :=
  Seq (Opt (Seq (lit "missing") spaces1))
      (Seq (lit "dependenc") (Alt (lit "y") (lit "ies"))).
Definition gapsHeader : regex := plural "gap".
Definition improvementsHeader : regex := plural "improvement".
(** [(?:best\s+practice\s+)?violations?] *)
Definition violationsHeader : regex :=
  Seq (Opt (Seq (lit "best") (Seq spaces1 (Seq (lit "practice") spaces1))))
      (plural "violation").
Definition suggestionsHeader : regex := plural "suggestion".
(** [(?:changes?\s+applied|applied\s+changes?)] *)
Definition changesHeader : regex :=
  Alt (Seq (plural "change") (Seq spaces1 (lit "applied")))
      (Seq (lit "applied") (Seq spaces1 (plural "change"))).

(** [extractListItems]: split at line ends, strip [/^[-*\d.]+\s*/] from each
    line, trim it, and keep the lines that are not empty. *)
Definition bulletPrefix : regex :=
  Seq (Plus (Cls isBullet)) (Star (Cls isSpace)).

Definition nonEmpty (s : string) : bool := negb (length s =? 0)%nat.

Definition extractListItems (text : string) : list string :=
  filter nonEmpty
         (map (fun line => trim (stripPrefix bulletPrefix line))
              (splitLines text)).

(** [Math.min(100, Math.max(0, parseInt(ds, 10)))] *)
Definition clampScore (ds : string) : N := N.min 100 (N.max 0 (parseInt ds)).

(** The list after a header, or the initial empty list. *)
Definition listSection (header : regex) (output : string) : list string :=
  match exec (listPattern header) output with
  | Some block => extractListItems block
  | None => []
  end.

Definition scoreSection (kw : string) (output : string) : N :=
  match exec (scorePattern kw) output with
  | Some ds => clampScore ds
  | None => 70
  end.

Definition asSuggestion (item : string) : CodexSuggestion :=
  {| type := other; file := None; description := item;
     suggestion := item; severity := info |}.

(** [parseCodexOutput]: every field starts from its initial value ([70],
    [[]], ['medium']) and is overwritten when its pattern matches. *)
Definition parseCodexOutput (output : string) : ParsedResult :=
  {| feasibility :=
       {| score := scoreSection "feasibility" output;
          blockers := listSection blockersHeader output;
          risks := listSection risksHeader output;
          dependencies_missing := listSection depsHeader output |};
     codeReview :=
       {| suggestions := map asSuggestion (listSection suggestionsHeader output);
          best_practice_violations := listSection violationsHeader output;
          improvements := listSection improvementsHeader output |};
     implementationAnalysis :=
       {| completeness := scoreSection "completeness" output;
          gaps := listSection gapsHeader output;
          estimated_complexity :=
            match exec complexityPattern output with
            | Some c => toLowerCase c
            | None => "medium"
            end |};
     changesApplied := listSection changesHeader output |}.

(** The record [parseCodexOutput] starts from. *)
Definition initialResult : ParsedResult :=
  {| feasibility :=
       {| score := 70; blockers := []; risks := [];
          dependencies_missing := [] |};
     codeReview :=
       {| suggestions := []; best_practice_violations := [];
          improvements := [] |};
     implementationAnalysis :=
       {| completeness := 70; gaps := []; estimated_complexity := "medium" |};
     changesApplied := [] |}.

(** [getDefaultParsedResult] *)
Definition getDefaultParsedResult : ParsedResult :=
  {| feasibility :=
       {| score := 50; blockers := [];
          risks := ["Unable to complete analysis"];
          dependencies_missing := [] |};
     codeReview :=
       {| suggestions := []; best_practice_violations := [];
          improvements := [] |};
     implementationAnalysis :=
       {| completeness := 50; gaps := ["Analysis incomplete"];
          estimated_complexity := "medium" |};
     changesApplied := [] |}.

(** [isQuotaError] *)
Definition quotaPatterns : list string :=
  [ "rate limit"; "rate_limit"; "quota exceeded"; "quota_exceeded";
    "too many requests"; "insufficient_quota";
    "exceeded your current quota"; "rate limit reached"; "billing"; "429" ].

Definition isQuotaError (text : string) : bool :=
  let textLower := toLowerCase text in
  existsb (fun pattern => includes textLower pattern) quotaPatterns.

(** *** The end of the spawned process

    [spawnCodex] resolves its promise from the ['close'] handler or from the
    ['error'] handler of the child process.  [ProcessEnd] is what the
    process did: it closed with the collected output and an exit code
    ([null] when a signal ended it), after the timer had fired or not; or
    it could not be spawned. *)
Inductive ProcessEnd : Type :=
| Closed (timedOut : bool) (stdout stderr : string) (code : option N)
| SpawnFailed (enoent : bool) (message : string).

Definition modeOf (applyChanges : bool) : Mode :=
  if applyChanges then apply else suggest.

(** [`${code}`] *)
Definition showCode (code : option N) : string :=
  match code with Some n => showN n | None => "null" end.

(** [code === 0] *)
Definition isZero (code : option N) : bool :=
  match code with Some n => (n =? 0)%N | None => false end.

(** The value the ['close'] handler resolves with. *)
Definition closeResult (mode : Mode) (timeout : N)
           (timedOut : bool) (stdout stderr : string) (code : option N)
  : CodexResult :=
  if timedOut then
    {| success := false; mode := mode; executionPath := codex_cli;
       rawOutput := stdout; rawError := stderr;
       error := Some ("Codex CLI timed out after " ++ showN timeout ++ "ms");
       quotaExhausted := false;
       parsed := getDefaultParsedResult |}
  else if isQuotaError stderr || isQuotaError stdout then
    {| success := false; mode := mode; executionPath := codex_cli;
       rawOutput := stdout; rawError := stderr;
       error := Some "Codex CLI Pro quota exhausted";
       quotaExhausted := true;
       parsed := getDefaultParsedResult |}
  else
    (* Parse output even on non-zero exit (may have partial results) *)
    {| success := isZero code; mode := mode; executionPath := codex_cli;
       rawOutput := stdout; rawError := stderr;
       error := if isZero code then None
                else Some ("Codex CLI exited with code " ++ showCode code);
       quotaExhausted := false;
       parsed := parseCodexOutput (orElse stdout stderr) |}.

(** The value the ['error'] handler resolves with. *)
Definition errorResult (mode : Mode) (enoent : bool) (message : string)
  : CodexResult :=
  if enoent then
    {| success := false; mode := mode; executionPath := codex_cli;
       rawOutput := "";
       rawError := "Codex CLI not found. Please install it with: npm install -g @openai/codex";
       error := Some "Codex CLI not installed";
       quotaExhausted := false;
       parsed := getDefaultParsedResult |}
  else
    {| success := false; mode := mode; executionPath := codex_cli;
       rawOutput := ""; rawError := message;
       error := Some message;
       quotaExhausted := false;
       parsed := getDefaultParsedResult |}.

Definition resolved (mode : Mode) (timeout : N) (e : ProcessEnd)
  : CodexResult :=
  match e with
  | Closed timedOut stdout stderr code =>
      closeResult mode timeout timedOut stdout stderr code
  | SpawnFailed enoent message => errorResult mode enoent message
  end.

End Codex.

(* ================================================================== *)
(** ** The world outside: processes, the API, logs *)
(* ================================================================== *)

Module Runtime.
Import Codex.

Inductive Level : Type := Info | Warn | Error | Debug.

(** What the chat completion call did: it answered, with
    [response.choices[0]?.message?.content] present or not, or it threw. *)
Inductive ApiOutcome : Type :=
| Answered (content : option string)
| Rejected (errorMessage : string).

(** What a run does to the world, in order.  [SpawnedCodex] stands for one
    [codex exec] process, whose arguments and prompt are built from the
    options; [CalledOpenAI] for one chat completion request, whose prompts
    are built from the options. *)
Inductive Event : Type :=
| Logged (level : Level) (message : string)
| Probed
| SpawnedCodex (options : CodexExecutionOptions)
| CalledOpenAI (model : string) (options : CodexExecutionOptions).

Definition Trace : Type := list Event.

Definition isProbe (e : Event) : bool :=
  match e with Probed => true | _ => false end.
Definition isPrimary (e : Event) : bool :=
  match e with SpawnedCodex _ => true | _ => false end.
Definition isSecondary (e : Event) : bool :=
  match e with CalledOpenAI _ _ => true | _ => false end.

Definition count (f : Event -> bool) (t : Trace) : nat :=
  List.length (filter f t).

(** The behaviour of the world: the answer to the [n]-th probe, the end of
    the [n]-th [codex exec] process, the outcome of the [n]-th API call, and
    the environment variable read by the constructor. *)
Record Env : Type := {
  probeAnswer : nat -> bool;
  processEnd : nat -> ProcessEnd;
  apiOutcome : nat -> ApiOutcome;
  OPENAI_API_KEY : option string
}.

(** A call returns a value or throws. *)
Inductive Outcome (A : Type) : Type :=
| Returned (a : A)
| Thrown (message : string).
Arguments Returned {A} a.
Arguments Thrown {A} message.

(** A method running in a world [Env], on an object with state [S], with
    the trace so far. *)
Definition M (S A : Type) : Type := Env -> S -> Trace -> Outcome A * S * Trace.

Definition ret {S A} (a : A) : M S A := fun _ s t => (Returned a, s, t).

Definition throw {S A} (message : string) : M S A :=
  fun _ s t => (Thrown message, s, t).

Definition bind {S A B} (m : M S A) (f : A -> M S B) : M S B :=
  fun env s t =>
    match m env s t with
    | (Returned a, s', t') => f a env s' t'
    | (Thrown e, s', t') => (Thrown e, s', t')
    end.

Definition get {S} : M S S := fun _ s t => (Returned s, s, t).
Definition put {S} (s : S) : M S unit := fun _ _ t => (Returned tt, s, t).

Definition emit {S} (e : Event) : M S unit :=
  fun _ s t => (Returned tt, s, (t ++ [e])%list).

Definition log {S} (message : string) (level : Level) : M S unit :=
  emit (Logged level message).

(** The external calls: each records its event and reads the answer of the
    world for it. *)
Definition probe {S} : M S bool :=
  fun env s t => (Returned (probeAnswer env (count isProbe t)), s, (t ++ [Probed])%list).

Definition spawn {S} (options : CodexExecutionOptions) : M S ProcessEnd :=
  fun env s t =>
    (Returned (processEnd env (count isPrimary t)), s,
     (t ++ [SpawnedCodex options])%list).

Definition chatCompletion {S} (model : string) (options : CodexExecutionOptions)
  : M S ApiOutcome :=
  fun env s t =>
    (Returned (apiOutcome env (count isSecondary t)), s,
     (t ++ [CalledOpenAI model options])%list).

Definition when {S} (b : bool) (m : M S unit) : M S unit :=
  if b then m else ret tt.

Declare Scope run_scope.
Delimit Scope run_scope with run.
Notation "x <- m ;; k" := (bind m (fun x => k))
  (at level 61, m at next level, right associativity) : run_scope.
Notation "m ;;; k" := (bind m (fun _ => k))
  (at level 61, right associativity) : run_scope.

End Runtime.

(* ================================================================== *)
(** ** [src/services/codex.ts]: the methods with effects *)
(* ================================================================== *)

Module CodexService.
Import Text Codex Runtime.
Local Open Scope run_scope.

Definition showMode (m : Mode) : string :=
  match m with suggest => "suggest" | apply => "apply" end.

(** [applyChanges = false] in the destructuring of the options. *)
Definition applyChangesOf (options : CodexExecutionOptions) : bool :=
  match applyChanges options with Some b => b | None => false end.

Definition timeoutOf (options : CodexExecutionOptions) : N :=
  match timeout options with Some n => n | None => DEFAULT_TIMEOUT end.

(** [spawnCodex]: one process; the promise resolves with the value of the
    handler that fires. *)
Definition spawnCodex {S} (options : CodexExecutionOptions) : M S CodexResult :=
  let mode := modeOf (applyChangesOf options) in
  log "Spawning: codex exec --json -C ... [prompt]" Debug ;;;
  e <- spawn options ;;
  match e with
  | Closed timedOut stdout stderr code =>
      when (negb timedOut && (isQuotaError stderr || isQuotaError stdout))
           (log "Codex CLI quota exhausted" Warn) ;;;
      ret (closeResult mode (timeoutOf options) timedOut stdout stderr code)
  | SpawnFailed enoent message =>
      when enoent (log "Codex CLI not found" Error) ;;;
      ret (errorResult mode enoent message)
  end.

(** [CodexService.execute] *)
Definition execute {S} (options : CodexExecutionOptions) : M S CodexResult :=
  let mode := modeOf (applyChangesOf options) in
  log ("Executing Codex CLI in " ++ showMode mode ++ " mode") Info ;;;
  log ("Project path: " ++ projectPath options) Debug ;;;
  spawnCodex options.

(** [isInstalled]: spawns [codex --version]. *)
Definition isInstalled {S} : M S bool := probe.

End CodexService.

(** *** [parseCodexOutput] as the method runs

    The method allocates the object [result], assigns to its fields one
    pattern after the other, and returns it.  [Heap] holds the objects that
    calls of the method have allocated so far, the caller's included: an
    object is found at its address, and a new one gets the next address.
    A cell holds a result with the objects and arrays of its fields, which
    the object literal and [extractListItems] allocate with it and which no
    other result shares. *)

Module ParserRun.
Import Text Regex Codex Runtime.
Local Open Scope run_scope.

Definition Address : Type := nat.
Definition Heap : Type := list ParsedResult.

Definition lookup (a : Address) (h : Heap) : option ParsedResult :=
  nth_error h a.

(** The heap with [f] applied to the object at [a]. *)
Fixpoint update (a : Address) (f : ParsedResult -> ParsedResult) (h : Heap)
  : Heap :=
  match h, a with
  | [], _ => []
  | r :: h', O => f r :: h'
  | r :: h', S a' => r :: update a' f h'
  end.

(** [const result = { ... }] *)
Definition allocate (r : ParsedResult) : M Heap Address :=
  h <- get ;;
  put (h ++ [r])%list ;;;
  ret (List.length h).

(** An assignment to a field of the object at [a]. *)
Definition assign (a : Address) (f : ParsedResult -> ParsedResult)
  : M Heap unit :=
  h <- get ;;
  put (update a f h).

Definition withFeasibility (f : CodexFeasibility -> CodexFeasibility)
           (r : ParsedResult) : ParsedResult :=
  {| feasibility := f (feasibility r);
     codeReview := codeReview r;
     implementationAnalysis := implementationAnalysis r;
     changesApplied := changesApplied r |}.

Definition withCodeReview (f : CodexCodeReview -> CodexCodeReview)
           (r : ParsedResult) : ParsedResult :=
  {| feasibility := feasibility r;
     codeReview := f (codeReview r);
     implementationAnalysis := implementationAnalysis r;
     changesApplied := changesApplied r |}.

Definition withAnalysis
           (f : CodexImplementationAnalysis -> CodexImplementationAnalysis)
           (r : ParsedResult) : ParsedResult :=
  {| feasibility := feasibility r;
     codeReview := codeReview r;
     implementationAnalysis := f (implementationAnalysis r);
     changesApplied := changesApplied r |}.

(** [result.feasibility.score = n] *)
Definition setScore (n : N) : ParsedResult -> ParsedResult :=
  withFeasibility
    (fun f => {| score := n; blockers := blockers f; risks := risks f;
                 dependencies_missing := dependencies_missing f |}).

(** [result.implementationAnalysis.completeness = n] *)
Definition setCompleteness (n : N) : ParsedResult -> ParsedResult :=
  withAnalysis
    (fun a => {| completeness := n; gaps := gaps a;
                 estimated_complexity := estimated_complexity a |}).

(** [result.implementationAnalysis.estimated_complexity = c] *)
Definition setComplexity (c : string) : ParsedResult -> ParsedResult :=
  withAnalysis
    (fun a => {| completeness := completeness a; gaps := gaps a;
                 estimated_complexity := c |}).

(** [result.feasibility.blockers = items] *)
Definition setBlockers (items : list string) : ParsedResult -> ParsedResult :=
  withFeasibility
    (fun f => {| score := score f; blockers := items; risks := risks f;
                 dependencies_missing := dependencies_missing f |}).

(** [result.feasibility.risks = items] *)
Definition setRisks (items : list string) : ParsedResult -> ParsedResult :=
  withFeasibility
    (fun f => {| score := score f; blockers := blockers f; risks := items;
                 dependencies_missing := dependencies_missing f |}).

(** [result.feasibility.dependencies_missing = items] *)
Definition setDependencies (items : list string)
  : ParsedResult -> ParsedResult :=
  withFeasibility
    (fun f => {| score := score f; blockers := blockers f; risks := risks f;
                 dependencies_missing := items |}).

(** [result.implementationAnalysis.gaps = items] *)
Definition setGaps (items : list string) : ParsedResult -> ParsedResult :=
  withAnalysis
    (fun a => {| completeness := completeness a; gaps := items;
                 estimated_complexity := estimated_complexity a |}).

(** [result.codeReview.improvements = items] *)
Definition setImprovements (items : list string)
  : ParsedResult -> ParsedResult :=
  withCodeReview
    (fun c => {| suggestions := suggestions c;
                 best_practice_violations := best_practice_violations c;
                 improvements := items |}).

(** [result.codeReview.best_practice_violations = items] *)
Definition setViolations (items : list string)
  : ParsedResult -> ParsedResult :=
  withCodeReview
    (fun c => {| suggestions := suggestions c;
                 best_practice_violations := items;
                 improvements := improvements c |}).

(** [result.codeReview.suggestions = items.map(...)] *)
Definition setSuggestions (items : list CodexSuggestion)
  : ParsedResult -> ParsedResult :=
  withCodeReview
    (fun c => {| suggestions := items;
                 best_practice_violations := best_practice_violations c;
                 improvements := improvements c |}).

(** [result.changesApplied = items] *)
Definition setChangesApplied (items : list string) (r : ParsedResult)
  : ParsedResult :=
  {| feasibility := feasibility r;
     codeReview := codeReview r;
     implementationAnalysis := implementationAnalysis r;
     changesApplied := items |}.

(** [const m = output.match(p); if (m) { result.field = value(m[1]); }]:
    the regular expression is a literal without the [g] flag, a new object
    at every evaluation, so that the match reads the text only. *)
Definition onMatch (p : pattern) (output : string) (result : Address)
           (set : string -> ParsedResult -> ParsedResult) : M Heap unit :=
  match exec p output with
  | Some g => assign result (set g)
  | None => ret tt
  end.

(** [parseCodexOutput], statement by statement. *)
Definition parseCodexOutput (output : string) : M Heap Address :=
  result <- allocate initialResult ;;
  onMatch (scorePattern "feasibility") output result
          (fun ds => setScore (clampScore ds)) ;;;
  onMatch (scorePattern "completeness") output result
          (fun ds => setCompleteness (clampScore ds)) ;;;
  onMatch complexityPattern output result
          (fun c => setComplexity (toLowerCase c)) ;;;
  onMatch (listPattern blockersHeader) output result
          (fun block => setBlockers (extractListItems block)) ;;;
  onMatch (listPattern risksHeader) output result
          (fun block => setRisks (extractListItems block)) ;;;
  onMatch (listPattern depsHeader) output result
          (fun block => setDependencies (extractListItems block)) ;;;
  onMatch (listPattern gapsHeader) output result
          (fun block => setGaps (extractListItems block)) ;;;
  onMatch (listPattern improvementsHeader) output result
          (fun block => setImprovements (extractListItems block)) ;;;
  onMatch (listPattern violationsHeader) output result
          (fun block => setViolations (extractListItems block)) ;;;
  onMatch (listPattern suggestionsHeader) output result
          (fun block =>
             setSuggestions (map asSuggestion (extractListItems block))) ;;;
  onMatch (listPattern changesHeader) output result
          (fun block => setChangesApplied (extractListItems block)) ;;;
  ret result.

(** The object a call returned, as the heap has it after the call. *)
Definition returned (run : Outcome Address * Heap * Trace)
  : option ParsedResult :=
  match fst (fst run) with
  | Returned a => lookup a (snd (fst run))
  | Thrown _ => None
  end.

End ParserRun.

(* ================================================================== *)
(** ** [src/services/change-applier.ts] *)
(* ================================================================== *)

Module ChangeApplier.
Import Text.

Inductive ChangeType : Type :=
| file_create | file_modify | file_delete | dependency_add | config_change.

Inductive Impact : Type := low | medium | high.

Record ProposedChange : Type := {
  type : ChangeType;
  path : string;
  description : string;
  diff : option string;
  impact : Impact
}.

Definition isDelete (t : ChangeType) : bool :=
  match t with file_delete => true | _ => false end.

Definition isDependencyAdd (t : ChangeType) : bool :=
  match t with dependency_add => true | _ => false end.

(** [assessImpact] *)
Definition assessImpact (type : ChangeType) (path : string) : Impact :=
  let pathLower := toLowerCase path in
  if includes pathLower "package.json"
     || includes pathLower "tsconfig"
     || includes pathLower ".env"
     || includes pathLower "config"
     || includes pathLower "main"
     || includes pathLower "index"
     || isDelete type
  then high
  else if endsWith pathLower ".ts"
          || endsWith pathLower ".tsx"
          || endsWith pathLower ".js"
          || endsWith pathLower ".jsx"
          || endsWith pathLower ".py"
          || isDependencyAdd type
  then medium
  else low.

Definition showType (t : ChangeType) : string :=
  match t with
  | file_create => "file_create"
  | file_modify => "file_modify"
  | file_delete => "file_delete"
  | dependency_add => "dependency_add"
  | config_change => "config_change"
  end.

Definition hasImpact (i : Impact) (c : ProposedChange) : bool :=
  match impact c, i with
  | low, low | medium, medium | high, high => true
  | _, _ => false
  end.

(** [c.diff] as a condition: present and not empty. *)
Definition hasDiff (c : ProposedChange) : bool :=
  match diff c with
  | Some d => negb (length d =? 0)%nat
  | None => false
  end.

Definition diffOf (c : ProposedChange) : string :=
  match diff c with Some d => d | None => "" end.

Definition boldLine (c : ProposedChange) : string :=
  "- **" ++ showType (type c) ++ "**: " ++ description c.

Definition plainLine (c : ProposedChange) : string :=
  "- " ++ showType (type c) ++ ": " ++ description c.

(** One group of the summary: nothing when the group is empty. *)
Definition impactGroup (title : string) (line : ProposedChange -> string)
           (group : list ProposedChange) : list string :=
  match group with
  | [] => []
  | _ => (title :: map line group ++ [""])%list
  end.

Definition diffLines (c : ProposedChange) : list string :=
  [ newline ++ "**" ++ path c ++ "**:"; "```diff"; diffOf c; "```" ].

Definition totalLine (changes : list ProposedChange) : string :=
  "Total: " ++ showN (N.of_nat (List.length changes)) ++ " change(s)".

(** [generateConfirmationSummary] *)
Definition generateConfirmationSummary (changes : list ProposedChange)
  : string :=
  match changes with
  | [] => "No changes detected."
  | _ =>
      let highImpact := filter (hasImpact high) changes in
      let mediumImpact := filter (hasImpact medium) changes in
      let lowImpact := filter (hasImpact low) changes in
      let changesWithDiffs := filter hasDiff changes in
      join newline
        ([ "## Proposed Changes"; ""; totalLine changes; "" ]
         ++ impactGroup "### High Impact (requires careful review)"
                        boldLine highImpact
         ++ impactGroup "### Medium Impact" plainLine mediumImpact
         ++ impactGroup "### Low Impact" plainLine lowImpact
         ++ match changesWithDiffs with
            | [] => []
            | _ => "### Diffs" :: flat_map diffLines changesWithDiffs
            end)%list
  end.

Record ConfirmationRequest : Type := {
  message : string;
  requiresApproval : bool;
  highImpactCount : nat
}.

(** The two sentences of the confirmation block. *)
Definition warningSentence (n : nat) : string :=
  "WARNING: This includes " ++ showN (N.of_nat n)
  ++ " high-impact change(s) that may significantly affect the project.".

Definition safeSentence : string :=
  "These changes appear to be relatively safe.".

(** The text between the summary and the sentence, and the text after the
    sentence. *)
Definition confirmationHeader : string :=
  newline ++ newline ++ "---" ++ newline ++ newline
  ++ "**Confirmation Required**" ++ newline ++ newline.

Definition confirmationFooter : string :=
  newline ++ newline
  ++ "To apply these changes, re-run the validation with `apply_changes: true` and confirm you have reviewed the changes above.".

(** [createConfirmationRequest] *)
Definition createConfirmationRequest (changes : list ProposedChange)
  : ConfirmationRequest :=
  let highImpactCount := List.length (filter (hasImpact high) changes) in
  let summary := generateConfirmationSummary changes in
  let message :=
    summary ++ confirmationHeader
    ++ (if (0 <? highImpactCount)%nat then warningSentence highImpactCount
        else safeSentence)
    ++ confirmationFooter in
  {| message := message;
     requiresApproval := (0 <? List.length changes)%nat;
     highImpactCount := highImpactCount |}.

(** What [createConfirmationRequest] puts after the summary. *)
Definition confirmationBlock (n : nat) : string :=
  confirmationHeader
  ++ (if (0 <? n)%nat then warningSentence n else safeSentence)
  ++ confirmationFooter.

Definition warningMark : string := "WARNING: This includes ".

End ChangeApplier.

(* ================================================================== *)
(** ** [src/services/execution-manager.ts] *)
(* ================================================================== *)

Module ExecutionManager.
Import Text Codex Runtime.
Local Open Scope run_scope.

Record ExecutionManagerStatus : Type := {
  st_codexCliAvailable : bool;
  st_openaiApiKeySet : bool;
  st_currentPath : option ExecutionPath;
  st_fallbackTriggered : bool;
  st_fallbackReason : option string
}.

Record ExecutionManagerOptions : Type := {
  opt_openaiApiKey : option string;
  opt_openaiModel : option string
}.

(** The private fields of the manager.  [openai] is the API client, which
    exists when the constructor found a key; the client is represented by
    the key it was built with. *)
Record Manager : Type := {
  openai : option string;
  openaiApiKey : option string;
  openaiModel : string;
  codexCliAvailable : option bool;
  fallbackTriggered : bool;
  fallbackReason : option string
}.

Definition setAvailable (b : bool) (m : Manager) : Manager :=
  {| openai := openai m; openaiApiKey := openaiApiKey m;
     openaiModel := openaiModel m;
     codexCliAvailable := Some b;
     fallbackTriggered := fallbackTriggered m;
     fallbackReason := fallbackReason m |}.

Definition setFallback (triggered : bool) (reason : option string)
           (m : Manager) : Manager :=
  {| openai := openai m; openaiApiKey := openaiApiKey m;
     openaiModel := openaiModel m;
     codexCliAvailable := codexCliAvailable m;
     fallbackTriggered := triggered;
     fallbackReason := reason |}.

Definition modify (f : Manager -> Manager) : M Manager unit :=
  fun _ m t => (Returned tt, f m, t).

(** Truthiness of the fields tested in conditions. *)
Definition keySet (k : option string) : bool :=
  match k with
  | Some s => negb (length s =? 0)%nat
  | None => false
  end.

Definition hasClient (m : Manager) : bool :=
  match openai m with Some _ => true | None => false end.

Definition cliAvailable (m : Manager) : bool :=
  match codexCliAvailable m with Some b => b | None => false end.

(** [a ?? b] *)
Definition coalesce {A} (a b : option A) : option A :=
  match a with Some _ => a | None => b end.

(** The constructor. *)
Definition new {S} (options : ExecutionManagerOptions) : M S Manager :=
  fun env s t =>
    let key := coalesce (opt_openaiApiKey options) (OPENAI_API_KEY env) in
    let model := match opt_openaiModel options with
                 | Some m => m | None => "gpt-4o" end in
    let this := {| openai := if keySet key then key else None;
                   openaiApiKey := key;
                   openaiModel := model;
                   codexCliAvailable := None;
                   fallbackTriggered := false;
                   fallbackReason := None |} in
    ((if keySet key
      then log "OpenAI API fallback is available" Info
      else log "OPENAI_API_KEY not set - fallback unavailable" Warn) ;;;
     ret this) env s t.

(** [initialize] *)
Definition initialize : M Manager unit :=
  available <- CodexService.isInstalled ;;
  modify (setAvailable available) ;;;
  (if available
   then log "Codex CLI is installed and available" Info
   else log "Codex CLI not found - will use OpenAI API if available" Warn) ;;;
  this <- get ;;
  if negb (cliAvailable this) && negb (hasClient this)
  then throw "No execution path available. Either install Codex CLI (npm install -g @openai/codex) or set OPENAI_API_KEY environment variable."
  else ret tt.

(** [getStatus] *)
Definition getStatus (this : Manager) : ExecutionManagerStatus :=
  {| st_codexCliAvailable := cliAvailable this;
     st_openaiApiKeySet := keySet (openaiApiKey this);
     st_currentPath := if cliAvailable this then Some codex_cli
                       else if hasClient this then Some openai_api else None;
     st_fallbackTriggered := fallbackTriggered this;
     st_fallbackReason := fallbackReason this |}.

(** [getDefaultParsedResult] of the manager. *)
Definition getDefaultParsedResult : ParsedResult :=
  {| feasibility :=
       {| score := 50; blockers := [];
          risks := ["Unable to complete analysis"];
          dependencies_missing := [] |};
     codeReview :=
       {| suggestions := []; best_practice_violations := [];
          improvements := [] |};
     implementationAnalysis :=
       {| completeness := 50; gaps := ["Analysis incomplete"];
          estimated_complexity := "medium" |};
     changesApplied := [] |}.

Definition failed (mode : Mode) (rawError error : string) (quota : bool)
  : CodexResult :=
  {| success := false; mode := mode; executionPath := openai_api;
     rawOutput := ""; rawError := rawError; error := Some error;
     quotaExhausted := quota; parsed := getDefaultParsedResult |}.

(** The value [executeViaOpenAI] returns for an outcome of the API call:
    the end of the [try] block for an answer, the [catch] block for a
    thrown error. *)
Definition apiResult (mode : Mode) (timeout : N) (outcome : ApiOutcome)
  : CodexResult :=
  match outcome with
  | Answered answer =>
      let content := match answer with Some c => c | None => "" end in
      (* Parse the response using the same parser as Codex CLI *)
      let parsed := parseCodexOutput content in
      {| success := true; mode := mode; executionPath := openai_api;
         rawOutput := content; rawError := ""; error := None;
         quotaExhausted := false;
         parsed :=
           {| feasibility := feasibility parsed;
              codeReview := codeReview parsed;
              implementationAnalysis := implementationAnalysis parsed;
              (* OpenAI API path doesn't apply changes *)
              changesApplied := [] |} |}
  | Rejected errorMessage =>
      if includes errorMessage "aborted" || includes errorMessage "timeout"
      then failed mode "Request timed out"
                  ("OpenAI API request timed out after "
                     ++ showN timeout ++ "ms")
                  false
      else
        let isQuotaError :=
          includes (toLowerCase errorMessage) "rate limit"
          || includes (toLowerCase errorMessage) "quota"
          || includes errorMessage "429" in
        failed mode errorMessage errorMessage isQuotaError
  end.

Definition answered (outcome : ApiOutcome) : bool :=
  match outcome with Answered _ => true | Rejected _ => false end.

Definition apiTimeout (options : CodexExecutionOptions) : N :=
  match timeout options with Some n => n | None => 5 * 60 * 1000 end.

(** [executeViaOpenAI] *)
Definition executeViaOpenAI (options : CodexExecutionOptions)
  : M Manager CodexResult :=
  let mode := modeOf (CodexService.applyChangesOf options) in
  this <- get ;;
  if negb (hasClient this) then
    ret (failed mode "OpenAI API not configured"
                "OpenAI API not configured - set OPENAI_API_KEY environment variable"
                false)
  else
    outcome <- chatCompletion (openaiModel this) options ;;
    when (answered outcome)
         (log "OpenAI API execution completed successfully" Info) ;;;
    ret (apiResult mode (apiTimeout options) outcome).

(** [execute] *)
Definition execute (options : CodexExecutionOptions) : M Manager CodexResult :=
  this <- get ;;
  let previousFallback := fallbackTriggered this in
  if cliAvailable this then
    log "Attempting execution via Codex CLI" Info ;;;
    result <- CodexService.execute options ;;
    if quotaExhausted result && hasClient this then
      log "Codex CLI quota exhausted, falling back to OpenAI API" Warn ;;;
      log "NOTE: OpenAI API usage may incur costs" Warn ;;;
      modify (setFallback true (Some "Codex CLI Pro quota exhausted")) ;;;
      executeViaOpenAI options
    else
      (* Return CLI result (successful or not) *)
      ret result
  else if hasClient this then
    log "Codex CLI not available, using OpenAI API" Info ;;;
    when (negb previousFallback)
         (modify (setFallback true (Some "Codex CLI not installed"))) ;;;
    executeViaOpenAI options
  else
    throw "No execution path available".

(** [hasFallbackAvailable] *)
Definition hasFallbackAvailable (this : Manager) : bool := hasClient this.

(** [resetFallbackState] *)
Definition resetFallbackState : M Manager unit :=
  modify (setFallback false None).

(** *** The singleton factory

    The state of the module is the variable [instance].  The manager that
    [getExecutionManager] returns is the object [instance] refers to. *)
Definition getExecutionManager (options : ExecutionManagerOptions)
  : M (option Manager) Manager :=
  fun env instance t =>
    match instance with
    | Some this => (Returned this, instance, t)
    | None =>
        match new options env tt t with
        | (Returned this, _, t1) =>
            (* [instance] is assigned before [initialize] runs *)
            match initialize env this t1 with
            | (Returned _, this', t2) => (Returned this', Some this', t2)
            | (Thrown e, this', t2) => (Thrown e, Some this', t2)
            end
        | (Thrown e, _, t1) => (Thrown e, None, t1)
        end
    end.

(** [resetExecutionManager] *)
Definition resetExecutionManager : M (option Manager) unit := put None.

(** *** Sequences of calls on one manager *)
Inductive Call : Type :=
| CallInitialize
| CallExecute (options : CodexExecutionOptions)
| CallGetStatus
| CallHasFallbackAvailable
| CallResetFallbackState.

Definition isReset (c : Call) : bool :=
  match c with CallResetFallbackState => true | _ => false end.

(** The state and the trace after a call; a caller that catches what the
    call throws goes on with that state. *)
Definition after {A} (r : Outcome A * Manager * Trace) : Manager * Trace :=
  (snd (fst r), snd r).

Definition runCall (env : Env) (c : Call) (st : Manager * Trace)
  : Manager * Trace :=
  match c with
  | CallInitialize => after (initialize env (fst st) (snd st))
  | CallExecute options => after (execute options env (fst st) (snd st))
  | CallGetStatus => st
  | CallHasFallbackAvailable => st
  | CallResetFallbackState => after (resetFallbackState env (fst st) (snd st))
  end.

Definition runCalls (env : Env) (cs : list Call) (st : Manager * Trace)
  : Manager * Trace :=
  fold_left (fun st c => runCall env c st) cs st.

End ExecutionManager.

(* ================================================================== *)
(** ** Notions used to state the properties *)
(* ================================================================== *)

Module QuotaRule.
Import Text Codex.

(** The rule of failure classification in the words of the specification:
    a text mentions a phrase when the phrase occurs in it in any mix of
    upper and lower case. *)

(** [c] is the character [d] of a phrase, or [d] is a letter and [c] is its
    capital. *)
Definition inCase (c d : ascii) : bool :=
  Ascii.eqb c d || (between 97 122 d && (code c + 32 =? code d)%N).

(** [s] spells the phrase [p], case apart. *)
Fixpoint spells (s p : string) : bool :=
  match s, p with
  | "", "" => true
  | String c s', String d p' => inCase c d && spells s' p'
  | _, _ => false
  end.

Definition mentions (text phrase : string) : Prop :=
  exists a s b, text = a ++ s ++ b /\ spells s phrase = true.

Definition mentionsQuota (text : string) : Prop :=
  exists phrase, In phrase quotaPatterns /\ mentions text phrase.

(** A character of the phrases: ASCII, and no capital letter. *)
Definition plain (d : ascii) : bool :=
  (code d <? 128)%N && negb (between 65 90 d).

End QuotaRule.

Module ImpactRule.
Import Text ChangeApplier.

(** The rule of impact classification in the words of the specification:
    the markers of a sensitive path and the extensions of source code. *)
Definition sensitiveMarkers : list string :=
  [ "package.json"; "tsconfig"; ".env"; "config"; "main"; "index" ].

Definition sourceExtensions : list string :=
  [ ".ts"; ".tsx"; ".js"; ".jsx"; ".py" ].

(** The path, whatever its case, contains a sensitive marker. *)
Definition containsMarker (path : string) : Prop :=
  exists marker a b,
    In marker sensitiveMarkers /\ toLowerCase path = a ++ marker ++ b.

(** The path, whatever its case, ends with [ext]. *)
Definition hasExtension (ext path : string) : Prop :=
  exists a, toLowerCase path = a ++ ext.

Definition hasSourceExtension (path : string) : Prop :=
  exists ext, In ext sourceExtensions /\ hasExtension ext path.

(** The two tests as [assessImpact] computes them. *)
Definition sensitive (path : string) : bool :=
  existsb (includes (toLowerCase path)) sensitiveMarkers.

Definition source (path : string) : bool :=
  existsb (endsWith (toLowerCase path)) sourceExtensions.

End ImpactRule.

Module TraceSpec.
Import Runtime.

(** [appended t t' p c o]: the trace [t'] is [t] followed by new events,
    among them [p] probes, [c] invocations of the Codex CLI and [o]
    invocations of the OpenAI API. *)
Definition appended (t t' : Trace) (probes primaries secondaries : nat)
  : Prop :=
  exists new : Trace,
    t' = (t ++ new)%list
    /\ count isProbe new = probes
    /\ count isPrimary new = primaries
    /\ count isSecondary new = secondaries.

End TraceSpec.

Module Scenario.
Import Text Codex Runtime ExecutionManager.

(** A request to apply changes. *)
Definition request : CodexExecutionOptions :=
  {| planContent := "Add a widget";
     projectPath := "/srv/app";
     applyChanges := Some true;
     timeout := None;
     additionalInstructions := None |}.

(** A manager with both paths usable and no fallback so far. *)
Definition ready : Manager :=
  {| openai := Some "sk-test";
     openaiApiKey := Some "sk-test";
     openaiModel := "gpt-4o";
     codexCliAvailable := Some true;
     fallbackTriggered := false;
     fallbackReason := None |}.

(** The same manager before [initialize]. *)
Definition fresh : Manager :=
  {| openai := Some "sk-test";
     openaiApiKey := Some "sk-test";
     openaiModel := "gpt-4o";
     codexCliAvailable := None;
     fallbackTriggered := false;
     fallbackReason := None |}.

(** A world where the first Codex process runs out of quota and the later
    ones succeed, where the API answers with an analysis that lists applied
    changes, and where the CLI is found by the first probe only. *)
Definition world : Env :=
  {| probeAnswer := fun n => (n =? 0)%nat;
     processEnd := fun n =>
       if (n =? 0)%nat
       then Closed false "" "429 Too Many Requests" (Some 1%N)
       else Closed false "Feasibility: 90" "" (Some 0%N);
     apiOutcome := fun _ =>
       Answered (Some ("Feasibility: 80" ++ newline ++ "Changes applied:"
                         ++ newline ++ "- src/widget.ts"));
     OPENAI_API_KEY := Some "sk-test" |}.

(** A change whose path and description repeat the warning sentence, as
    [parseProposedChanges] reads one from a line [create: WARNING: This
    includes 1 ...] of the output; its impact is the one [assessImpact]
    gives, low. *)
Definition echoingChange : ChangeApplier.ProposedChange :=
  {| ChangeApplier.type := ChangeApplier.file_create;
     ChangeApplier.path := ChangeApplier.warningSentence 1;
     ChangeApplier.description :=
       "Create new file: " ++ ChangeApplier.warningSentence 1;
     ChangeApplier.diff := None;
     ChangeApplier.impact :=
       ChangeApplier.assessImpact ChangeApplier.file_create
                                  (ChangeApplier.warningSentence 1) |}.

(** Two proposed changes. *)
Definition lowChange : ChangeApplier.ProposedChange :=
  {| ChangeApplier.type := ChangeApplier.file_modify;
     ChangeApplier.path := "docs/README.md";
     ChangeApplier.description := "Modify existing file: README.md";
     ChangeApplier.diff := None;
     ChangeApplier.impact := ChangeApplier.low |}.

Definition highChange : ChangeApplier.ProposedChange :=
  {| ChangeApplier.type := ChangeApplier.file_delete;
     ChangeApplier.path := "legacy/old.ts";
     ChangeApplier.description := "Delete file: old.ts";
     ChangeApplier.diff := None;
     ChangeApplier.impact := ChangeApplier.high |}.

End Scenario.

Module FactorySpec.
Import Runtime ExecutionManager.

(** The variable [instance] and the trace after a call of the factory, and
    after a sequence of calls. *)
Definition afterFactory (r : Outcome Manager * option Manager * Trace)
  : option Manager * Trace :=
  (snd (fst r), snd r).

Definition getMany (env : Env) (calls : list ExecutionManagerOptions)
           (st : option Manager * Trace) : option Manager * Trace :=
  fold_left
    (fun st o => afterFactory (getExecutionManager o env (fst st) (snd st)))
    calls st.

End FactorySpec.

(* ================================================================== *)
(** ** More of the sources *)
(* ================================================================== *)

(** *** Texts and patterns *)

Module TextMore.
Import Text.

(** Every character of the text satisfies [p]. *)
Fixpoint allChars (p : ascii -> bool) (s : string) : bool :=
  match s with
  | "" => true
  | String c s' => p c && allChars p s'
  end.

(** The text does not start with a character that satisfies [p]. *)
Definition stopsAt (p : ascii -> bool) (s : string) : bool :=
  match s with
  | "" => true
  | String c _ => negb (p c)
  end.

(** [s.split(c)] for a separator of one character: never empty. *)
Fixpoint splitOn (sep : ascii -> bool) (s : string) : list string :=
  match s with
  | "" => [""]
  | String c s' =>
      if sep c then "" :: splitOn sep s'
      else match splitOn sep s' with
           | l :: ls => String c l :: ls
           | [] => [String c ""]
           end
  end.

Definition isSlash : ascii -> bool := isCode 47.

(** [path.split('/').pop() ?? path] *)
Definition lastSegment (path : string) : string :=
  List.last (splitOn isSlash path) path.

(** The line terminators below 256: after one of them [^] holds under the
    [m] flag. *)
Definition isLineTerminator (c : ascii) : bool := isCode 10 c || isCode 13 c.

(** The lower-case letters [a] to [z]. *)
Definition isLower : ascii -> bool := between 97 122.

End TextMore.

Module RegexMore.
Import Text Regex.

(** A literal without the [i] flag. *)
Definition exact (c : ascii) : regex := Cls (Ascii.eqb c).

Fixpoint str (s : string) : regex :=
  match s with
  | "" => Eps
  | String c s' => Seq (exact c) (str s')
  end.

(** The match anchored at the start of [s]: group 1 and the input after
    the match. *)
Definition matchHereRest (p : pattern) (s : string)
  : option (string * string) :=
  rmatch (before p) s
         (fun s1 => rmatch (group p) s1
                           (fun s2 => Some (consumed s1 s2, s2))).

(** One [regex.exec(s)] of a pattern with the [g] flag, [s] being the input
    from [lastIndex] on: the leftmost match, as group 1 and the input from
    the new [lastIndex] on. *)
Fixpoint execRest (p : pattern) (s : string) : option (string * string) :=
  match matchHereRest p s with
  | Some r => Some r
  | None =>
      match s with
      | "" => None
      | String _ s' => execRest p s'
      end
  end.

(** [while ((match = regex.exec(s)) !== null)]: group 1 of the successive
    matches.  [n] bounds the number of matches; the patterns of the sources
    match at least one character, so that the length of the input, plus
    one, is a bound. *)
Fixpoint execLoop (n : nat) (p : pattern) (s : string) : list string :=
  match n with
  | O => []
  | S n' =>
      match execRest p s with
      | Some (g, rest) => g :: execLoop n' p rest
      | None => []
      end
  end.

Definition execAll (p : pattern) (s : string) : list string :=
  execLoop (S (length s)) p s.

(** [[\s\S]*?] followed by the rest of the pattern [k]: the shortest run of
    characters after which [k] succeeds. *)
Fixpoint lazyAny {A : Type} (s : string) (k : string -> option A)
  : option A :=
  match k s with
  | Some x => Some x
  | None =>
      match s with
      | "" => None
      | String _ s' => lazyAny s' k
      end
  end.

(** [s.match(p)] for a pattern [/^.../m] without the [g] flag: the leftmost
    match that starts at the start of a line.  [atStart] tells whether the
    text starts a line. *)
Fixpoint execLineStart (atStart : bool) (p : pattern) (s : string)
  : option string :=
  match (if atStart then matchHere p s else None) with
  | Some g => Some g
  | None =>
      match s with
      | "" => None
      | String c s' => execLineStart (TextMore.isLineTerminator c) p s'
      end
  end.

End RegexMore.

(** *** [src/services/change-applier.ts]: proposals and their audit *)

Module Proposals.
Import Text Regex TextMore RegexMore ChangeApplier.

(** [generateDescription] *)
Definition generateDescription (type : ChangeType) (path : string) : string :=
  let filename := lastSegment path in
  match type with
  | file_create => "Create new file: " ++ filename
  | file_modify => "Modify existing file: " ++ filename
  | file_delete => "Delete file: " ++ filename
  | dependency_add => "Add dependency: " ++ path
  | config_change => "Update configuration: " ++ path
  end.

(** The phrase families of [parseProposedChanges], in the order of the
    source. *)
Definition createWords : regex :=
  Alt (lit "create") (Alt (lit "creating") (lit "new file")).
Definition modifyWords : regex :=
  Alt (lit "modify")
      (Alt (lit "modifying")
           (Alt (lit "update")
                (Alt (lit "updating") (Alt (lit "edit") (lit "editing"))))).
Definition deleteWords : regex :=
  Alt (lit "delete")
      (Alt (lit "deleting") (Alt (lit "remove") (lit "removing"))).
Definition dependencyWords : regex :=
  Alt (lit "install")
      (Alt (lit "add dependency")
           (Alt (lit "npm install") (lit "yarn add"))).
Definition configWords : regex :=
  Alt (lit "config") (Alt (lit "configuration") (lit "setting")).

Definition families : list (regex * ChangeType) :=
  [ (createWords, file_create);
    (modifyWords, file_modify);
    (deleteWords, file_delete);
    (dependencyWords, dependency_add);
    (configWords, config_change) ].

(** [/(?:words)[:\s]+([^\n]+)/gi] *)
Definition familyPattern (words : regex) : pattern :=
  {| before := Seq words (Plus (Cls Codex.isSep));
     group := Plus (Cls notNewline) |}.

(** [path && !path.startsWith('//') && path.length < 200] *)
Definition acceptable (path : string) : bool :=
  negb (length path =? 0)%nat
  && negb (startsWith path "//")
  && (length path <? 200)%nat.

(** The body of the [while] loop for one match. *)
Definition propose (type : ChangeType) (capture : string)
  : list ProposedChange :=
  let path := trim capture in
  if acceptable path
  then [ {| type := type; path := path;
            description := generateDescription type path;
            diff := None;
            impact := assessImpact type path |} ]
  else [].

(** The changes after the loop over the families. *)
Definition candidates (codexOutput : string) : list ProposedChange :=
  flat_map
    (fun family =>
       flat_map (propose (snd family))
                (execAll (familyPattern (fst family)) codexOutput))
    families.

(** [/```(?:diff)?\n([\s\S]*?)```/g]: the match anchored at the start of
    [s], as group 1 and the input after the closing fence. *)
Definition fence : regex := str "```".

Definition fenceHere (s : string) : option (string * string) :=
  rmatch (Seq fence (Seq (Opt (str "diff")) (Cls isNewline))) s
         (fun s1 =>
            lazyAny s1
                    (fun s2 =>
                       rmatch fence s2
                              (fun s3 => Some (consumed s1 s2, s3)))).

Fixpoint fenceRest (s : string) : option (string * string) :=
  match fenceHere s with
  | Some r => Some r
  | None =>
      match s with
      | "" => None
      | String _ s' => fenceRest s'
      end
  end.

(** The contents of the fenced blocks, in order; a match takes its two
    fences with it, so that the length of the input bounds the loop. *)
Fixpoint fenceLoop (n : nat) (s : string) : list string :=
  match n with
  | O => []
  | S n' =>
      match fenceRest s with
      | Some (g, rest) => g :: fenceLoop n' rest
      | None => []
      end
  end.

Definition fencedBlocks (s : string) : list string :=
  fenceLoop (S (length s)) s.

(** [/^(?:---|\+\+\+)\s+([^\n]+)/m] *)
Definition diffHeader : pattern :=
  {| before := Seq (Alt (str "---") (str "+++")) (Plus (Cls isSpace));
     group := Plus (Cls notNewline) |}.

Definition withDiff (d : string) (c : ProposedChange) : ProposedChange :=
  {| type := type c; path := path c; description := description c;
     diff := Some d; impact := impact c |}.

(** [changes.find(c => c.path.includes(file))], and the assignment of the
    diff to the change found. *)
Fixpoint attachFirst (file d : string) (changes : list ProposedChange)
  : list ProposedChange :=
  match changes with
  | [] => []
  | c :: cs =>
      if includes (path c) file then withDiff d c :: cs
      else c :: attachFirst file d cs
  end.

(** The body of the loop over the fenced blocks. *)
Definition attachBlock (changes : list ProposedChange) (block : string)
  : list ProposedChange :=
  let diffContent := trim block in
  match execLineStart true diffHeader diffContent with
  | Some file => attachFirst file diffContent changes
  | None => changes
  end.

(** [parseProposedChanges] *)
Definition parseProposedChanges (codexOutput : string)
  : list ProposedChange :=
  fold_left attachBlock (fencedBlocks codexOutput) (candidates codexOutput).

(** [validateChangesApplied] *)
Record ChangeAudit : Type := {
  success : bool;
  applied : list string;
  failed : list string;
  partial : bool
}.

Definition wasApplied (appliedChanges : list string) (change : ProposedChange)
  : bool :=
  existsb (fun ac => includes (toLowerCase ac) (toLowerCase (path change)))
          appliedChanges.

(** The loop that sorts the paths into [applied] and [failed]. *)
Definition sortChange (appliedChanges : list string)
           (acc : list string * list string) (change : ProposedChange)
  : list string * list string :=
  if wasApplied appliedChanges change
  then ((fst acc ++ [path change])%list, snd acc)
  else (fst acc, (snd acc ++ [path change])%list).

Definition validateChangesApplied (proposedChanges : list ProposedChange)
           (appliedChanges : list string) : ChangeAudit :=
  let sorted := fold_left (sortChange appliedChanges) proposedChanges ([], []) in
  {| success := (List.length (snd sorted) =? 0)%nat;
     applied := fst sorted;
     failed := snd sorted;
     partial := (0 <? List.length (fst sorted))%nat
                && (0 <? List.length (snd sorted))%nat |}.

End Proposals.

(** *** [src/tools/validate-plan.ts]: the verdict *)

Module ValidatePlan.
Import Text Codex.

Record BestPractice : Type := {
  bp_technology : string;
  bp_libraryId : string;
  bp_topic : string;
  bp_content : string;
  bp_codeExamples : list string
}.

Record Context7Violation : Type := {
  technology : string;
  violation : string;
  bestPractice : string;
  severity : Severity
}.

Record Context7ValidationResult : Type := {
  technologies_detected : list string;
  best_practices_checked : list BestPractice;
  violations : list Context7Violation
}.

Inductive ValidationStatus : Type := pass | warn | fail.

Definition hasSeverity (s : Severity) (v : Context7Violation) : bool :=
  match severity v, s with
  | info, info | warning, warning | error_, error_ => true
  | _, _ => false
  end.

(** [determineValidationStatus] *)
Definition determineValidationStatus
           (codexResult : CodexResult)
           (context7Result : Context7ValidationResult) : ValidationStatus :=
  if negb (success codexResult) then fail
  else if (0 <? List.length (blockers (feasibility (parsed codexResult))))%nat
  then fail
  else if (score (feasibility (parsed codexResult)) <? 40)%N then fail
  else
    let criticalViolations :=
      filter (hasSeverity error_) (violations context7Result) in
    if (0 <? List.length criticalViolations)%nat then fail
    else if (score (feasibility (parsed codexResult)) <? 70)%N then warn
    else
      let warningViolations :=
        filter (hasSeverity warning) (violations context7Result) in
      if (0 <? List.length warningViolations)%nat then warn
      else pass.

(** [getStatusBadge] *)
Definition getStatusBadge (status : ValidationStatus) : string :=
  match status with
  | pass => "**PASS** - Plan is ready for implementation"
  | warn => "**WARNING** - Plan has issues that should be addressed"
  | fail => "**FAIL** - Plan has critical issues blocking implementation"
  end.

End ValidatePlan.

(** *** Notions used to state the further properties *)

Module ParsedSpec.
Import Codex.

(** Every text that [parseCodexOutput] puts in a list of its record. *)
Definition listItems (p : ParsedResult) : list string :=
  (blockers (feasibility p)
   ++ risks (feasibility p)
   ++ dependencies_missing (feasibility p)
   ++ map description (suggestions (codeReview p))
   ++ best_practice_violations (codeReview p)
   ++ improvements (codeReview p)
   ++ gaps (implementationAnalysis p)
   ++ changesApplied p)%list.

(** An item of a list: not empty, without a line break, without spaces
    around it. *)
Definition cleanItem (item : string) : Prop :=
  item <> ""
  /\ Text.trim item = item
  /\ TextMore.allChars Text.notNewline item = true.

End ParsedSpec.

Module ManagerSpec.
Import Codex Runtime ExecutionManager.

(** The flag and the reason go together. *)
Definition flagged (this : Manager) : Prop :=
  (fallbackTriggered this = true /\ fallbackReason this <> None)
  \/ (fallbackTriggered this = false /\ fallbackReason this = None).

End ManagerSpec.

Module ProposalSpec.
Import Text TextMore ChangeApplier Proposals.

(** What [parseProposedChanges] promises of a proposal. *)
Definition wellFormed (c : ProposedChange) : Prop :=
  path c <> ""
  /\ length (path c) < 200
  /\ startsWith (path c) "//" = false
  /\ trim (path c) = path c
  /\ allChars notNewline (path c) = true
  /\ description c = generateDescription (type c) (path c)
  /\ impact c = assessImpact (type c) (path c).

(** A proposal without its diff. *)
Definition core (c : ProposedChange)
  : ChangeType * string * string * Impact :=
  (type c, path c, description c, impact c).

(** Where the diff of a proposal comes from. *)
Definition diffFrom (blocks : list string) (c : ProposedChange) : Prop :=
  forall d,
    diff c = Some d ->
    exists block file,
      In block blocks /\ d = trim block
      /\ RegexMore.execLineStart true diffHeader d = Some file
      /\ includes (path c) file = true.

End ProposalSpec.

Module ConfirmationSpec.
Import Text ChangeApplier.

(** The line of a change in the summary. *)
Definition summaryLine (c : ProposedChange) : string :=
  match impact c with
  | high => "- **" ++ showType (type c) ++ "**: " ++ description c
  | _ => "- " ++ showType (type c) ++ ": " ++ description c
  end.

Definition deletes (c : ProposedChange) : bool := isDelete (type c).

End ConfirmationSpec.

(* ================================================================== *)
(** * Properties *)
(* ================================================================== *)

(** ** Texts *)

Module TextFacts.
Import Text.
Lemma append_assoc (a b c : string) : (a ++ b) ++ c = a ++ (b ++ c).
Proof. induction a as [|x a IH]; simpl; [reflexivity | now rewrite IH]. Qed.

Lemma length_append (a b : string) : length (a ++ b) = length a + length b.
Proof. induction a as [|x a IH]; simpl; [reflexivity | now rewrite IH]. Qed.

Lemma substring_append (a b : string) : substring 0 (length a) (a ++ b) = a.
Proof. induction a as [|x a IH]; simpl; [now destruct b | now rewrite IH]. Qed.

Lemma prefix_append (p s : string) : prefix p (p ++ s) = true.
Proof.
  induction p as [|x p IH]; simpl; [now destruct s |].
  destruct (ascii_dec x x) as [_ | ne]; [exact IH | now elim ne].
Qed.

(** A text that starts with [p] is [p] followed by the rest. *)
Lemma prefix_split (p s : string) :
  prefix p s = true -> exists b, s = p ++ b.
Proof.
  revert s. induction p as [|x p IH]; intros s H.
  - now exists s.
  - destruct s as [|y s]; simpl in H; [discriminate |].
    destruct (ascii_dec x y) as [-> | _]; [| discriminate].
    destruct (IH s H) as [b ->]. now exists b.
Qed.

Lemma includes_here (p s : string) : includes (p ++ s) p = true.
Proof.
  pose proof (prefix_append p s) as H.
  destruct (p ++ s); cbn [includes]; now rewrite H.
Qed.

Lemma includes_later (c : ascii) (s p : string) :
  includes s p = true -> includes (String c s) p = true.
Proof.
  intros H. cbn [includes]. now destruct (prefix p (String c s)).
Qed.

Lemma includes_append (a p s : string) : includes (a ++ p ++ s) p = true.
Proof.
  induction a as [|x a IH]; simpl append.
  - apply includes_here.
  - now apply includes_later.
Qed.

Lemma includes_split (s p : string) :
  includes s p = true -> exists a b, s = a ++ p ++ b.
Proof.
  induction s as [|c s IH]; cbn [includes]; intros H.
  - destruct (prefix p "") eqn:E; [| discriminate].
    destruct (prefix_split _ _ E) as [b Hb]. now exists "", b.
  - destruct (prefix p (String c s)) eqn:E.
    + destruct (prefix_split _ _ E) as [b Hb]. now exists "", b.
    + destruct (IH H) as (a & b & ->). now exists (String c a), b.
Qed.
End TextFacts.

(** ** The matcher *)

Module RegexFacts.
Import Text Regex TextFacts.

Section Soundness.
Context {A : Type}.
Implicit Types (k : string -> option A) (x : A).

Lemma star_loop_sound (r : regex)
      (IH : forall s k x, rmatch r s k = Some x -> found r s k x) :
  forall n s k x, star_loop (rmatch r) k n s = Some x -> found (Star r) s k x.
Proof.
  induction n as [|n IHn]; intros s k x H; cbn [star_loop] in H.
  - exists "", s. repeat split; [constructor | exact H].
  - destruct (rmatch r s _) as [y|] eqn:E.
    + injection H as ->.
      apply IH in E. destruct E as (s1 & s2 & -> & M1 & K).
      destruct (length s2 <? length (s1 ++ s2))%nat; [| discriminate].
      apply IHn in K. destruct K as (s3 & s4 & -> & M2 & K).
      exists (s1 ++ s3), s4. rewrite append_assoc.
      repeat split; [now constructor | exact K].
    + exists "", s. repeat split; [constructor | exact H].
Qed.

Lemma rmatch_sound (r : regex) :
  forall s k x, rmatch r s k = Some x -> found r s k x.
Proof.
  induction r as [| p | r1 IH1 r2 IH2 | r1 IH1 r2 IH2 | r IH];
    intros s k x H; cbn [rmatch] in H.
  - exists "", s. repeat split; [constructor | exact H].
  - destruct s as [|c s]; [discriminate |].
    destruct (p c) eqn:P; [| discriminate].
    exists (String c ""), s. repeat split; [now constructor | exact H].
  - apply IH1 in H. destruct H as (s1 & s2 & -> & M1 & H).
    apply IH2 in H. destruct H as (s3 & s4 & -> & M2 & H).
    exists (s1 ++ s3), s4. rewrite append_assoc.
    repeat split; [now constructor | exact H].
  - destruct (rmatch r1 s k) as [y|] eqn:E.
    + injection H as ->. apply IH1 in E.
      destruct E as (s1 & s2 & -> & M & K).
      exists s1, s2. repeat split; [now apply MAltL | exact K].
    + apply IH2 in H. destruct H as (s1 & s2 & -> & M & K).
      exists s1, s2. repeat split; [now apply MAltR | exact K].
  - now apply (star_loop_sound r IH) in H.
Qed.

(** A continuation that always fails makes the matcher fail. *)
Lemma rmatch_fails (r : regex) (s : string) k :
  (forall t, k t = None) -> rmatch r s k = None.
Proof.
  intros K. destruct (rmatch r s k) as [x|] eqn:E; [| reflexivity].
  apply rmatch_sound in E. destruct E as (s1 & s2 & _ & _ & E).
  rewrite K in E. discriminate.
Qed.
End Soundness.

Section Extensionality.
Context {A : Type}.
Implicit Types (k : string -> option A).

Lemma star_loop_ext (r : regex)
      (IH : forall s k1 k2, (forall t, k1 t = k2 t) ->
                            rmatch r s k1 = rmatch r s k2) :
  forall n s k1 k2, (forall t, k1 t = k2 t) ->
                    star_loop (rmatch r) k1 n s = star_loop (rmatch r) k2 n s.
Proof.
  induction n as [|n IHn]; intros s k1 k2 K; cbn [star_loop].
  - apply K.
  - rewrite (IH s _ (fun s' => if (length s' <? length s)%nat
                               then star_loop (rmatch r) k2 n s' else None)).
    + now rewrite K.
    + intros t. destruct (length t <? length s)%nat; [now apply IHn | reflexivity].
Qed.

Lemma rmatch_ext (r : regex) :
  forall s k1 k2, (forall t, k1 t = k2 t) -> rmatch r s k1 = rmatch r s k2.
Proof.
  induction r as [| p | r1 IH1 r2 IH2 | r1 IH1 r2 IH2 | r IH];
    intros s k1 k2 K; cbn [rmatch].
  - apply K.
  - destruct s as [|c s]; [reflexivity |]. now rewrite K.
  - apply IH1. intros t. now apply IH2.
  - now rewrite (IH1 s k1 k2 K), (IH2 s k1 k2 K).
  - now apply star_loop_ext.
Qed.

(** The bound on the iterations of a star does not matter once it
    reaches the length of the input: taking the length is enough. *)
Lemma star_loop_fuel (r : regex) k :
  forall n n' s, length s <= n -> length s <= n' ->
                 star_loop (rmatch r) k n s = star_loop (rmatch r) k n' s.
Proof.
  assert (Z : forall n s, length s = 0 -> star_loop (rmatch r) k n s = k s).
  { intros [|n] s L; cbn [star_loop]; [reflexivity |].
    rewrite rmatch_fails; [reflexivity |].
    intros t. rewrite L. reflexivity. }
  induction n as [|n IHn]; intros n' s L L'.
  - rewrite !Z by lia. reflexivity.
  - destruct n' as [|n']; [rewrite !Z by lia; reflexivity |].
    cbn [star_loop].
    rewrite (rmatch_ext r s _
               (fun s' => if (length s' <? length s)%nat
                          then star_loop (rmatch r) k n' s' else None));
      [reflexivity |].
    intros t. destruct (length t <? length s)%nat eqn:E; [| reflexivity].
    apply Nat.ltb_lt in E. apply IHn; lia.
Qed.
End Extensionality.

Section Completeness.
Context {A : Type}.
Implicit Types (k : string -> option A).

Lemma star_loop_done (r : regex) k n s :
  k s <> None -> star_loop (rmatch r) k n s <> None.
Proof.
  intros K. destruct n as [|n]; cbn [star_loop]; [exact K |].
  now destruct (rmatch r s _).
Qed.

(** Whenever some split of the input has its prefix in the language and
    its rest accepted by the continuation, the matcher succeeds. *)
Lemma rmatch_complete (r : regex) (s1 : string) :
  matches r s1 ->
  forall s2 k, k s2 <> None -> rmatch r (s1 ++ s2) k <> None.
Proof.
  induction 1 as [| p c P | r1 r2 s1 s2 M1 IH1 M2 IH2 | r1 r2 s M IH
                  | r1 r2 s M IH | r | r s1 s2 M1 IH1 M2 IH2];
    intros s3 k K; cbn [rmatch].
  - exact K.
  - cbn [append]. now rewrite P.
  - rewrite append_assoc. apply IH1. now apply IH2.
  - specialize (IH s3 k K). now destruct (rmatch r1 (s ++ s3) k).
  - specialize (IH s3 k K). now destruct (rmatch r1 (s ++ s3) k).
  - now apply star_loop_done.
  - destruct s1 as [|c s1]; [exact (IH2 s3 k K) |].
    rewrite append_assoc. cbn [append length star_loop].
    set (s := s1 ++ s2 ++ s3).
    set (k' := fun s' => if (length s' <? length (String c s))%nat
                         then star_loop (rmatch r) k (length s) s' else None).
    assert (G : rmatch r (String c s) k' <> None).
    { apply (IH1 (s2 ++ s3) k'). unfold k'.
      assert (L : length (s2 ++ s3) < length (String c s)).
      { unfold s. cbn [length]. rewrite !length_append. lia. }
      apply Nat.ltb_lt in L as ->.
      rewrite (star_loop_fuel r k (length s) (length (s2 ++ s3)));
        [exact (IH2 s3 k K) | | lia].
      unfold s. rewrite !length_append. lia. }
    unfold k' in G. cbn [length] in G.
    now destruct (rmatch r (String c s) _).
Qed.
End Completeness.

(** *** Matches of a pattern *)

Lemma consumed_append (g s : string) : consumed (g ++ s) s = g.
Proof.
  unfold consumed. rewrite length_append.
  replace (length g + length s - length s) with (length g) by lia.
  apply substring_append.
Qed.

Lemma matchHere_sound (p : pattern) (s g : string) :
  matchHere p s = Some g ->
  exists m rest, s = m ++ g ++ rest /\ matches (before p) m /\ matches (group p) g.
Proof.
  unfold matchHere. intros H.
  apply rmatch_sound in H. destruct H as (m & s1 & -> & M1 & H).
  apply rmatch_sound in H. destruct H as (g' & s2 & -> & M2 & H).
  rewrite consumed_append in H. injection H as <-.
  now exists m, s2.
Qed.

Lemma matchHere_complete (p : pattern) (m g rest : string) :
  matches (before p) m -> matches (group p) g ->
  matchHere p (m ++ g ++ rest) <> None.
Proof.
  intros M1 M2. unfold matchHere.
  apply rmatch_complete; [exact M1 |].
  apply rmatch_complete; [exact M2 | discriminate].
Qed.

(** [exec] finds a match exactly when the text has an occurrence. *)
Lemma exec_sound (p : pattern) (s g : string) :
  exec p s = Some g ->
  exists pre m rest,
    s = pre ++ m ++ g ++ rest /\ matches (before p) m /\ matches (group p) g.
Proof.
  induction s as [|c s IH]; cbn [exec]; intros H.
  - destruct (matchHere p "") as [g'|] eqn:E; [| discriminate].
    injection H as ->. apply matchHere_sound in E.
    destruct E as (m & rest & E & M1 & M2). now exists "", m, rest.
  - destruct (matchHere p (String c s)) as [g'|] eqn:E.
    + injection H as ->. apply matchHere_sound in E.
      destruct E as (m & rest & E & M1 & M2). now exists "", m, rest.
    + destruct (IH H) as (pre & m & rest & -> & M1 & M2).
      now exists (String c pre), m, rest.
Qed.

Lemma exec_complete (p : pattern) (pre m g rest : string) :
  matches (before p) m -> matches (group p) g ->
  exec p (pre ++ m ++ g ++ rest) <> None.
Proof.
  intros M1 M2. induction pre as [|c pre IH]; cbn [append].
  - pose proof (matchHere_complete p m g rest M1 M2) as H.
    destruct (m ++ g ++ rest); cbn [exec]; now destruct (matchHere p _).
  - cbn [exec]. now destruct (matchHere p _).
Qed.

Lemma occurs_split (p : pattern) (s : string) :
  occurs p s <->
  exists pre m g rest,
    s = pre ++ m ++ g ++ rest /\ matches (before p) m /\ matches (group p) g.
Proof.
  unfold occurs. split.
  - intros (pre & mid & rest & -> & M). inversion M; subst.
    exists pre, s1, s2, rest. now rewrite append_assoc.
  - intros (pre & m & g & rest & -> & M1 & M2).
    exists pre, (m ++ g), rest. rewrite append_assoc. split; [reflexivity |].
    now constructor.
Qed.

Theorem exec_none_iff (p : pattern) (s : string) :
  exec p s = None <-> ~ occurs p s.
Proof.
  rewrite occurs_split. split.
  - intros E (pre & m & g & rest & -> & M1 & M2).
    now apply (exec_complete p pre m g rest M1 M2).
  - intros N. destruct (exec p s) as [g|] eqn:E; [| reflexivity].
    elim N. apply exec_sound in E.
    destruct E as (pre & m & rest & E & M1 & M2). now exists pre, m, g, rest.
Qed.

End RegexFacts.

(** ** The parser and the process handlers *)

Module CodexFacts.
Import Text Regex Codex Runtime TextFacts RegexFacts.

Lemma scoreSection_absent (kw output : string) :
  ~ occurs (scorePattern kw) output -> scoreSection kw output = 70%N.
Proof.
  intros H. apply exec_none_iff in H. unfold scoreSection. now rewrite H.
Qed.

Lemma scoreSection_bounded (kw output : string) :
  (scoreSection kw output <= 100)%N.
Proof.
  unfold scoreSection, clampScore.
  destruct (exec (scorePattern kw) output); lia.
Qed.

(** C1, as the code has it.  A score whose section is absent or unparsable
    (the text has no occurrence of the header followed by separators and
    digits) keeps its initial value, which is 70; the empty text yields 70
    for both scores, complexity medium and every list empty. *)
Theorem C1_absent_score_defaults_to_70 (output : string) :
  (~ occurs (scorePattern "feasibility") output ->
   score (feasibility (parseCodexOutput output)) = 70%N)
  /\ (~ occurs (scorePattern "completeness") output ->
      completeness (implementationAnalysis (parseCodexOutput output)) = 70%N)
  /\ parseCodexOutput "" = initialResult.
Proof.
  repeat split.
  - intros H. now apply scoreSection_absent.
  - intros H. now apply scoreSection_absent.
Qed.

(** The parser on an analysis with every kind of section. *)
Example parse_analysis :
  let r := parseCodexOutput
             ("Feasibility: 85" ++ newline ++ "Blockers:" ++ newline
              ++ "- none" ++ newline ++ "RISKS: " ++ newline ++ newline
              ++ "1. first  " ++ newline ++ "* second" ++ newline
              ++ "Completeness: 190" ++ newline ++ "Complexity: LOW"
              ++ newline) in
  score (feasibility r) = 85%N
  /\ blockers (feasibility r) = ["none"]
  /\ risks (feasibility r) = ["first"; "second"]
  /\ completeness (implementationAnalysis r) = 100%N
  /\ estimated_complexity (implementationAnalysis r) = "low".
Proof. vm_compute. repeat split. Qed.

(** A text whose feasibility section carries a word instead of a number. *)
Lemma C1_absent_score_witness :
  score (feasibility (parseCodexOutput "Feasibility: high")) = 70%N
  /\ completeness
       (implementationAnalysis (parseCodexOutput "Feasibility: high")) = 70%N.
Proof.
  split.
  - apply (proj1 (C1_absent_score_defaults_to_70 "Feasibility: high")).
    apply exec_none_iff. vm_compute. reflexivity.
  - apply (proj1 (proj2 (C1_absent_score_defaults_to_70 "Feasibility: high"))).
    apply exec_none_iff. vm_compute. reflexivity.
Defined.

(** C1 as stated fails: on the empty text neither score is 50. *)
Lemma C1_empty_text_is_not_50 :
  ~ (score (feasibility (parseCodexOutput "")) = 50%N
     /\ completeness (implementationAnalysis (parseCodexOutput "")) = 50%N
     /\ estimated_complexity (implementationAnalysis (parseCodexOutput ""))
        = "medium").
Proof. vm_compute. intros (H & _). discriminate H. Qed.

(** *** The method, statement by statement *)

Lemma update_last (h : ParserRun.Heap) (r : ParsedResult)
      (f : ParsedResult -> ParsedResult) :
  ParserRun.update (List.length h) f (h ++ [r])%list = (h ++ [f r])%list.
Proof. induction h as [|x h IH]; cbn; [reflexivity | now rewrite IH]. Qed.

Lemma lookup_last (h : ParserRun.Heap) (r : ParsedResult) :
  ParserRun.lookup (List.length h) (h ++ [r])%list = Some r.
Proof.
  unfold ParserRun.lookup. rewrite nth_error_app2 by lia.
  now rewrite Nat.sub_diag.
Qed.

Lemma lookup_before (h : ParserRun.Heap) (r : ParsedResult)
      (a : ParserRun.Address) :
  a < List.length h ->
  ParserRun.lookup a (h ++ [r])%list = ParserRun.lookup a h.
Proof. intros L. unfold ParserRun.lookup. now rewrite nth_error_app1. Qed.

(** One conditional assignment changes the object of the call and nothing
    else. *)
Lemma onMatch_run (p : pattern) (output : string)
      (set : string -> ParsedResult -> ParsedResult)
      (env : Env) (h : ParserRun.Heap) (r : ParsedResult) (t : Trace) :
  ParserRun.onMatch p output (List.length h) set env (h ++ [r])%list t
  = (Returned tt,
     (h ++ [match exec p output with Some g => set g r | None => r end])%list,
     t).
Proof.
  unfold ParserRun.onMatch, ParserRun.assign.
  destruct (exec p output) as [g|]; [| reflexivity].
  cbv [bind get put]. now rewrite update_last.
Qed.

(** The assignments, one after the other, build the record of
    [Codex.parseCodexOutput]. *)
Lemma parse_run (output : string) (env : Env) (h : ParserRun.Heap)
      (t : Trace) :
  ParserRun.parseCodexOutput output env h t
  = (Returned (List.length h), (h ++ [parseCodexOutput output])%list, t).
Proof.
  unfold ParserRun.parseCodexOutput, ParserRun.allocate.
  cbv [bind get put ret]. cbv beta iota.
  repeat (rewrite onMatch_run; cbv beta iota).
  do 3 f_equal.
  unfold parseCodexOutput, scoreSection, listSection.
  repeat match goal with
         | |- context [exec ?p output] => destruct (exec p output)
         end; reflexivity.
Qed.

(** C5.  Extraction is a function of the text alone.  A call allocates a
    new object, assigns to it and to nothing else, and logs nothing; the
    object it returns holds the record that is computed from the text,
    whatever the world is and whatever objects exist already.  Hence two
    calls on one text return equal records, in any two worlds and also one
    after the other, where the second call returns another object and
    leaves the first as it was. *)
Theorem C5_extraction_is_pure
        (output : string) (env1 env2 : Env) (h1 h2 : ParserRun.Heap)
        (t1 t2 : Trace) :
  let call1 := ParserRun.parseCodexOutput output env1 h1 t1 in
  let call2 := ParserRun.parseCodexOutput output env2 h2 t2 in
  let again :=
    ParserRun.parseCodexOutput output env2 (snd (fst call1)) (snd call1) in
  ParserRun.returned call1 = Some (parseCodexOutput output)
  /\ ParserRun.returned call2 = ParserRun.returned call1
  /\ fst (fst call1) = Returned (List.length h1)
  /\ ParserRun.lookup (List.length h1) h1 = None
  /\ (forall a, a < List.length h1 ->
                ParserRun.lookup a (snd (fst call1)) = ParserRun.lookup a h1)
  /\ snd call1 = t1
  /\ ParserRun.returned again = ParserRun.returned call1
  /\ fst (fst again) = Returned (S (List.length h1))
  /\ ParserRun.lookup (List.length h1) (snd (fst again))
     = ParserRun.returned call1.
Proof.
  cbv zeta. rewrite !parse_run. cbn [fst snd]. rewrite ?parse_run.
  unfold ParserRun.returned. cbn [fst snd].
  rewrite !lookup_last.
  split; [reflexivity |]. split; [reflexivity |]. split; [reflexivity |].
  split; [apply nth_error_None; lia |].
  split; [intros a L; now apply lookup_before |].
  split; [reflexivity |]. split; [reflexivity |].
  split; [now rewrite length_app, Nat.add_1_r |].
  rewrite lookup_before by (rewrite length_app; cbn; lia).
  apply lookup_last.
Qed.

Lemma C5_extraction_is_pure_witness :
  ParserRun.lookup
    0 (snd (fst (ParserRun.parseCodexOutput
                   "Feasibility: 85" Scenario.world
                   [getDefaultParsedResult] [])))
  = Some getDefaultParsedResult.
Proof.
  destruct (C5_extraction_is_pure
              "Feasibility: 85" Scenario.world Scenario.world
              [getDefaultParsedResult] [] [] [])
    as (_ & _ & _ & _ & H & _).
  rewrite H; [reflexivity | cbn; lia].
Defined.

(** Two calls on one text, the caller having changed the first record in
    between: the second record is the one of the text all the same. *)
Example second_call_ignores_first :
  let call1 :=
    ParserRun.parseCodexOutput "Feasibility: 85" Scenario.world [] [] in
  let changed :=
    ParserRun.update 0 (ParserRun.setScore 1) (snd (fst call1)) in
  let call2 :=
    ParserRun.parseCodexOutput "Feasibility: 85" Scenario.world changed [] in
  ParserRun.lookup 0 (snd (fst call2))
  = Some (ParserRun.setScore 1 (parseCodexOutput "Feasibility: 85"))
  /\ ParserRun.returned call2 = Some (parseCodexOutput "Feasibility: 85").
Proof. vm_compute. split; reflexivity. Qed.

(** The canned record, field by field. *)
Lemma default_record :
  score (feasibility getDefaultParsedResult) = 50%N
  /\ completeness (implementationAnalysis getDefaultParsedResult) = 50%N
  /\ risks (feasibility getDefaultParsedResult) = ["Unable to complete analysis"]
  /\ gaps (implementationAnalysis getDefaultParsedResult) = ["Analysis incomplete"]
  /\ estimated_complexity (implementationAnalysis getDefaultParsedResult) = "medium"
  /\ blockers (feasibility getDefaultParsedResult) = []
  /\ dependencies_missing (feasibility getDefaultParsedResult) = []
  /\ suggestions (codeReview getDefaultParsedResult) = []
  /\ best_practice_violations (codeReview getDefaultParsedResult) = []
  /\ improvements (codeReview getDefaultParsedResult) = []
  /\ changesApplied getDefaultParsedResult = [].
Proof. repeat split. Qed.

(** C2, as the code has it.  A process that timed out, whose output has a
    quota phrase, or that could not be spawned resolves with
    [success = false] and the canned record, whatever the raw text is; the
    canned record has both scores 50, the one risk 'Unable to complete
    analysis', the one gap 'Analysis incomplete', complexity medium and
    every other list empty; a call of the API that throws returns the same
    record.  A process that closed otherwise resolves with
    the record extracted from its output, also when its exit code is not
    zero. *)
Theorem C2_degraded_record
        (m : Mode) (t : N) (stdout stderr message : string)
        (code : option N) (enoent : bool) :
  (success (closeResult m t true stdout stderr code) = false
   /\ parsed (closeResult m t true stdout stderr code) = getDefaultParsedResult)
  /\ (isQuotaError stderr || isQuotaError stdout = true ->
      success (closeResult m t false stdout stderr code) = false
      /\ parsed (closeResult m t false stdout stderr code)
         = getDefaultParsedResult)
  /\ (success (errorResult m enoent message) = false
      /\ parsed (errorResult m enoent message) = getDefaultParsedResult)
  /\ (success (ExecutionManager.apiResult m t (Rejected message)) = false
      /\ parsed (ExecutionManager.apiResult m t (Rejected message))
         = getDefaultParsedResult)
  /\ (isQuotaError stderr || isQuotaError stdout = false ->
      success (closeResult m t false stdout stderr code) = isZero code
      /\ parsed (closeResult m t false stdout stderr code)
         = parseCodexOutput (orElse stdout stderr))
  /\ (score (feasibility getDefaultParsedResult) = 50%N
      /\ completeness (implementationAnalysis getDefaultParsedResult) = 50%N
      /\ risks (feasibility getDefaultParsedResult)
         = ["Unable to complete analysis"]
      /\ gaps (implementationAnalysis getDefaultParsedResult)
         = ["Analysis incomplete"]
      /\ estimated_complexity (implementationAnalysis getDefaultParsedResult)
         = "medium"
      /\ blockers (feasibility getDefaultParsedResult) = []
      /\ dependencies_missing (feasibility getDefaultParsedResult) = []
      /\ suggestions (codeReview getDefaultParsedResult) = []
      /\ best_practice_violations (codeReview getDefaultParsedResult) = []
      /\ improvements (codeReview getDefaultParsedResult) = []
      /\ changesApplied getDefaultParsedResult = []).
Proof.
  split; [| split; [| split; [| split; [| split]]]].
  - split; reflexivity.
  - intros Q. unfold closeResult. rewrite Q. split; reflexivity.
  - unfold errorResult. destruct enoent; split; reflexivity.
  - cbn [ExecutionManager.apiResult].
    destruct (includes message "aborted" || includes message "timeout");
      split; reflexivity.
  - intros Q. unfold closeResult. rewrite Q. split; reflexivity.
  - exact default_record.
Qed.

(** A quota phrase next to a well-formed analysis, and a failed run whose
    output is an analysis. *)
Lemma C2_degraded_record_witness :
  (success (closeResult suggest 1000 false "Feasibility: 85" "rate limit" (Some 1%N))
   = false
   /\ parsed (closeResult suggest 1000 false "Feasibility: 85" "rate limit" (Some 1%N))
      = getDefaultParsedResult)
  /\ (success (closeResult suggest 1000 false "Feasibility: 85" "" (Some 1%N))
      = isZero (Some 1%N)
      /\ parsed (closeResult suggest 1000 false "Feasibility: 85" "" (Some 1%N))
         = parseCodexOutput (orElse "Feasibility: 85" "")).
Proof.
  split.
  - destruct (C2_degraded_record suggest 1000 "Feasibility: 85" "rate limit" ""
                                 (Some 1%N) false) as (_ & H & _).
    apply H. vm_compute. reflexivity.
  - destruct (C2_degraded_record suggest 1000 "Feasibility: 85" "" ""
                                 (Some 1%N) false) as (_ & _ & _ & _ & H & _).
    apply H. vm_compute. reflexivity.
Defined.

(** C2 as stated fails: a process that exits with code 1 and no quota
    phrase has [success = false], and its record is the one extracted from
    its output, not the canned one. *)
Lemma C2_failed_exit_is_parsed :
  let r := closeResult suggest 1000 false "Feasibility: 85" "" (Some 1%N) in
  success r = false
  /\ score (feasibility (parsed r)) = 85%N
  /\ risks (feasibility (parsed r)) = []
  /\ parsed r <> getDefaultParsedResult.
Proof.
  vm_compute. repeat split. discriminate.
Qed.

(** *** Quota phrases *)

Lemma toLowerCase_append (a b : string) :
  toLowerCase (a ++ b) = toLowerCase a ++ toLowerCase b.
Proof. induction a as [|x a IH]; simpl; [reflexivity | now rewrite IH]. Qed.

(** [isQuotaError] is containment of one of the phrases in the text put to
    lower case. *)
Lemma isQuotaError_spec (text : string) :
  isQuotaError text = true <->
  exists phrase a b,
    In phrase quotaPatterns /\ toLowerCase text = a ++ phrase ++ b.
Proof.
  unfold isQuotaError. rewrite existsb_exists. split.
  - intros (p & I & H). apply includes_split in H.
    destruct H as (a & b & H). now exists p, a, b.
  - intros (p & a & b & I & H). exists p. split; [exact I |].
    rewrite H. apply includes_append.
Qed.

Lemma isQuotaError_429 (a b : string) :
  isQuotaError (a ++ "429 Too Many Requests" ++ b) = true.
Proof.
  apply isQuotaError_spec.
  exists "429", (toLowerCase a), (" too many requests" ++ toLowerCase b).
  split; [simpl; tauto |].
  now rewrite !toLowerCase_append.
Qed.

Lemma code_bound (c : ascii) : (code c < 256)%N.
Proof. apply N_ascii_bounded. Qed.

(** [toLowerCase] sends exactly the two cases of a plain character to it. *)
Lemma lowerChar_inCase (c d : ascii) :
  QuotaRule.plain d = true ->
  (lowerChar c = d <-> QuotaRule.inCase c d = true).
Proof.
  pose proof (code_bound c) as Bc. pose proof (code_bound d) as Bd.
  unfold QuotaRule.plain, QuotaRule.inCase, lowerChar, between, isCode.
  unfold code in *.
  intros P. apply andb_prop in P as [P1 P2].
  apply N.ltb_lt in P1. apply negb_true_iff in P2.
  rewrite orb_true_iff, andb_true_iff, N.eqb_eq.
  split.
  - intros H.
    destruct ((65 <=? N_of_ascii c) && (N_of_ascii c <=? 90))%N eqn:U; cbn [orb] in H.
    + apply andb_prop in U as [U1 U2].
      apply N.leb_le in U1. apply N.leb_le in U2.
      assert (E : N_of_ascii d = (N_of_ascii c + 32)%N)
        by (rewrite <- H; apply N_ascii_embedding; lia).
      right. split; [| now rewrite E].
      apply andb_true_intro. split; apply N.leb_le; lia.
    + destruct ((192 <=? N_of_ascii c) && (N_of_ascii c <=? 222)
                  && negb (N_of_ascii c =? 215))%N
        eqn:V.
      * apply andb_prop in V as [V _]. apply andb_prop in V as [V1 V2].
        apply N.leb_le in V1. apply N.leb_le in V2.
        assert (E : N_of_ascii d = (N_of_ascii c + 32)%N)
          by (rewrite <- H; apply N_ascii_embedding; lia).
        lia.
      * left. subst d. apply Ascii.eqb_refl.
  - intros [H | [L E]].
    + apply Ascii.eqb_eq in H. subst d.
      rewrite P2. cbn [orb].
      replace ((192 <=? N_of_ascii c) && (N_of_ascii c <=? 222))%N with false;
        [reflexivity |].
      symmetry. apply andb_false_iff. left. apply N.leb_gt. lia.
    + apply andb_prop in L as [L1 L2].
      apply N.leb_le in L1. apply N.leb_le in L2.
      replace ((65 <=? N_of_ascii c) && (N_of_ascii c <=? 90))%N with true
        by (symmetry; apply andb_true_intro; split; apply N.leb_le; lia).
      cbn [orb]. rewrite E. apply ascii_N_embedding.
Qed.

Lemma toLowerCase_spells (s p : string) :
  TextMore.allChars QuotaRule.plain p = true ->
  (toLowerCase s = p <-> QuotaRule.spells s p = true).
Proof.
  revert p. induction s as [|c s IH]; intros [|d p] A;
    cbn [toLowerCase QuotaRule.spells]; try (split; [discriminate | discriminate]);
    [tauto |].
  cbn [TextMore.allChars] in A. apply andb_prop in A as [A1 A2].
  rewrite andb_true_iff, <- (lowerChar_inCase c d A1), <- (IH p A2).
  split; [intros H; now injection H | intros [-> ->]; reflexivity].
Qed.

Lemma toLowerCase_split (t x y : string) :
  toLowerCase t = x ++ y ->
  exists t1 t2, t = t1 ++ t2 /\ toLowerCase t1 = x /\ toLowerCase t2 = y.
Proof.
  revert t. induction x as [|c x IH]; intros t H.
  - exists "", t. now repeat split.
  - destruct t as [|d t]; [discriminate |].
    cbn [toLowerCase append] in H. injection H as H1 H2.
    destruct (IH t H2) as (t1 & t2 & -> & E1 & E2).
    exists (String d t1), t2. cbn [toLowerCase append].
    now rewrite H1, E1.
Qed.

Lemma quota_phrases_plain :
  Forall (fun p => TextMore.allChars QuotaRule.plain p = true) quotaPatterns.
Proof. repeat constructor. Qed.

(** The classifier finds exactly the texts that mention a quota phrase in
    some mix of upper and lower case. *)
Lemma isQuotaError_mentions (text : string) :
  isQuotaError text = true <-> QuotaRule.mentionsQuota text.
Proof.
  rewrite isQuotaError_spec. unfold QuotaRule.mentionsQuota, QuotaRule.mentions.
  pose proof quota_phrases_plain as P. rewrite Forall_forall in P.
  split.
  - intros (p & a & b & I & H).
    apply toLowerCase_split in H as (t1 & t2 & -> & E1 & H).
    apply toLowerCase_split in H as (s & t3 & -> & E2 & E3).
    exists p. split; [exact I |]. exists t1, s, t3. split; [reflexivity |].
    now apply toLowerCase_spells; [apply P |].
  - intros (p & I & a & s & b & -> & H).
    apply toLowerCase_spells in H; [| now apply P].
    exists p, (toLowerCase a), (toLowerCase b). split; [exact I |].
    now rewrite !toLowerCase_append, H.
Qed.

(** C6, as the code has it.  When the process closes, the result is a
    quota failure exactly when the process had not timed out and its
    stderr or its stdout, each on its own, mentions one of the fixed
    phrases in any mix of upper and lower case; the exit code plays no
    part, and a quota failure is never a success.  An output with '429 Too
    Many Requests' from a process that did not time out is a quota
    failure; an output that mentions no phrase, such as 'unknown flag',
    with an exit code other than 0, is a plain failure of the process. *)
Theorem C6_quota_classification
        (m : Mode) (t : N) (timedOut : bool) (stdout stderr : string)
        (code : option N) :
  let r := closeResult m t timedOut stdout stderr code in
  (quotaExhausted r = true <->
   timedOut = false
   /\ (QuotaRule.mentionsQuota stderr \/ QuotaRule.mentionsQuota stdout))
  /\ (quotaExhausted r = true ->
      success r = false /\ error r = Some "Codex CLI Pro quota exhausted")
  /\ (timedOut = false ->
      forall a b,
        stderr = a ++ "429 Too Many Requests" ++ b
        \/ stdout = a ++ "429 Too Many Requests" ++ b ->
        quotaExhausted r = true)
  /\ (timedOut = false ->
      ~ QuotaRule.mentionsQuota stderr -> ~ QuotaRule.mentionsQuota stdout ->
      code <> Some 0%N ->
      quotaExhausted r = false /\ success r = false
      /\ error r = Some ("Codex CLI exited with code " ++ showCode code)).
Proof.
  cbv zeta.
  pose proof (isQuotaError_mentions stderr) as E.
  pose proof (isQuotaError_mentions stdout) as O.
  unfold closeResult. destruct timedOut.
  - cbn [quotaExhausted success error].
    split; [split; [discriminate | intros (X & _); discriminate X] |].
    split; [discriminate |]. split; discriminate.
  - destruct (isQuotaError stderr) eqn:QE; cbn [orb].
    + assert (ME : QuotaRule.mentionsQuota stderr) by now apply E.
      cbn [quotaExhausted success error].
      split; [split; [intros _; split; [reflexivity | now left] | reflexivity] |].
      split; [now split |]. split; [reflexivity |].
      intros _ N. now elim N.
    + destruct (isQuotaError stdout) eqn:QO.
      * assert (MO : QuotaRule.mentionsQuota stdout) by now apply O.
        cbn [quotaExhausted success error].
        split; [split; [intros _; split; [reflexivity | now right] | reflexivity] |].
        split; [now split |]. split; [reflexivity |].
        intros _ _ N. now elim N.
      * cbn [quotaExhausted success error].
        assert (NE : ~ QuotaRule.mentionsQuota stderr)
          by (intros X; apply E in X; discriminate X).
        assert (NO : ~ QuotaRule.mentionsQuota stdout)
          by (intros X; apply O in X; discriminate X).
        split; [split; [discriminate | intros (_ & [X | X]); tauto] |].
        split; [discriminate |]. split.
        { intros _ a b [-> | ->];
            [rewrite isQuotaError_429 in QE | rewrite isQuotaError_429 in QO];
            discriminate. }
        intros _ _ _ C.
        assert (Z : isZero code = false).
        { unfold isZero. destruct code as [n|]; [| reflexivity].
          apply N.eqb_neq. intros ->. now elim C. }
        rewrite Z. now repeat split.
Qed.

(** A quota message in capitals on stdout of a process that exits with
    code 0, and an unknown flag. *)
Lemma C6_quota_classification_witness :
  quotaExhausted
    (closeResult suggest 300000 false "ERROR: Rate Limit Reached" ""
                 (Some 0%N)) = true
  /\ error (closeResult suggest 300000 false "" "unknown flag" (Some 2%N))
     = Some "Codex CLI exited with code 2".
Proof.
  split.
  - destruct (C6_quota_classification
                suggest 300000 false "ERROR: Rate Limit Reached" ""
                (Some 0%N)) as ((_ & H) & _).
    apply H. split; [reflexivity |]. right.
    exists "rate limit". split; [simpl; tauto |].
    exists "ERROR: ", "Rate Limit", " Reached". split; reflexivity.
  - destruct (C6_quota_classification
                suggest 300000 false "" "unknown flag" (Some 2%N))
      as (_ & _ & _ & H).
    assert (N1 : ~ QuotaRule.mentionsQuota "unknown flag")
      by (intros X; apply isQuotaError_mentions in X; discriminate X).
    assert (N2 : ~ QuotaRule.mentionsQuota "")
      by (intros X; apply isQuotaError_mentions in X; discriminate X).
    assert (N3 : Some 2%N <> Some 0%N) by discriminate.
    destruct (H eq_refl N1 N2 N3) as (_ & _ & G). exact G.
Defined.

(** C6 as stated fails: a process that timed out is reported as a timeout
    and not as a quota failure, also when its output has '429 Too Many
    Requests'. *)
Lemma C6_timeout_is_not_quota :
  let r := closeResult suggest 300000 true "" "429 Too Many Requests" None in
  isQuotaError "429 Too Many Requests" = true
  /\ quotaExhausted r = false
  /\ error r = Some "Codex CLI timed out after 300000ms".
Proof. vm_compute. repeat split. Qed.

(** The two streams are looked at one by one: a phrase that only their
    concatenation has is not found. *)
Example streams_are_not_joined :
  isQuotaError ("rate " ++ "limit") = true
  /\ quotaExhausted (closeResult suggest 300000 false "rate " "limit"
                                 (Some 1%N)) = false.
Proof. vm_compute. split; reflexivity. Qed.

End CodexFacts.

(** ** Proposed changes *)

Module ChangeApplierFacts.
Import Text ChangeApplier ImpactRule TextFacts.

Lemma endsWith_spec (s p : string) :
  endsWith s p = true <-> exists a, s = a ++ p.
Proof.
  split.
  - induction s as [|c s IH]; cbn [endsWith]; intros H.
    + destruct (eqb_spec "" p) as [E |]; [subst p; now exists "" | discriminate].
    + destruct (eqb_spec (String c s) p) as [E | _]; [subst p; now exists "" |].
      destruct (IH H) as [a ->]. now exists (String c a).
  - intros [a ->]. induction a as [|c a IH]; cbn [append].
    + destruct p; cbn [endsWith]; now rewrite eqb_refl.
    + cbn [endsWith]. rewrite IH. now destruct (String c (a ++ p) =? p)%string.
Qed.

Lemma last_char (a b : string) (x y : ascii) :
  a ++ String x "" = b ++ String y "" -> x = y.
Proof.
  revert b. induction a as [|c a IH]; intros [|d b] H; cbn [append] in H.
  - now injection H.
  - injection H as _ H. now destruct b.
  - injection H as _ H. now destruct a.
  - injection H as _ H. now apply (IH b).
Qed.

(** Two endings with different last characters exclude each other. *)
Lemma endings_differ (s p q : string) (x y : ascii) :
  x <> y ->
  endsWith s (p ++ String x "") = true ->
  endsWith s (q ++ String y "") = false.
Proof.
  intros N H. destruct (endsWith s (q ++ String y "")) eqn:E; [| reflexivity].
  apply endsWith_spec in H. apply endsWith_spec in E.
  destruct H as [a ->]. destruct E as [b E].
  rewrite <- !append_assoc in E. now apply last_char in E.
Qed.

Lemma sensitive_spec (path : string) :
  sensitive path = true <-> containsMarker path.
Proof.
  unfold sensitive, containsMarker. rewrite existsb_exists. split.
  - intros (m & I & H). apply includes_split in H.
    destruct H as (a & b & H). now exists m, a, b.
  - intros (m & a & b & I & H). exists m. split; [exact I |].
    rewrite H. apply includes_append.
Qed.

Lemma source_spec (path : string) :
  source path = true <-> hasSourceExtension path.
Proof.
  unfold source, hasSourceExtension, hasExtension. rewrite existsb_exists.
  split.
  - intros (e & I & H). apply endsWith_spec in H. now exists e.
  - intros (e & I & H). exists e. split; [exact I |]. now apply endsWith_spec.
Qed.

(** [assessImpact] as a decision list over the two tests. *)
Lemma assessImpact_rule (t : ChangeType) (path : string) :
  assessImpact t path =
  if sensitive path || isDelete t then high
  else if source path || isDependencyAdd t then medium
  else low.
Proof.
  unfold assessImpact, sensitive, source, sensitiveMarkers, sourceExtensions.
  cbn [existsb].
  repeat match goal with
         | |- context [includes ?a ?b] => destruct (includes a b)
         | |- context [endsWith ?a ?b] => destruct (endsWith a b)
         end; cbn; try reflexivity; now destruct t.
Qed.

Lemma markdown_is_not_source (path : string) :
  hasExtension ".md" path -> source path = false.
Proof.
  intros H. apply endsWith_spec in H.
  unfold source, sourceExtensions. cbn [existsb].
  rewrite (endings_differ _ ".m" ".t" "d" "s"), (endings_differ _ ".m" ".ts" "d" "x"),
    (endings_differ _ ".m" ".j" "d" "s"), (endings_differ _ ".m" ".js" "d" "x"),
    (endings_differ _ ".m" ".p" "d" "y"); (reflexivity || exact H || discriminate).
Qed.

Lemma not_true_false (b : bool) : b <> true -> b = false.
Proof. now destruct b. Qed.

(** C7, as the code has it.  The impact of a change is decided top-down:
    high when the path, whatever its case, contains a sensitive marker or
    the kind is delete; otherwise medium when the path ends with an
    extension of source code or the kind is dependency_add; otherwise low.
    A delete is high whatever its path; a path ending in [.md] is low when
    it contains no sensitive marker and the kind is neither delete nor
    dependency_add. *)
Theorem C7_impact_rule (t : ChangeType) (path : string) :
  (containsMarker path \/ t = file_delete -> assessImpact t path = high)
  /\ (~ containsMarker path -> t <> file_delete ->
      hasSourceExtension path \/ t = dependency_add ->
      assessImpact t path = medium)
  /\ (~ containsMarker path -> t <> file_delete ->
      ~ hasSourceExtension path -> t <> dependency_add ->
      assessImpact t path = low)
  /\ assessImpact file_delete path = high
  /\ (hasExtension ".md" path ->
      ~ containsMarker path -> t <> file_delete -> t <> dependency_add ->
      assessImpact t path = low).
Proof.
  rewrite !assessImpact_rule.
  assert (D : t <> file_delete -> isDelete t = false) by now destruct t.
  assert (A : t <> dependency_add -> isDependencyAdd t = false)
    by now destruct t.
  repeat split.
  - intros [H | ->]; [| now rewrite orb_true_r].
    apply sensitive_spec in H. now rewrite H.
  - intros NS ND H. rewrite <- sensitive_spec in NS.
    rewrite (not_true_false _ NS), (D ND). cbn [orb].
    destruct H as [H | ->]; [| now rewrite orb_true_r].
    apply source_spec in H. now rewrite H.
  - intros NS ND NE NA. rewrite <- sensitive_spec in NS.
    rewrite <- source_spec in NE.
    now rewrite (not_true_false _ NS), (D ND), (not_true_false _ NE), (A NA).
  - now rewrite orb_true_r.
  - intros MD NS ND NA. rewrite <- sensitive_spec in NS.
    now rewrite (not_true_false _ NS), (D ND), (markdown_is_not_source _ MD),
      (A NA).
Qed.

Lemma not_sensitive (path : string) :
  sensitive path = false -> ~ containsMarker path.
Proof. intros H C. apply sensitive_spec in C. congruence. Qed.

(** A manifest, a source file and a document. *)
Lemma C7_impact_rule_witness :
  assessImpact file_modify "Package.JSON" = high
  /\ assessImpact file_create "src/widget.ts" = medium
  /\ assessImpact file_modify "docs/README.md" = low.
Proof.
  split; [| split].
  - destruct (C7_impact_rule file_modify "Package.JSON") as (H & _).
    apply H. left. exists "package.json", "", "". split; [simpl; tauto |].
    vm_compute. reflexivity.
  - destruct (C7_impact_rule file_create "src/widget.ts") as (_ & H & _).
    apply H; [apply not_sensitive; vm_compute; reflexivity | discriminate |].
    left. exists ".ts". split; [simpl; tauto |]. exists "src/widget".
    vm_compute. reflexivity.
  - destruct (C7_impact_rule file_modify "docs/README.md") as (_ & _ & _ & _ & H).
    apply H; [| apply not_sensitive; vm_compute; reflexivity
              | discriminate | discriminate].
    exists "docs/readme". vm_compute. reflexivity.
Defined.

(** C7 as stated fails: a path ending in [.md], with a kind that is not
    delete, that is not low. *)
Lemma C7_markdown_index_is_high :
  hasExtension ".md" "docs/index.md"
  /\ file_modify <> file_delete
  /\ assessImpact file_modify "docs/index.md" <> low.
Proof.
  split; [| split].
  - exists "docs/index". vm_compute. reflexivity.
  - discriminate.
  - vm_compute. discriminate.
Qed.

(** *** The confirmation request *)

Lemma message_shape (changes : list ProposedChange) :
  message (createConfirmationRequest changes)
  = generateConfirmationSummary changes
    ++ confirmationBlock (highImpactCount (createConfirmationRequest changes)).
Proof. reflexivity. Qed.

Lemma block_warns_iff (n : nat) :
  includes (confirmationBlock n) warningMark = true <-> 0 < n.
Proof.
  unfold confirmationBlock. destruct n as [|n].
  - split; [vm_compute; discriminate | lia].
  - split; [lia | intros _]. cbn [Nat.ltb Nat.leb].
    unfold warningSentence, warningMark.
    rewrite append_assoc. apply includes_append.
Qed.

Lemma message_warns (changes : list ProposedChange) :
  let r := createConfirmationRequest changes in
  0 < highImpactCount r ->
  includes (message r) (warningSentence (highImpactCount r)) = true.
Proof.
  intros r H. subst r. rewrite message_shape. unfold confirmationBlock.
  apply Nat.ltb_lt in H. rewrite H.
  rewrite <- append_assoc. apply includes_append.
Qed.

(** A text that has no character [c] and starts inside [s] ends inside
    [s], when [c] comes right after [s]. *)
Lemma prefix_before (c : ascii) (mark s rest : string) :
  TextMore.allChars (fun x => negb (Ascii.eqb x c)) mark = true ->
  prefix mark (s ++ String c rest) = true ->
  prefix mark s = true.
Proof.
  revert s. induction mark as [|m mark IH]; intros s A H.
  - now destruct s.
  - cbn [TextMore.allChars] in A. apply andb_prop in A as [A1 A2].
    destruct s as [|x s]; cbn [append prefix] in H |- *.
    + destruct (ascii_dec m c) as [-> |]; [| discriminate H].
      rewrite Ascii.eqb_refl in A1. discriminate A1.
    + destruct (ascii_dec m x); [| discriminate H]. now apply IH.
Qed.

Lemma includes_before (c : ascii) (mark s rest : string) :
  TextMore.allChars (fun x => negb (Ascii.eqb x c)) mark = true ->
  includes (String c rest) mark = false ->
  includes (s ++ String c rest) mark = true ->
  includes s mark = true.
Proof.
  intros A N. induction s as [|x s IH]; intros H.
  - cbn [append] in H. congruence.
  - cbn [append] in H.
    change (includes (String x (s ++ String c rest)) mark)
      with (if prefix mark (String x (s ++ String c rest)) then true
            else includes (s ++ String c rest) mark) in H.
    change (includes (String x s) mark)
      with (if prefix mark (String x s) then true else includes s mark).
    destruct (prefix mark (String x (s ++ String c rest))) eqn:P.
    + now rewrite (prefix_before c mark (String x s) rest A P).
    + rewrite (IH H). now destruct (prefix mark (String x s)).
Qed.

(** Without a high-impact change, the words of the warning are in the
    message only where the summary has them. *)
Lemma warning_from_summary (changes : list ProposedChange) :
  let r := createConfirmationRequest changes in
  highImpactCount r = 0 ->
  includes (message r) warningMark = true ->
  includes (generateConfirmationSummary changes) warningMark = true.
Proof.
  intros r Z H. subst r. rewrite message_shape, Z in H.
  remember (confirmationBlock 0) as block eqn:B. vm_compute in B. subst block.
  revert H. apply includes_before; vm_compute; reflexivity.
Qed.

(** C8.  A request requires approval exactly when the list of changes is
    not empty, whatever the impacts are; for the empty list it does not,
    and its message opens with 'No changes detected.'.  The message is the
    summary followed by the confirmation block, and the block carries the
    warning about high-impact changes exactly when there is one: with a
    high-impact change the message contains the warning sentence with the
    count; without one the block has the sentence about safe changes, and
    the words of the warning are in the message only where the summary
    repeats them from the text of a proposal, so that a message whose
    summary does not have them has the warning exactly when there is a
    high-impact change. *)
Theorem C8_confirmation_gating (changes : list ProposedChange) :
  let r := createConfirmationRequest changes in
  (requiresApproval r = true <-> changes <> [])
  /\ (changes = [] ->
      requiresApproval r = false
      /\ highImpactCount r = 0
      /\ exists rest, message r = "No changes detected." ++ rest)
  /\ highImpactCount r = List.length (filter (hasImpact high) changes)
  /\ message r
     = generateConfirmationSummary changes
       ++ confirmationBlock (highImpactCount r)
  /\ (includes (confirmationBlock (highImpactCount r)) warningMark = true
      <-> 0 < highImpactCount r)
  /\ (0 < highImpactCount r ->
      includes (message r) (warningSentence (highImpactCount r)) = true)
  /\ (highImpactCount r = 0 ->
      confirmationBlock (highImpactCount r)
      = confirmationHeader ++ safeSentence ++ confirmationFooter)
  /\ (highImpactCount r = 0 ->
      includes (message r) warningMark = true ->
      includes (generateConfirmationSummary changes) warningMark = true)
  /\ (includes (generateConfirmationSummary changes) warningMark = false ->
      (includes (message r) warningMark = true <-> 0 < highImpactCount r)).
Proof.
  intros r.
  split; [split |].
  { destruct changes; [discriminate | intros _; discriminate]. }
  { destruct changes; [intros H; now elim H | reflexivity]. }
  split.
  { intros ->. repeat split. eexists. reflexivity. }
  split; [reflexivity |]. split; [reflexivity |].
  split; [apply block_warns_iff |].
  split; [apply message_warns |].
  split; [intros H; now rewrite H |].
  split; [apply warning_from_summary |].
  intros S. split.
  - intros H. destruct (highImpactCount r) as [|n] eqn:Z; [| lia].
    apply (warning_from_summary changes Z) in H. congruence.
  - intros P. pose proof (message_warns changes P) as W.
    apply includes_split in W as (a & b & W). fold r in W. rewrite W.
    unfold warningSentence, warningMark.
    rewrite !append_assoc. apply includes_append.
Qed.

(** One change of low impact requires approval and is not warned about; a
    deletion is warned about. *)
Lemma C8_confirmation_gating_witness :
  requiresApproval (createConfirmationRequest [Scenario.lowChange]) = true
  /\ includes (message (createConfirmationRequest [Scenario.lowChange; Scenario.highChange]))
              (warningSentence 1) = true
  /\ confirmationBlock (highImpactCount (createConfirmationRequest [Scenario.lowChange]))
     = confirmationHeader ++ safeSentence ++ confirmationFooter
  /\ includes (message (createConfirmationRequest [Scenario.lowChange]))
              warningMark = false.
Proof.
  split; [| split; [| split]].
  - destruct (C8_confirmation_gating [Scenario.lowChange]) as ((_ & H) & _).
    apply H. discriminate.
  - destruct (C8_confirmation_gating [Scenario.lowChange; Scenario.highChange])
      as (_ & _ & _ & _ & _ & H & _).
    apply H. vm_compute. lia.
  - destruct (C8_confirmation_gating [Scenario.lowChange])
      as (_ & _ & _ & _ & _ & _ & H & _).
    apply H. reflexivity.
  - destruct (C8_confirmation_gating [Scenario.lowChange])
      as (_ & _ & _ & _ & _ & _ & _ & _ & H).
    destruct (includes (message (createConfirmationRequest [Scenario.lowChange]))
                       warningMark) eqn:E; [| reflexivity].
    destruct H as [H _]; [vm_compute; reflexivity |].
    specialize (H eq_refl). vm_compute in H. lia.
Defined.

(** The summary repeats the descriptions of the changes as they are: a
    proposal whose description spells the warning brings its words into
    the summary, whatever the impacts are. *)
Example summary_repeats_descriptions :
  highImpactCount (createConfirmationRequest [Scenario.echoingChange]) = 0
  /\ includes (generateConfirmationSummary [Scenario.echoingChange])
              warningMark = true.
Proof. vm_compute. split; reflexivity. Qed.

End ChangeApplierFacts.

(** ** The execution manager *)

Module ExecutionManagerFacts.
Import Text Codex Runtime CodexService ExecutionManager TraceSpec FactorySpec.

Lemma count_app (f : Event -> bool) (t u : Trace) :
  count f (t ++ u)%list = count f t + count f u.
Proof. unfold count. now rewrite filter_app, length_app. Qed.

Lemma appended_refl (t : Trace) : appended t t 0 0 0.
Proof. exists []. now rewrite app_nil_r. Qed.

Lemma appended_counts (t t' : Trace) (a b c : nat) :
  appended t t' a b c ->
  count isProbe t' = count isProbe t + a
  /\ count isPrimary t' = count isPrimary t + b
  /\ count isSecondary t' = count isSecondary t + c.
Proof. intros (n & -> & <- & <- & <-). now rewrite !count_app. Qed.

(** Unfolding of the operations of a run. *)
Ltac run :=
  cbv [bind get put ret throw log emit modify when probe spawn chatCompletion];
  cbv beta iota.

(** Closing a goal [appended t (((t ++ [e1]) ++ ...) ++ [en]) a b c]. *)
Ltac appends :=
  repeat rewrite <- app_assoc; cbn [app];
  eexists; split; [reflexivity | now cbn].

(** One call of the Codex service: one process, whose end decides the
    result. *)
Lemma codex_execute_run {S} (options : CodexExecutionOptions)
      (env : Env) (s : S) (t : Trace) :
  exists t',
    CodexService.execute options env s t
    = (Returned (resolved (modeOf (applyChangesOf options)) (timeoutOf options)
                          (processEnd env (count isPrimary t))), s, t')
    /\ appended t t' 0 1 0.
Proof.
  unfold CodexService.execute, spawnCodex. run.
  rewrite !count_app. cbn [count filter isPrimary List.length].
  rewrite !Nat.add_0_r.
  destruct (processEnd env (count isPrimary t))
    as [timedOut stdout stderr code | enoent message]; cbn [resolved].
  - destruct (negb timedOut && (isQuotaError stderr || isQuotaError stdout));
      eexists; (split; [reflexivity | appends]).
  - destruct enoent; eexists; (split; [reflexivity | appends]).
Qed.

(** One call of the fallback path: one request when the client exists. *)
Lemma executeViaOpenAI_run (options : CodexExecutionOptions)
      (env : Env) (this : Manager) (t : Trace) :
  exists t',
    executeViaOpenAI options env this t
    = (Returned
         (if hasClient this
          then apiResult (modeOf (applyChangesOf options)) (apiTimeout options)
                         (apiOutcome env (count isSecondary t))
          else failed (modeOf (applyChangesOf options))
                      "OpenAI API not configured"
                      "OpenAI API not configured - set OPENAI_API_KEY environment variable"
                      false),
       this, t')
    /\ appended t t' 0 0 (if hasClient this then 1 else 0).
Proof.
  unfold executeViaOpenAI. run.
  destruct (hasClient this); cbn [negb].
  - destruct (answered (apiOutcome env (count isSecondary t)));
      eexists; (split; [reflexivity | appends]).
  - exists t. split; [reflexivity | apply appended_refl].
Qed.

Lemma count_log (f : Event -> bool) (t : Trace) (l : Level) (m : string) :
  f (Logged l m) = false -> count f (t ++ [Logged l m])%list = count f t.
Proof. intros H. rewrite count_app. unfold count. cbn. rewrite H. cbn. lia. Qed.

Lemma count_cons (f : Event -> bool) (e : Event) (t : Trace) :
  count f (e :: t) = (if f e then 1 else 0) + count f t.
Proof. unfold count. cbn. now destruct (f e). Qed.

(** Chaining the appended events of the steps of a run. *)
Ltac chain :=
  repeat match goal with
         | H : appended _ _ _ _ _ |- _ => destruct H as (? & -> & ? & ? & ?)
         end;
  eexists; split;
  [ repeat rewrite <- app_assoc; cbn [app]; reflexivity
  | repeat (rewrite ?count_cons, ?count_app); cbn; repeat split; lia ].

(** The three ways [execute] ends, with the state it leaves and the
    invocations it made. *)
Lemma execute_run (options : CodexExecutionOptions)
      (env : Env) (this : Manager) (t : Trace) :
  let mode := modeOf (applyChangesOf options) in
  let primary :=
    resolved mode (timeoutOf options) (processEnd env (count isPrimary t)) in
  let secondary :=
    apiResult mode (apiTimeout options) (apiOutcome env (count isSecondary t)) in
  exists t',
    ExecutionManager.execute options env this t
    = (if cliAvailable this then
         if quotaExhausted primary && hasClient this
         then (Returned secondary,
               setFallback true (Some "Codex CLI Pro quota exhausted") this, t')
         else (Returned primary, this, t')
       else if hasClient this
            then (Returned secondary,
                  if fallbackTriggered this then this
                  else setFallback true (Some "Codex CLI not installed") this,
                  t')
            else (Thrown "No execution path available", this, t'))
    /\ appended t t' 0
                (if cliAvailable this then 1 else 0)
                (if cliAvailable this
                 then if quotaExhausted primary && hasClient this
                      then 1 else 0
                 else if hasClient this then 1 else 0).
Proof.
  intros mode primary secondary. subst mode primary secondary.
  unfold ExecutionManager.execute. run.
  destruct (cliAvailable this).
  - destruct (codex_execute_run
                options env this
                (t ++ [Logged Info "Attempting execution via Codex CLI"])%list)
      as (t1 & -> & A1).
    rewrite count_log by reflexivity.
    destruct (quotaExhausted _ && hasClient this) eqn:Q.
    + apply andb_prop in Q as [_ HC].
      match goal with
      | |- context [executeViaOpenAI options env ?m ?u] =>
          destruct (executeViaOpenAI_run options env m u) as (t2 & -> & A2)
      end.
      change (hasClient (setFallback true (Some "Codex CLI Pro quota exhausted") this))
        with (hasClient this) in *.
      rewrite HC in *.
      apply appended_counts in A1 as C1.
      rewrite !count_log in * by reflexivity.
      destruct C1 as (_ & _ & ->).
      rewrite Nat.add_0_r.
      exists t2. split; [reflexivity | chain].
    + exists t1. split; [reflexivity | chain].
  - destruct (hasClient this) eqn:HC.
    + destruct (fallbackTriggered this) eqn:F; cbn [negb];
        match goal with
        | |- context [executeViaOpenAI options env ?m ?u] =>
            destruct (executeViaOpenAI_run options env m u) as (t2 & -> & A2)
        end;
        change (hasClient (setFallback true (Some "Codex CLI not installed") this))
          with (hasClient this) in *;
        rewrite HC in *; rewrite count_log by reflexivity;
        (exists t2; split; [reflexivity | chain]).
    + exists t. split; [reflexivity | apply appended_refl].
Qed.

(** C3.  One call of [execute] makes at most one hop.  With the CLI
    available the CLI is invoked once; when its result reports exhausted
    quota and the API client exists, the API is invoked once and its outcome
    is returned; otherwise the result of the CLI is returned as it is and
    the API is not invoked.  Whatever the API returns ends the call: the
    CLI is never invoked a second time. *)
Theorem C3_single_hop
        (env : Env) (options : CodexExecutionOptions) (this : Manager)
        (t : Trace) :
  let mode := modeOf (applyChangesOf options) in
  let primary :=
    resolved mode (timeoutOf options) (processEnd env (count isPrimary t)) in
  let secondary :=
    apiResult mode (apiTimeout options) (apiOutcome env (count isSecondary t)) in
  let outcome := fst (fst (ExecutionManager.execute options env this t)) in
  let t' := snd (ExecutionManager.execute options env this t) in
  (if cliAvailable this then
     if quotaExhausted primary && hasClient this
     then outcome = Returned secondary /\ appended t t' 0 1 1
     else outcome = Returned primary /\ appended t t' 0 1 0
   else
     if hasClient this
     then outcome = Returned secondary /\ appended t t' 0 0 1
     else outcome = Thrown "No execution path available"
          /\ appended t t' 0 0 0)
  /\ exists primaries secondaries,
      appended t t' 0 primaries secondaries
      /\ primaries <= 1 /\ secondaries <= 1.
Proof.
  intros mode primary secondary outcome t'.
  destruct (execute_run options env this t) as (u & E & A).
  fold mode primary secondary in E, A.
  assert (T : t' = u).
  { unfold t'. rewrite E.
    now destruct (cliAvailable this), (quotaExhausted primary && hasClient this),
      (hasClient this). }
  rewrite T. split.
  - unfold outcome. rewrite E.
    destruct (cliAvailable this).
    + now destruct (quotaExhausted primary && hasClient this).
    + now destruct (hasClient this).
  - do 2 eexists. split; [exact A |].
    destruct (cliAvailable this), (quotaExhausted primary && hasClient this),
      (hasClient this); lia.
Qed.

(** The invocations of the failover of the scenario, in order. *)
Example failover_invocations :
  filter (fun e => isPrimary e || isSecondary e)
         (snd (ExecutionManager.execute Scenario.request Scenario.world
                                        Scenario.ready []))
  = [SpawnedCodex Scenario.request; CalledOpenAI "gpt-4o" Scenario.request].
Proof. vm_compute. reflexivity. Qed.

(** *** The fallback flag *)

Lemma execute_keeps_flag (options : CodexExecutionOptions)
      (env : Env) (this : Manager) (t : Trace) :
  fallbackTriggered this = true ->
  fallbackTriggered (fst (after (ExecutionManager.execute options env this t)))
  = true.
Proof.
  intros F. destruct (execute_run options env this t) as (u & E & _).
  cbv zeta in E. rewrite E, F.
  destruct (cliAvailable this);
    [destruct (quotaExhausted _ && hasClient this)
    | destruct (hasClient this)]; first [exact F | reflexivity].
Qed.

Lemma initialize_run (env : Env) (this : Manager) (t : Trace) :
  exists o t',
    initialize env this t
    = (o, setAvailable (probeAnswer env (count isProbe t)) this, t')
    /\ appended t t' 1 0 0.
Proof.
  unfold initialize, isInstalled. run.
  destruct (probeAnswer env (count isProbe t));
    cbn [cliAvailable setAvailable codexCliAvailable negb andb].
  - do 2 eexists. split; [reflexivity | appends].
  - change (hasClient (setAvailable false this)) with (hasClient this).
    destruct (hasClient this); cbn [negb];
      do 2 eexists; (split; [reflexivity | appends]).
Qed.

Lemma runCall_keeps_flag (env : Env) (c : Call) (st : Manager * Trace) :
  isReset c = false ->
  fallbackTriggered (fst st) = true ->
  fallbackTriggered (fst (runCall env c st)) = true.
Proof.
  intros R F. destruct c; cbn [runCall]; try exact F; [| | discriminate].
  - destruct (initialize_run env (fst st) (snd st)) as (o & t' & -> & _).
    exact F.
  - now apply execute_keeps_flag.
Qed.

Lemma runCalls_keeps_flag (env : Env) (cs : list Call) :
  forall st,
    existsb isReset cs = false ->
    fallbackTriggered (fst st) = true ->
    fallbackTriggered (fst (runCalls env cs st)) = true.
Proof.
  induction cs as [|c cs IH]; intros st R F; [exact F |].
  cbn [existsb] in R. apply orb_false_elim in R as [Rc Rcs].
  cbn [runCalls fold_left]. apply IH; [exact Rcs |].
  now apply runCall_keeps_flag.
Qed.

(** C4.  A failover caused by exhausted quota sets [fallbackTriggered], and
    the flag stays set through every later call on the manager, a fully
    successful call of the CLI included, until [resetFallbackState] clears
    it. *)
Theorem C4_sticky_fallback
        (env : Env) (options : CodexExecutionOptions) (this : Manager)
        (t : Trace) (cs : list Call) :
  cliAvailable this = true ->
  hasClient this = true ->
  quotaExhausted
    (resolved (modeOf (applyChangesOf options)) (timeoutOf options)
              (processEnd env (count isPrimary t))) = true ->
  existsb isReset cs = false ->
  let st := after (ExecutionManager.execute options env this t) in
  fallbackTriggered (fst st) = true
  /\ fallbackTriggered (fst (runCalls env cs st)) = true
  /\ fallbackTriggered
       (fst (runCall env CallResetFallbackState (runCalls env cs st))) = false.
Proof.
  intros CLI HC Q R st.
  assert (F : fallbackTriggered (fst st) = true).
  { unfold st. destruct (execute_run options env this t) as (u & E & _).
    cbv zeta in E. now rewrite E, CLI, Q, HC. }
  split; [exact F | split; [now apply runCalls_keeps_flag | reflexivity]].
Qed.

(** A failover, then a call that the CLI completes successfully: the flag
    is still set; a reset clears it. *)
Lemma C4_sticky_fallback_witness :
  let first := ExecutionManager.execute Scenario.request Scenario.world
                                        Scenario.ready [] in
  let st := after first in
  let second := ExecutionManager.execute Scenario.request Scenario.world
                                         (fst st) (snd st) in
  (fallbackTriggered (fst st) = true
   /\ fallbackTriggered
        (fst (runCalls Scenario.world [CallExecute Scenario.request] st)) = true
   /\ fallbackTriggered
        (fst (runCall Scenario.world CallResetFallbackState
                      (runCalls Scenario.world [CallExecute Scenario.request] st)))
      = false)
  /\ (exists r, fst (fst second) = Returned r
                /\ success r = true /\ executionPath r = codex_cli).
Proof.
  split.
  - apply (C4_sticky_fallback Scenario.world Scenario.request Scenario.ready []
                              [CallExecute Scenario.request]);
      vm_compute; reflexivity.
  - vm_compute. eexists. repeat split.
Defined.

(** *** The probe *)

Lemma factory_cached (env : Env) (calls : list ExecutionManagerOptions)
      (this : Manager) (t : Trace) :
  getMany env calls (Some this, t) = (Some this, t).
Proof. induction calls as [|o calls IH]; [reflexivity | exact IH]. Qed.

Lemma factory_first (env : Env) (options : ExecutionManagerOptions)
      (t : Trace) :
  exists this,
    afterFactory (getExecutionManager options env None t)
    = (Some this, snd (getExecutionManager options env None t))
    /\ cliAvailable this = probeAnswer env (count isProbe t)
    /\ appended t (snd (getExecutionManager options env None t)) 1 0 0.
Proof.
  unfold getExecutionManager, new. run.
  destruct (keySet (coalesce (opt_openaiApiKey options) (OPENAI_API_KEY env)));
    match goal with
    | |- context [initialize env ?m ?u] =>
        destruct (initialize_run env m u) as (o & t' & -> & A)
    end;
    rewrite ?count_log by reflexivity;
    destruct o; (eexists; split; [reflexivity |]; split; [reflexivity | chain]).
Qed.

(** C9, as the code has it.  The factory [getExecutionManager] is what
    probes once: the call that finds no instance builds the manager and
    runs [initialize], which probes once; every call that finds an instance
    returns it and does nothing else, so any sequence of calls that starts
    without an instance makes one probe.  [initialize] itself probes at
    every call and overwrites the stored availability with the answer. *)
Theorem C9_factory_probes_once
        (env : Env) (options : ExecutionManagerOptions)
        (calls : list ExecutionManagerOptions) (this : Manager) (t : Trace) :
  getExecutionManager options env (Some this) t = (Returned this, Some this, t)
  /\ (exists made t',
         afterFactory (getExecutionManager options env None t) = (Some made, t')
         /\ cliAvailable made = probeAnswer env (count isProbe t)
         /\ appended t t' 1 0 0
         /\ getMany env (options :: calls) (None, t) = (Some made, t'))
  /\ (exists o t',
         initialize env this t
         = (o, setAvailable (probeAnswer env (count isProbe t)) this, t')
         /\ appended t t' 1 0 0).
Proof.
  split; [reflexivity | split; [| apply initialize_run]].
  destruct (factory_first env options t) as (made & E & C & A).
  exists made, (snd (getExecutionManager options env None t)).
  repeat split; try assumption.
  cbn [getMany fold_left fst snd]. fold (getMany env calls).
  rewrite E. apply factory_cached.
Qed.

(** C9 as stated fails: a second call of [initialize] probes again, and
    here it finds the CLI gone and overwrites the availability. *)
Lemma C9_initialize_probes_again :
  let st1 := after (initialize Scenario.world Scenario.fresh []) in
  let st2 := after (initialize Scenario.world (fst st1) (snd st1)) in
  count isProbe (snd st1) = 1
  /\ count isProbe (snd st2) = 2
  /\ codexCliAvailable (fst st1) = Some true
  /\ codexCliAvailable (fst st2) = Some false
  /\ st2 <> st1.
Proof. vm_compute. repeat split. discriminate. Qed.

(** *** The fallback path applies no change *)

Lemma primary_path (m : Mode) (t : N) (e : ProcessEnd) :
  executionPath (resolved m t e) = codex_cli.
Proof.
  destruct e as [timedOut stdout stderr code | enoent message]; cbn [resolved].
  - unfold closeResult. destruct timedOut; [reflexivity |].
    now destruct (isQuotaError stderr || isQuotaError stdout).
  - unfold errorResult. now destruct enoent.
Qed.

Lemma secondary_changes (m : Mode) (t : N) (o : ApiOutcome) :
  changesApplied (parsed (apiResult m t o)) = [].
Proof.
  destruct o as [answer | message]; cbn [apiResult]; [reflexivity |].
  now destruct (includes message "aborted" || includes message "timeout").
Qed.

(** C10.  A result that [execute] returns from the OpenAI API path lists no
    applied change, whatever the request and the answer are: with
    [applyChanges = true], and with an answer that reports applied
    changes, [changesApplied] is empty. *)
Theorem C10_fallback_applies_nothing
        (env : Env) (options : CodexExecutionOptions) (this : Manager)
        (t : Trace) (r : CodexResult) :
  fst (fst (ExecutionManager.execute options env this t)) = Returned r ->
  executionPath r = openai_api ->
  changesApplied (parsed r) = [].
Proof.
  destruct (execute_run options env this t) as (u & E & _).
  cbv zeta in E. rewrite E. clear E. intros R P.
  destruct (cliAvailable this).
  - destruct (quotaExhausted _ && hasClient this);
      cbn [fst] in R; injection R as <-.
    + apply secondary_changes.
    + rewrite primary_path in P. discriminate.
  - destruct (hasClient this); cbn [fst] in R; [| discriminate].
    injection R as <-. apply secondary_changes.
Qed.

(** The failover of the scenario: the request asks to apply changes, the
    answer lists a change, the result succeeds and lists none. *)
Lemma C10_fallback_applies_nothing_witness :
  exists r,
    fst (fst (ExecutionManager.execute Scenario.request Scenario.world
                                       Scenario.ready [])) = Returned r
    /\ success r = true
    /\ mode r = apply
    /\ changesApplied (Codex.parseCodexOutput (rawOutput r)) = ["src/widget.ts"]
    /\ changesApplied (parsed r) = [].
Proof.
  eexists. split; [vm_compute; reflexivity |].
  split; [reflexivity |]. split; [reflexivity |].
  split; [vm_compute; reflexivity |].
  apply (C10_fallback_applies_nothing Scenario.world Scenario.request
                                      Scenario.ready []);
    vm_compute; reflexivity.
Defined.

End ExecutionManagerFacts.

(* ================================================================== *)
(** * More properties *)
(* ================================================================== *)

(** ** Texts *)

Module MoreTextFacts.
Import Text TextMore TextFacts.

Lemma allChars_append (p : ascii -> bool) (a b : string) :
  allChars p (a ++ b) = allChars p a && allChars p b.
Proof.
  induction a as [|c a IH]; cbn [append allChars]; [reflexivity |].
  now rewrite IH, andb_assoc.
Qed.

Lemma allChars_weaken (p q : ascii -> bool) (s : string) :
  (forall c, p c = true -> q c = true) ->
  allChars p s = true -> allChars q s = true.
Proof.
  intros W. induction s as [|c s IH]; cbn [allChars]; [reflexivity |].
  intros H. apply andb_prop in H as [H1 H2]. now rewrite (W c H1), IH.
Qed.

(** *** [trim] *)

Lemma trimStart_suffix (s : string) : exists a, s = a ++ trimStart s.
Proof.
  induction s as [|c s [a IH]]; cbn [trimStart]; [now exists "" |].
  destruct (isSpace c); [| now exists ""].
  exists (String c a). cbn [append]. now rewrite <- IH.
Qed.

Lemma trimEnd_prefix (s : string) : exists b, s = trimEnd s ++ b.
Proof.
  induction s as [|c s [b IH]]; cbn [trimEnd]; [now exists "" |].
  destruct (trimEnd s) as [|d t] eqn:E.
  - destruct (isSpace c); [now exists (String c s) |].
    exists s. reflexivity.
  - exists b. cbn [append] in IH |- *. now f_equal.
Qed.

Lemma allChars_trimStart (p : ascii -> bool) (s : string) :
  allChars p s = true -> allChars p (trimStart s) = true.
Proof.
  destruct (trimStart_suffix s) as [a E]. rewrite E at 1.
  rewrite allChars_append. intros H. now apply andb_prop in H.
Qed.

Lemma allChars_trimEnd (p : ascii -> bool) (s : string) :
  allChars p s = true -> allChars p (trimEnd s) = true.
Proof.
  destruct (trimEnd_prefix s) as [b E]. rewrite E at 1.
  rewrite allChars_append. intros H. now apply andb_prop in H.
Qed.

Lemma allChars_trim (p : ascii -> bool) (s : string) :
  allChars p s = true -> allChars p (trim s) = true.
Proof. intros H. now apply allChars_trimEnd, allChars_trimStart. Qed.

Lemma trimStart_clean (s : string) : stopsAt isSpace (trimStart s) = true.
Proof.
  induction s as [|c s IH]; cbn [trimStart]; [reflexivity |].
  destruct (isSpace c) eqn:E; [exact IH |]. cbn. now rewrite E.
Qed.

Lemma trimStart_fixed (s : string) :
  stopsAt isSpace s = true -> trimStart s = s.
Proof.
  destruct s as [|c s]; cbn; [reflexivity |].
  now destruct (isSpace c).
Qed.

Lemma trimEnd_clean (s : string) :
  stopsAt isSpace s = true -> stopsAt isSpace (trimEnd s) = true.
Proof.
  destruct s as [|c s]; cbn [trimEnd]; [reflexivity |].
  cbn [stopsAt]. intros H. apply negb_true_iff in H.
  destruct (trimEnd s); rewrite ?H; cbn [stopsAt]; now rewrite H.
Qed.

Lemma trimEnd_idem (s : string) : trimEnd (trimEnd s) = trimEnd s.
Proof.
  induction s as [|c s IH]; cbn [trimEnd]; [reflexivity |].
  destruct (trimEnd s) as [|d t] eqn:E.
  - destruct (isSpace c) eqn:P; cbn [trimEnd]; [reflexivity | now rewrite P].
  - cbn [trimEnd]. cbn [trimEnd] in IH. rewrite IH. reflexivity.
Qed.

(** Trimming twice is trimming once. *)
Lemma trim_idem (s : string) : trim (trim s) = trim s.
Proof.
  unfold trim.
  rewrite (trimStart_fixed (trimEnd (trimStart s))).
  - apply trimEnd_idem.
  - apply trimEnd_clean, trimStart_clean.
Qed.

Lemma trim_length (s : string) : length (trim s) <= length s.
Proof.
  unfold trim.
  destruct (trimStart_suffix s) as [a E].
  destruct (trimEnd_prefix (trimStart s)) as [b F].
  rewrite E at 2. rewrite F at 2. rewrite !length_append. lia.
Qed.

(** *** Lines *)

Lemma splitOn_lines (s : string) : splitOn isNewline s = splitLines s.
Proof.
  induction s as [|c s IH]; cbn [splitOn splitLines]; [reflexivity |].
  now rewrite IH.
Qed.

Lemma splitOn_clean (sep : ascii -> bool) (s : string) :
  Forall (fun l => allChars (fun c => negb (sep c)) l = true) (splitOn sep s).
Proof.
  induction s as [|c s IH]; cbn [splitOn].
  - now repeat constructor.
  - destruct (sep c) eqn:E; [now constructor |].
    destruct (splitOn sep s) as [|l ls]; [repeat constructor; cbn; now rewrite E |].
    inversion IH as [|? ? H1 H2]; subst.
    constructor; [cbn; now rewrite E, H1 | exact H2].
Qed.

Lemma splitOn_nonempty (sep : ascii -> bool) (s : string) :
  splitOn sep s <> [].
Proof.
  destruct s as [|c s]; cbn [splitOn]; [discriminate |].
  destruct (sep c); [discriminate |]. now destruct (splitOn sep s).
Qed.

(** *** Case *)

Lemma lowerChar_idem (c : ascii) : lowerChar (lowerChar c) = lowerChar c.
Proof.
  destruct c as [[] [] [] [] [] [] [] []]; vm_compute; reflexivity.
Qed.

Lemma toLowerCase_idem (s : string) :
  toLowerCase (toLowerCase s) = toLowerCase s.
Proof.
  induction s as [|c s IH]; cbn [toLowerCase]; [reflexivity |].
  now rewrite lowerChar_idem, IH.
Qed.

Lemma toLowerCase_app (a b : string) :
  toLowerCase (a ++ b) = toLowerCase a ++ toLowerCase b.
Proof. induction a as [|x a IH]; simpl; [reflexivity | now rewrite IH]. Qed.

(** A character whose lower case is an ASCII letter folds to it. *)
Lemma lower_letter_folds (c : ascii) :
  between 97 122 (lowerChar c) = true -> foldAscii c = lowerChar c.
Proof.
  destruct c as [[] [] [] [] [] [] [] []]; vm_compute;
    first [reflexivity | discriminate].
Qed.

Lemma fold_letter_lowers (c : ascii) :
  between 97 122 (foldAscii c) = true -> lowerChar c = foldAscii c.
Proof.
  destruct c as [[] [] [] [] [] [] [] []]; vm_compute;
    first [reflexivity | discriminate].
Qed.

(** *** Decimal numbers *)

Lemma parseDigits_uint (d e : Decimal.uint) :
  parseDigits (DecimalPos.Unsigned.of_lu e) (NilEmpty.string_of_uint d)
  = DecimalPos.Unsigned.of_lu (Decimal.revapp d e).
Proof.
  revert e.
  induction d; intros e;
    cbn [NilEmpty.string_of_uint parseDigits Decimal.revapp];
    [reflexivity | rewrite <- IHd; f_equal;
                   cbn [DecimalPos.Unsigned.of_lu]; vm_compute (code _); lia ..].
Qed.

Lemma digits_uint (d : Decimal.uint) :
  allChars isDigit (NilEmpty.string_of_uint d) = true.
Proof. induction d; cbn; [reflexivity | exact IHd ..]. Qed.

Lemma showN_string (n : N) :
  showN n = NilEmpty.string_of_uint (N.to_uint n) /\ showN n <> "".
Proof.
  unfold showN, NilZero.string_of_uint.
  destruct n as [|p]; [split; [reflexivity | discriminate] |].
  cbn [N.to_uint].
  pose proof (DecimalPos.Unsigned.to_uint_nonnil p) as NN.
  destruct (Pos.to_uint p); [now elim NN | split; [reflexivity | discriminate] ..].
Qed.

(** A number printed in decimal is read back by [parseInt]. *)
Lemma parseInt_showN (n : N) : parseInt (showN n) = n.
Proof.
  destruct (showN_string n) as [-> _]. unfold parseInt.
  change 0%N with (DecimalPos.Unsigned.of_lu Decimal.Nil).
  rewrite parseDigits_uint.
  change (Decimal.revapp (N.to_uint n) Decimal.Nil)
    with (Decimal.rev (N.to_uint n)).
  rewrite <- DecimalPos.Unsigned.of_uint_alt.
  apply DecimalN.Unsigned.of_to.
Qed.

Lemma showN_digits (n : N) : allChars isDigit (showN n) = true.
Proof. destruct (showN_string n) as [-> _]. apply digits_uint. Qed.

End MoreTextFacts.

(** ** Patterns *)

Module MoreRegexFacts.
Import Text Regex TextMore RegexMore TextFacts RegexFacts MoreTextFacts.

(** *** Runs of a character class *)

Lemma matches_star_cls (p : ascii -> bool) (r : regex) (g : string) :
  matches r g -> r = Star (Cls p) -> allChars p g = true.
Proof.
  induction 1 as [| q c P | | | | r' | r' s1 s2 M1 _ M2 IH2];
    intros E; try discriminate; [reflexivity |].
  injection E as ->. rewrite allChars_append, (IH2 eq_refl), andb_true_r.
  inversion M1 as [| q c P | | | | |]; subst. cbn. now rewrite P.
Qed.

Lemma matches_plus_cls (p : ascii -> bool) (g : string) :
  matches (Plus (Cls p)) g -> g <> "" /\ allChars p g = true.
Proof.
  unfold Plus. intros M. inversion M as [| | r1 r2 s1 s2 M1 M2 | | | |]; subst.
  inversion M1 as [| q c P | | | | |]; subst. split; [discriminate |].
  cbn. now rewrite P, (matches_star_cls p _ _ M2 eq_refl).
Qed.

(** A greedy star over a class takes the whole run in front of a text
    that does not go on with the class, when the continuation accepts
    there. *)
Lemma star_cls_greedy {A : Type} (p : ascii -> bool) (run rest : string)
      (k : string -> option A) (x : A) :
  allChars p run = true -> stopsAt p rest = true -> k rest = Some x ->
  rmatch (Star (Cls p)) (run ++ rest) k = Some x.
Proof.
  intros R S K. induction run as [|c run IH]; cbn [append].
  - cbn [rmatch]. destruct rest as [|d rest]; cbn [length star_loop]; [exact K |].
    cbn [rmatch]. cbn [stopsAt] in S. apply negb_true_iff in S. now rewrite S.
  - cbn [allChars] in R. apply andb_prop in R as [Pc R].
    cbn [rmatch length star_loop]. rewrite Pc.
    cbn [length]. rewrite (proj2 (Nat.ltb_lt _ _) (Nat.lt_succ_diag_r _)).
    specialize (IH R). cbn [rmatch] in IH. now rewrite IH.
Qed.

Lemma plus_cls_greedy {A : Type} (p : ascii -> bool) (run rest : string)
      (k : string -> option A) (x : A) :
  run <> "" -> allChars p run = true -> stopsAt p rest = true ->
  k rest = Some x ->
  rmatch (Plus (Cls p)) (run ++ rest) k = Some x.
Proof.
  intros N R S K. destruct run as [|c run]; [now elim N |].
  cbn [allChars] in R. apply andb_prop in R as [Pc R].
  unfold Plus. cbn [append]. cbn [rmatch]. rewrite Pc.
  pose proof (star_cls_greedy p run rest k x R S K) as G.
  cbn [rmatch] in G. exact G.
Qed.

(** *** Literals under the [i] flag *)

Lemma lower_folds_to_itself (c : ascii) :
  isLower c = true -> foldAscii c = c.
Proof.
  destruct c as [[] [] [] [] [] [] [] []]; vm_compute;
    first [reflexivity | discriminate].
Qed.

(** A match of a word of lower-case letters is the word in some case. *)
Lemma matches_lit_lower (w s : string) :
  allChars isLower w = true -> matches (lit w) s -> toLowerCase s = w.
Proof.
  revert s. induction w as [|c w IH]; intros s L M; cbn [lit] in M.
  - now inversion M.
  - cbn [allChars] in L. apply andb_prop in L as [Lc L].
    inversion M as [| | r1 r2 s1 s2 M1 M2 | | | |]; subst.
    unfold chr in M1. inversion M1 as [| q x P | | | | |]; subst.
    cbn [append toLowerCase]. rewrite (IH _ L M2). f_equal.
    apply Ascii.eqb_eq in P. rewrite (lower_folds_to_itself c Lc) in P.
    rewrite fold_letter_lowers; [exact P |]. now rewrite P.
Qed.

(** Conversely the matcher accepts the word in any case. *)
Lemma rmatch_lit_lower {A : Type} (w hd s : string) (k : string -> option A) :
  allChars isLower w = true -> toLowerCase hd = w ->
  rmatch (lit w) (hd ++ s) k = k s.
Proof.
  revert hd. induction w as [|c w IH]; intros hd L E.
  - destruct hd; [reflexivity | discriminate].
  - destruct hd as [|x hd]; [discriminate |].
    cbn [toLowerCase] in E. injection E as Ex E.
    cbn [allChars] in L. apply andb_prop in L as [Lc L].
    cbn [lit rmatch append]. unfold chr. cbn [rmatch].
    rewrite (lower_folds_to_itself c Lc).
    rewrite lower_letter_folds by (now rewrite Ex).
    rewrite Ex, Ascii.eqb_refl. now apply IH.
Qed.

(** *** Skipping to the first match *)

Lemma exec_skip (p : pattern) (q : ascii -> bool) (pre s : string) :
  (forall c t, q c = true -> matchHere p (String c t) = None) ->
  allChars q pre = true ->
  exec p (pre ++ s) = exec p s.
Proof.
  intros F. induction pre as [|c pre IH]; cbn [append allChars]; intros Q;
    [reflexivity |].
  apply andb_prop in Q as [Qc Q]. cbn [exec]. now rewrite (F c _ Qc), IH.
Qed.

Lemma exec_here (p : pattern) (s g : string) :
  matchHere p s = Some g -> exec p s = Some g.
Proof. intros H. destruct s; cbn [exec]; now rewrite H. Qed.

(** *** The loop of a global pattern *)

Lemma matchHereRest_sound (p : pattern) (s g rest : string) :
  matchHereRest p s = Some (g, rest) ->
  exists m, s = m ++ g ++ rest /\ matches (before p) m /\ matches (group p) g.
Proof.
  unfold matchHereRest. intros H.
  apply rmatch_sound in H. destruct H as (m & s1 & -> & M1 & H).
  apply rmatch_sound in H. destruct H as (g' & s2 & -> & M2 & H).
  rewrite consumed_append in H. injection H as <- <-.
  now exists m.
Qed.

Lemma execRest_sound (p : pattern) (s g rest : string) :
  execRest p s = Some (g, rest) ->
  exists pre m,
    s = pre ++ m ++ g ++ rest /\ matches (before p) m /\ matches (group p) g.
Proof.
  induction s as [|c s IH]; cbn [execRest]; intros H.
  - destruct (matchHereRest p "") as [[g' r']|] eqn:E; [| discriminate].
    injection H as -> ->. apply matchHereRest_sound in E.
    destruct E as (m & E & M1 & M2). now exists "", m.
  - destruct (matchHereRest p (String c s)) as [[g' r']|] eqn:E.
    + injection H as -> ->. apply matchHereRest_sound in E.
      destruct E as (m & E & M1 & M2). now exists "", m.
    + destruct (IH H) as (pre & m & -> & M1 & M2).
      now exists (String c pre), m.
Qed.

(** Every capture of the loop is in the language of the group. *)
Lemma execLoop_sound (p : pattern) (n : nat) :
  forall s, Forall (matches (group p)) (execLoop n p s).
Proof.
  induction n as [|n IH]; intros s; cbn [execLoop]; [constructor |].
  destruct (execRest p s) as [[g rest]|] eqn:E; [| constructor].
  constructor; [| apply IH].
  apply execRest_sound in E. now destruct E as (pre & m & _ & _ & M).
Qed.

(** When the group takes at least one character, the input shrinks at
    every match, and the bound of the loop is never reached. *)
Lemma execLoop_fuel (p : pattern) :
  (forall g, matches (group p) g -> g <> "") ->
  forall n n' s, length s < n -> length s < n' ->
                 execLoop n p s = execLoop n' p s.
Proof.
  intros NE. induction n as [|n IH]; intros n' s L L'; [lia |].
  destruct n' as [|n']; [lia |]. cbn [execLoop].
  destruct (execRest p s) as [[g rest]|] eqn:E; [| reflexivity].
  f_equal. apply execRest_sound in E.
  destruct E as (pre & m & -> & _ & M). apply NE in M.
  rewrite !length_append in L, L'.
  destruct g; [now elim M |]. cbn [length] in L, L'. apply IH; lia.
Qed.

End MoreRegexFacts.

(** ** The parser *)

Module ParserFacts.
Import Text Regex TextMore RegexMore Codex ParsedSpec.
Import TextFacts RegexFacts MoreTextFacts MoreRegexFacts.

(** *** The record is well formed *)

Lemma complexity_values (output c : string) :
  exec complexityPattern output = Some c ->
  toLowerCase c = "low" \/ toLowerCase c = "medium" \/ toLowerCase c = "high".
Proof.
  intros E. apply exec_sound in E. destruct E as (pre & m & rest & _ & _ & M).
  cbn [group complexityPattern] in M.
  inversion M as [| | | r1 r2 s M1 | r1 r2 s M1 | |]; subst.
  - left. now apply matches_lit_lower.
  - inversion M1 as [| | | r1 r2 s M2 | r1 r2 s M2 | |]; subst.
    + right; left. now apply matches_lit_lower.
    + right; right. now apply matches_lit_lower.
Qed.

Lemma scoreSection_range (kw output : string) :
  (scoreSection kw output <= 100)%N.
Proof.
  unfold scoreSection, clampScore.
  destruct (exec (scorePattern kw) output); lia.
Qed.

(** X1.  Whatever the text is, the record has both scores within 0..100
    and a complexity that is one of low, medium and high. *)
Theorem parse_scores_and_complexity (output : string) :
  let r := parseCodexOutput output in
  (score (feasibility r) <= 100)%N
  /\ (completeness (implementationAnalysis r) <= 100)%N
  /\ (estimated_complexity (implementationAnalysis r) = "low"
      \/ estimated_complexity (implementationAnalysis r) = "medium"
      \/ estimated_complexity (implementationAnalysis r) = "high").
Proof.
  cbv zeta. split; [apply scoreSection_range |].
  split; [apply scoreSection_range |].
  cbn [parseCodexOutput implementationAnalysis estimated_complexity].
  destruct (exec complexityPattern output) as [c|] eqn:E; [| now right; left].
  exact (complexity_values output c E).
Qed.

(** *** The items of the lists *)

Lemma stripPrefix_suffix (r : regex) (s : string) :
  exists a, s = a ++ stripPrefix r s.
Proof.
  unfold stripPrefix. destruct (rmatch r s _) as [rest|] eqn:E; [| now exists ""].
  apply rmatch_sound in E. destruct E as (s1 & s2 & -> & _ & E).
  injection E as ->. now exists s1.
Qed.

Lemma extractListItems_clean (text : string) :
  Forall cleanItem (extractListItems text).
Proof.
  unfold extractListItems. apply Forall_forall. intros item I.
  apply filter_In in I as [I NE]. apply in_map_iff in I as (line & <- & I).
  repeat split.
  - intros E. rewrite E in NE. discriminate.
  - apply trim_idem.
  - apply allChars_trim.
    pose proof (splitOn_clean isNewline text) as C.
    rewrite splitOn_lines in C. rewrite Forall_forall in C.
    specialize (C line I).
    destruct (stripPrefix_suffix bulletPrefix line) as [a E].
    rewrite E, allChars_append in C. now apply andb_prop in C.
Qed.

Lemma listSection_clean (header : regex) (output : string) :
  Forall cleanItem (listSection header output).
Proof.
  unfold listSection. destruct (exec _ output); [| constructor].
  apply extractListItems_clean.
Qed.

(** X2.  Every item of every list of the record is not empty, has no
    line break and no space around it; every suggestion carries its item
    as description and as suggestion, with type other and severity info. *)
Theorem parse_items_clean (output : string) :
  Forall cleanItem (listItems (parseCodexOutput output))
  /\ Forall (fun s => suggestion s = description s
                      /\ type s = other /\ severity s = info
                      /\ file s = None)
            (suggestions (codeReview (parseCodexOutput output))).
Proof.
  split.
  - unfold listItems.
    cbn [parseCodexOutput feasibility codeReview implementationAnalysis
         blockers risks dependencies_missing suggestions
         best_practice_violations improvements gaps changesApplied].
    rewrite map_map. cbn [asSuggestion description]. rewrite map_id.
    repeat (apply Forall_app; split); apply listSection_clean.
  - cbn [parseCodexOutput codeReview suggestions].
    apply Forall_forall. intros s I. apply in_map_iff in I as (item & <- & _).
    now cbn.
Qed.

(** *** A score that is there is read *)

Lemma digit_is_no_separator (c : ascii) :
  isDigit c = true -> isSep c = false.
Proof.
  destruct c as [[] [] [] [] [] [] [] []]; vm_compute;
    first [reflexivity | discriminate].
Qed.

Lemma exec_score (k0 : ascii) (kw pre hd sep ds rest : string) :
  allChars isLower (String k0 kw) = true ->
  allChars (fun c => negb (Ascii.eqb (foldAscii c) k0)) pre = true ->
  toLowerCase hd = String k0 kw ->
  allChars isSep sep = true ->
  ds <> "" -> allChars isDigit ds = true -> stopsAt isDigit rest = true ->
  exec (scorePattern (String k0 kw)) (pre ++ hd ++ sep ++ ds ++ rest)
  = Some ds.
Proof.
  intros L P H S N D R.
  assert (L0 : isLower k0 = true) by (cbn in L; now apply andb_prop in L).
  rewrite (exec_skip _ (fun c => negb (Ascii.eqb (foldAscii c) k0))); [| | exact P].
  - apply exec_here. unfold matchHere, scorePattern. cbn [before group].
    cbn [rmatch]. rewrite (rmatch_lit_lower _ hd _ _ L H).
    apply star_cls_greedy; [exact S | |].
    + destruct ds as [|d ds]; [now elim N |]. cbn [append stopsAt].
      cbn [allChars] in D. apply andb_prop in D as [D _].
      now rewrite (digit_is_no_separator d D).
    + rewrite (plus_cls_greedy isDigit ds rest _ ds N D R); [reflexivity |].
      now rewrite consumed_append.
  - intros c t Q. unfold matchHere, scorePattern. cbn [before lit rmatch].
    unfold chr. cbn [rmatch].
    rewrite (lower_folds_to_itself k0 L0).
    apply negb_true_iff in Q. now rewrite Q.
Qed.

(** X3.  A score that the text states is the score of the record: when the
    header, in any case, is followed by separators and by the number [n]
    in decimal, and no earlier character of the text is the first letter
    of the header, the score is [n], cut at 100. *)
Theorem parse_reads_scores (pre hd sep rest : string) (n : N) :
  allChars isSep sep = true -> stopsAt isDigit rest = true ->
  (allChars (fun c => negb (Ascii.eqb (foldAscii c) "f")) pre = true ->
   toLowerCase hd = "feasibility" ->
   score (feasibility
            (parseCodexOutput (pre ++ hd ++ sep ++ showN n ++ rest)))
   = N.min 100 n)
  /\ (allChars (fun c => negb (Ascii.eqb (foldAscii c) "c")) pre = true ->
      toLowerCase hd = "completeness" ->
      completeness (implementationAnalysis
                      (parseCodexOutput (pre ++ hd ++ sep ++ showN n ++ rest)))
      = N.min 100 n).
Proof.
  intros S R.
  assert (C : clampScore (showN n) = N.min 100 n).
  { unfold clampScore. rewrite parseInt_showN. f_equal. lia. }
  split; intros P H;
    cbn [parseCodexOutput feasibility score implementationAnalysis completeness];
    unfold scoreSection.
  - now rewrite (exec_score "f" "easibility" pre hd sep (showN n) rest
                            eq_refl P H S (proj2 (showN_string n))
                            (showN_digits n) R).
  - now rewrite (exec_score "c" "ompleteness" pre hd sep (showN n) rest
                            eq_refl P H S (proj2 (showN_string n))
                            (showN_digits n) R).
Qed.

Lemma parse_reads_scores_witness :
  score (feasibility
           (parseCodexOutput
              ("## Result" ++ newline ++ "FEASIBILITY: " ++ showN 85
                 ++ "/100")))
  = N.min 100 85.
Proof.
  destruct (parse_reads_scores ("## Result" ++ newline) "FEASIBILITY" ": "
                               "/100" 85) as [H _];
    [reflexivity | reflexivity |].
  apply H; reflexivity.
Defined.

End ParserFacts.

(** ** Results of the process *)

Module ResultFacts.
Import Text Regex TextMore Codex Runtime.
Import TextFacts MoreTextFacts.

(** X4.  The quota classifier does not depend on case, and text around a
    quota message does not hide it. *)
Theorem quota_phrase_survives_context (a s b : string) :
  isQuotaError (toLowerCase s) = isQuotaError s
  /\ (isQuotaError s = true -> isQuotaError (a ++ s ++ b) = true).
Proof.
  split.
  - unfold isQuotaError. now rewrite toLowerCase_idem.
  - unfold isQuotaError. rewrite !existsb_exists.
    intros (p & I & H). exists p. split; [exact I |].
    apply includes_split in H. destruct H as (x & y & H).
    rewrite !toLowerCase_app, H.
    replace (toLowerCase a ++ (x ++ p ++ y) ++ toLowerCase b)
      with ((toLowerCase a ++ x) ++ p ++ (y ++ toLowerCase b))
      by (now rewrite !append_assoc).
    apply includes_append.
Qed.

Lemma quota_phrase_survives_context_witness :
  isQuotaError ("Error: " ++ "Rate limit reached for requests" ++ ". Retry later.")
  = true.
Proof.
  destruct (quota_phrase_survives_context
              "Error: " "Rate limit reached for requests" ". Retry later.")
    as (_ & H).
  apply H. vm_compute. reflexivity.
Defined.

(** X5.  The promise of [spawnCodex] resolves with a successful result
    exactly when the process closed with exit code 0, had not timed out and
    printed no quota phrase; the record is then the one parsed from stdout,
    or from stderr when stdout is empty.  The output is handed on as it
    came. *)
Theorem primary_success (m : Mode) (t : N) (e : ProcessEnd) :
  let r := resolved m t e in
  (success r = true <->
   exists stdout stderr,
     e = Closed false stdout stderr (Some 0%N)
     /\ isQuotaError stderr = false /\ isQuotaError stdout = false)
  /\ (success r = true ->
      error r = None /\ quotaExhausted r = false
      /\ exists stdout stderr,
          rawOutput r = stdout /\ rawError r = stderr
          /\ parsed r = parseCodexOutput (orElse stdout stderr)
          /\ (stdout = "" -> parsed r = parseCodexOutput stderr))
  /\ (forall timedOut stdout stderr code,
         e = Closed timedOut stdout stderr code ->
         rawOutput r = stdout /\ rawError r = stderr).
Proof.
  cbv zeta.
  destruct e as [timedOut stdout stderr code | enoent message];
    cbn [resolved].
  - unfold closeResult. destruct timedOut.
    + split; [split; [discriminate | intros (? & ? & E & _); discriminate] |].
      split; [discriminate | intros ? ? ? ? E; now injection E as _ <- <- _].
    + destruct (isQuotaError stderr || isQuotaError stdout) eqn:Q.
      * split; [split; [discriminate |] |].
        { intros (o & x & E & Q1 & Q2). injection E as <- <- _.
          rewrite Q1, Q2 in Q. discriminate. }
        split; [discriminate | intros ? ? ? ? E; now injection E as _ <- <- _].
      * apply orb_false_elim in Q as [Q1 Q2].
        cbn [success error quotaExhausted rawOutput rawError parsed].
        split; [split |].
        { intros Z. exists stdout, stderr. repeat split; try assumption.
          destruct code as [n|]; [| discriminate]. cbn in Z.
          apply N.eqb_eq in Z. now subst n. }
        { intros (o & x & E & _). now injection E as _ _ ->. }
        split.
        { intros Z. rewrite Z. repeat split.
          exists stdout, stderr. repeat split. now intros ->. }
        intros ? ? ? ? E. now injection E as _ <- <- _.
  - unfold errorResult. destruct enoent;
      (split; [split; [discriminate | intros (? & ? & E & _); discriminate] |]);
      (split; [discriminate | intros ? ? ? ? E; discriminate]).
Qed.

Lemma primary_success_witness :
  parsed (resolved suggest 1000 (Closed false "" "Feasibility: 85" (Some 0%N)))
  = parseCodexOutput "Feasibility: 85".
Proof.
  destruct (primary_success suggest 1000
                            (Closed false "" "Feasibility: 85" (Some 0%N)))
    as (_ & H & _).
  destruct H as (_ & _ & o & x & RO & RE & P & E); [reflexivity |].
  cbn in RO, RE. subst o x. apply E. reflexivity.
Defined.

End ResultFacts.

(** ** More on the execution manager *)

Module ManagerFacts.
Import Text Codex Runtime CodexService ExecutionManager.
Import TraceSpec FactorySpec ManagerSpec ExecutionManagerFacts.

(** X6.  A timeout comes before the quota check: when the process of the
    CLI timed out, [execute] returns its result, which is not a quota
    failure, makes no request to the API and leaves the manager as it was,
    whatever the output of the process says and whether a client exists
    or not. *)
Theorem timeout_does_not_fail_over
        (env : Env) (options : CodexExecutionOptions) (this : Manager)
        (t : Trace) (stdout stderr : string) (code : option N) :
  cliAvailable this = true ->
  processEnd env (count isPrimary t) = Closed true stdout stderr code ->
  exists r,
    ExecutionManager.execute options env this t
    = (Returned r, this, snd (ExecutionManager.execute options env this t))
    /\ success r = false /\ quotaExhausted r = false
    /\ executionPath r = codex_cli
    /\ rawOutput r = stdout /\ rawError r = stderr
    /\ parsed r = Codex.getDefaultParsedResult
    /\ appended t (snd (ExecutionManager.execute options env this t)) 0 1 0.
Proof.
  intros CLI E.
  destruct (execute_run options env this t) as (u & R & A).
  cbv zeta in R, A. rewrite CLI, E in R, A. cbn [resolved] in R, A.
  unfold closeResult in R, A. cbn [quotaExhausted andb] in R, A.
  rewrite R. cbn [snd]. eexists. split; [reflexivity |].
  repeat split. exact A.
Qed.

Lemma timeout_does_not_fail_over_witness :
  exists r,
    fst (fst (ExecutionManager.execute
                Scenario.request
                {| probeAnswer := fun _ => true;
                   processEnd := fun _ =>
                     Closed true "" "429 Too Many Requests" None;
                   apiOutcome := fun _ => Answered (Some "Feasibility: 80");
                   OPENAI_API_KEY := None |}
                Scenario.ready [])) = Returned r
    /\ quotaExhausted r = false /\ executionPath r = codex_cli.
Proof.
  destruct (timeout_does_not_fail_over
              {| probeAnswer := fun _ => true;
                 processEnd := fun _ =>
                   Closed true "" "429 Too Many Requests" None;
                 apiOutcome := fun _ => Answered (Some "Feasibility: 80");
                 OPENAI_API_KEY := None |}
              Scenario.request Scenario.ready [] "" "429 Too Many Requests"
              None eq_refl eq_refl) as (r & E & _ & Q & P & _).
  exists r. rewrite E. now repeat split.
Defined.

(** *** [initialize] and the constructor *)

Lemma initialize_outcome (env : Env) (this : Manager) (t : Trace) :
  fst (fst (initialize env this t))
  = if negb (probeAnswer env (count isProbe t)) && negb (hasClient this)
    then Thrown "No execution path available. Either install Codex CLI (npm install -g @openai/codex) or set OPENAI_API_KEY environment variable."
    else Returned tt.
Proof.
  unfold initialize, isInstalled. run.
  destruct (probeAnswer env (count isProbe t));
    cbn [cliAvailable setAvailable codexCliAvailable negb andb];
    [reflexivity |].
  change (hasClient (setAvailable false this)) with (hasClient this).
  now destruct (hasClient this).
Qed.

(** X7.  [initialize] probes once and stores the answer, and it throws
    exactly when the CLI is not installed and no API client exists; the
    answer is stored also when it throws, and nothing else of the manager
    changes. *)
Theorem initialize_fails_without_any_path
        (env : Env) (this : Manager) (t : Trace) :
  let r := initialize env this t in
  let answer := probeAnswer env (count isProbe t) in
  ((exists e, fst (fst r) = Thrown e)
   <-> answer = false /\ hasClient this = false)
  /\ snd (fst r) = setAvailable answer this
  /\ appended t (snd r) 1 0 0.
Proof.
  cbv zeta. pose proof (initialize_outcome env this t) as O.
  destruct (initialize_run env this t) as (o & t' & E & A).
  rewrite E in *. cbn [fst snd] in *. subst o.
  split; [| split; [reflexivity | exact A]].
  destruct (probeAnswer env (count isProbe t)), (hasClient this); cbn;
    (split; [intros (e & X); discriminate X || (split; reflexivity)
            | intros (X & Y); discriminate X || discriminate Y || eexists; reflexivity]).
Qed.

Lemma new_run (options : ExecutionManagerOptions) (env : Env) (t : Trace) :
  exists this t',
    new options env tt t = (Returned this, tt, t')
    /\ hasClient this
       = keySet (coalesce (opt_openaiApiKey options) (OPENAI_API_KEY env))
    /\ fallbackTriggered this = false /\ fallbackReason this = None
    /\ codexCliAvailable this = None
    /\ appended t t' 0 0 0.
Proof.
  unfold new. run.
  destruct (keySet (coalesce (opt_openaiApiKey options) (OPENAI_API_KEY env)))
    eqn:K; do 2 eexists;
    (split; [reflexivity |]); unfold hasClient;
    cbn [openai fallbackTriggered fallbackReason codexCliAvailable].
  - destruct (coalesce (opt_openaiApiKey options) (OPENAI_API_KEY env))
      as [k|]; [| discriminate K].
    repeat split. appends.
  - repeat split. appends.
Qed.

Lemma initialize_fails_without_any_path_witness :
  exists e,
    fst (fst (initialize
                {| probeAnswer := fun _ => false;
                   processEnd := fun _ => SpawnFailed true "";
                   apiOutcome := fun _ => Answered None;
                   OPENAI_API_KEY := None |}
                {| openai := None; openaiApiKey := None;
                   openaiModel := "gpt-4o"; codexCliAvailable := None;
                   fallbackTriggered := false; fallbackReason := None |} []))
    = Thrown e.
Proof.
  destruct (initialize_fails_without_any_path
              {| probeAnswer := fun _ => false;
                 processEnd := fun _ => SpawnFailed true "";
                 apiOutcome := fun _ => Answered None;
                 OPENAI_API_KEY := None |}
              {| openai := None; openaiApiKey := None;
                 openaiModel := "gpt-4o"; codexCliAvailable := None;
                 fallbackTriggered := false; fallbackReason := None |} [])
    as (H & _).
  apply H. split; reflexivity.
Defined.

(** X8.  The constructor builds the API client exactly when the key is not
    empty, the key being that of the options if there is one, that of the
    environment otherwise: an empty key in the options hides a key of the
    environment.  The new manager has no fallback recorded, and until
    [initialize] runs its status shows the CLI as unavailable. *)
Theorem constructor_client
        (options : ExecutionManagerOptions) (env : Env) (t : Trace) :
  exists this t',
    new options env tt t = (Returned this, tt, t')
    /\ hasClient this
       = keySet (coalesce (opt_openaiApiKey options) (OPENAI_API_KEY env))
    /\ (opt_openaiApiKey options = Some "" -> hasClient this = false)
    /\ (opt_openaiApiKey options = None ->
        hasClient this = keySet (OPENAI_API_KEY env))
    /\ fallbackTriggered this = false /\ fallbackReason this = None
    /\ codexCliAvailable this = None
    /\ st_codexCliAvailable (getStatus this) = false
    /\ st_currentPath (getStatus this)
       = (if hasClient this then Some openai_api else None)
    /\ appended t t' 0 0 0.
Proof.
  destruct (new_run options env t) as (this & t' & E & H & F & R & C & A).
  exists this, t'. split; [exact E |]. split; [exact H |].
  split; [intros O; rewrite H, O; reflexivity |].
  split; [intros O; rewrite H, O; reflexivity |].
  split; [exact F |]. split; [exact R |]. split; [exact C |].
  unfold getStatus, cliAvailable. cbn [st_codexCliAvailable st_currentPath].
  rewrite C. now repeat split.
Qed.

Lemma constructor_client_witness :
  exists this t',
    new {| opt_openaiApiKey := Some ""; opt_openaiModel := None |}
        Scenario.world tt []
    = (Returned this, tt, t')
    /\ hasClient this = false.
Proof.
  destruct (constructor_client
              {| opt_openaiApiKey := Some ""; opt_openaiModel := None |}
              Scenario.world []) as (this & t' & E & _ & H & _).
  exists this, t'. split; [exact E | apply H; reflexivity].
Defined.

(** *** What [execute] does to the manager *)

Lemma execute_record
      (env : Env) (options : CodexExecutionOptions) (this : Manager)
      (t : Trace) :
  let this' := snd (fst (ExecutionManager.execute options env this t)) in
  (fallbackTriggered this', fallbackReason this')
  = (if cliAvailable this then
       if quotaExhausted
            (resolved (modeOf (applyChangesOf options)) (timeoutOf options)
                      (processEnd env (count isPrimary t)))
          && hasClient this
       then (true, Some "Codex CLI Pro quota exhausted")
       else (fallbackTriggered this, fallbackReason this)
     else
       if hasClient this && negb (fallbackTriggered this)
       then (true, Some "Codex CLI not installed")
       else (fallbackTriggered this, fallbackReason this)).
Proof.
  cbv zeta. destruct (execute_run options env this t) as (u & E & _).
  cbv zeta in E. rewrite E. clear E.
  destruct (cliAvailable this).
  - now destruct (quotaExhausted _ && hasClient this).
  - destruct (hasClient this); [| now cbn].
    destruct (fallbackTriggered this) eqn:F; cbn [fst snd andb negb];
      now rewrite ?F.
Qed.

(** X9.  [execute] changes nothing of the manager but the fallback flag
    and reason.  A failover after exhausted quota sets the flag and records
    its reason, at every such call; a call without the CLI sets the flag
    and records 'Codex CLI not installed' only when no fallback was
    recorded before, and keeps the earlier reason otherwise; any other call
    leaves both as they were. *)
Theorem execute_fallback_record
        (env : Env) (options : CodexExecutionOptions) (this : Manager)
        (t : Trace) :
  let primary :=
    resolved (modeOf (applyChangesOf options)) (timeoutOf options)
             (processEnd env (count isPrimary t)) in
  let this' := snd (fst (ExecutionManager.execute options env this t)) in
  openai this' = openai this
  /\ openaiApiKey this' = openaiApiKey this
  /\ openaiModel this' = openaiModel this
  /\ codexCliAvailable this' = codexCliAvailable this
  /\ (fallbackTriggered this', fallbackReason this')
     = (if cliAvailable this then
          if quotaExhausted primary && hasClient this
          then (true, Some "Codex CLI Pro quota exhausted")
          else (fallbackTriggered this, fallbackReason this)
        else
          if hasClient this && negb (fallbackTriggered this)
          then (true, Some "Codex CLI not installed")
          else (fallbackTriggered this, fallbackReason this)).
Proof.
  cbv zeta. pose proof (execute_record env options this t) as P.
  cbv zeta in P.
  destruct (execute_run options env this t) as (u & E & _).
  cbv zeta in E. rewrite E in *. clear E.
  destruct (cliAvailable this).
  - destruct (quotaExhausted _ && hasClient this); now repeat split.
  - destruct (hasClient this); [| now repeat split].
    destruct (fallbackTriggered this); now repeat split.
Qed.

Lemma runCall_flagged (env : Env) (c : Call) (st : Manager * Trace) :
  flagged (fst st) -> flagged (fst (runCall env c st)).
Proof.
  intros F. destruct c; cbn [runCall]; try exact F.
  - destruct (initialize_run env (fst st) (snd st)) as (o & t' & -> & _).
    exact F.
  - pose proof (execute_record env options (fst st) (snd st)) as E.
    cbv zeta in E. unfold after. cbn [fst].
    pose proof (f_equal fst E) as E1. pose proof (f_equal snd E) as E2.
    cbn [fst snd] in E1, E2. clear E.
    unfold flagged in *. rewrite E1, E2. clear E1 E2.
    destruct (cliAvailable (fst st));
      [destruct (quotaExhausted _ && hasClient (fst st))
      | destruct (hasClient (fst st) && negb (fallbackTriggered (fst st)))];
      cbn [fst snd];
      first [exact F | left; split; [reflexivity | discriminate]].
  - right. split; reflexivity.
Qed.

(** X10.  On a manager built by the constructor the flag and the reason go
    together through every sequence of calls: the reason is there exactly
    when the flag is set. *)
Theorem fallback_reason_iff_flag
        (env : Env) (options : ExecutionManagerOptions) (t : Trace)
        (cs : list Call) :
  exists this t',
    new options env tt t = (Returned this, tt, t')
    /\ let final := fst (runCalls env cs (this, t')) in
       (fallbackTriggered final = true <-> fallbackReason final <> None)
       /\ st_fallbackTriggered (getStatus final) = fallbackTriggered final
       /\ st_fallbackReason (getStatus final) = fallbackReason final.
Proof.
  destruct (new_run options env t) as (this & t' & E & _ & F & R & _).
  exists this, t'. split; [exact E |]. cbv zeta.
  assert (G : flagged (fst (runCalls env cs (this, t')))).
  { assert (G0 : flagged (fst (this, t'))) by (right; now split).
    revert G0. generalize (this, t'). clear.
    induction cs as [|c cs IH]; intros st G; [exact G |].
    cbn [runCalls fold_left]. apply IH. now apply runCall_flagged. }
  split; [| split; reflexivity].
  destruct G as [[G1 G2] | [G1 G2]]; rewrite G1.
  - split; [intros _; exact G2 | reflexivity].
  - split; [discriminate | intros N; now elim N].
Qed.

Lemma execute_no_path
      (env : Env) (options : CodexExecutionOptions) (this : Manager)
      (t : Trace) :
  st_currentPath (getStatus this) = None ->
  ExecutionManager.execute options env this t
  = (Thrown "No execution path available", this, t).
Proof.
  unfold getStatus. cbn [st_currentPath]. intros N.
  unfold ExecutionManager.execute. run.
  destruct (cliAvailable this); [discriminate |].
  destruct (hasClient this); [discriminate | reflexivity].
Qed.

Lemma fallback_reason_iff_flag_witness :
  exists this t',
    new {| opt_openaiApiKey := None; opt_openaiModel := None |}
        Scenario.world tt []
    = (Returned this, tt, t')
    /\ fallbackReason
         (fst (runCalls Scenario.world
                        [CallInitialize; CallExecute Scenario.request;
                         CallExecute Scenario.request]
                        (this, t'))) <> None.
Proof.
  destruct (fallback_reason_iff_flag
              Scenario.world
              {| opt_openaiApiKey := None; opt_openaiModel := None |} []
              [CallInitialize; CallExecute Scenario.request;
               CallExecute Scenario.request])
    as (this & t' & E & H & _).
  exists this, t'. split; [exact E |].
  apply H. pose proof E as E'. vm_compute in E'.
  injection E' as <- <-. vm_compute. reflexivity.
Defined.

(** X11.  Without the CLI, [execute] throws exactly when no API client
    exists.  With neither, which is when the status shows no current path,
    it throws 'No execution path available' and has logged nothing, invoked
    nothing and changed nothing; with a client it returns the result of
    the API path, whatever the API call did. *)
Theorem execute_throws_without_path
        (env : Env) (options : CodexExecutionOptions) (this : Manager)
        (t : Trace) :
  (st_currentPath (getStatus this) = None
   <-> cliAvailable this = false /\ hasClient this = false)
  /\ (st_currentPath (getStatus this) = None ->
      ExecutionManager.execute options env this t
      = (Thrown "No execution path available", this, t))
  /\ (cliAvailable this = false ->
      ((exists e, fst (fst (ExecutionManager.execute options env this t))
                  = Thrown e)
       <-> hasClient this = false))
  /\ (cliAvailable this = false -> hasClient this = true ->
      exists r,
        fst (fst (ExecutionManager.execute options env this t)) = Returned r
        /\ executionPath r = openai_api).
Proof.
  split.
  { unfold getStatus. cbn [st_currentPath].
    destruct (cliAvailable this), (hasClient this);
      (split; [intros X; discriminate X || now split
              | intros (X & Y); discriminate X || discriminate Y
                                || reflexivity]). }
  split; [apply execute_no_path |].
  destruct (execute_run options env this t) as (w & E & _).
  cbv zeta in E. rewrite E. clear E.
  split; intros C; rewrite C.
  - destruct (hasClient this);
      (split; [intros (e & X); discriminate X || reflexivity
              | discriminate || (intros _; eexists; reflexivity)]).
  - intros H. rewrite H. eexists. split; [reflexivity |].
    unfold apiResult.
    destruct (apiOutcome env (count isSecondary t)) as [answer | message];
      [reflexivity |].
    now destruct (includes message "aborted" || includes message "timeout").
Qed.

Lemma execute_throws_without_path_witness :
  ExecutionManager.execute
    Scenario.request Scenario.world
    {| openai := None; openaiApiKey := None; openaiModel := "gpt-4o";
       codexCliAvailable := Some false; fallbackTriggered := false;
       fallbackReason := None |} []
  = (Thrown "No execution path available",
     {| openai := None; openaiApiKey := None; openaiModel := "gpt-4o";
        codexCliAvailable := Some false; fallbackTriggered := false;
        fallbackReason := None |}, []).
Proof.
  destruct (execute_throws_without_path
              Scenario.world Scenario.request
              {| openai := None; openaiApiKey := None; openaiModel := "gpt-4o";
                 codexCliAvailable := Some false; fallbackTriggered := false;
                 fallbackReason := None |} []) as (_ & H & _).
  apply H. reflexivity.
Defined.

(** *** The fallback path *)

(** X12.  [executeViaOpenAI] never throws and never changes the manager.  It
    sends one request when the client exists and none otherwise; its
    result succeeds exactly when the client exists and the API answered,
    and a result without error is a successful one.  An answer without
    content is a success with the record of the empty text. *)
Theorem fallback_path_result
        (env : Env) (options : CodexExecutionOptions) (this : Manager)
        (t : Trace) :
  exists r t',
    executeViaOpenAI options env this t = (Returned r, this, t')
    /\ appended t t' 0 0 (if hasClient this then 1 else 0)
    /\ executionPath r = openai_api
    /\ mode r = modeOf (applyChangesOf options)
    /\ (success r = true <->
        hasClient this = true
        /\ exists answer,
            apiOutcome env (count isSecondary t) = Answered answer)
    /\ (error r = None <-> success r = true)
    /\ (hasClient this = true ->
        apiOutcome env (count isSecondary t) = Answered None ->
        success r = true /\ rawOutput r = ""
        /\ parsed r = initialResult).
Proof.
  destruct (executeViaOpenAI_run options env this t) as (t' & E & A).
  eexists. exists t'. split; [exact E |]. split; [exact A |].
  destruct (hasClient this).
  - destruct (apiOutcome env (count isSecondary t)) as [answer | message];
      cbn [apiResult].
    + repeat split; try discriminate;
        first [ now exists answer
              | match goal with
                | X : Answered _ = Answered None |- _ => injection X as ->
                end; reflexivity ].
    + destruct (includes message "aborted" || includes message "timeout");
        (repeat split; try discriminate;
         intros (_ & x & X); discriminate X).
  - repeat split; try discriminate. intros (X & _); discriminate X.
Qed.

Lemma fallback_path_result_witness :
  exists r t',
    executeViaOpenAI
      Scenario.request
      {| probeAnswer := fun _ => true;
         processEnd := fun _ => SpawnFailed true "";
         apiOutcome := fun _ => Answered None;
         OPENAI_API_KEY := None |}
      Scenario.ready [] = (Returned r, Scenario.ready, t')
    /\ success r = true
    /\ score (feasibility (parsed r)) = 70%N.
Proof.
  destruct (fallback_path_result
              {| probeAnswer := fun _ => true;
                 processEnd := fun _ => SpawnFailed true "";
                 apiOutcome := fun _ => Answered None;
                 OPENAI_API_KEY := None |}
              Scenario.request Scenario.ready [])
    as (r & t' & E & _ & _ & _ & _ & _ & H).
  destruct (H eq_refl eq_refl) as (S & _ & P).
  exists r, t'. split; [exact E | split; [exact S | now rewrite P]].
Defined.

(** *** The factory *)

Lemma factory_builds (env : Env) (options : ExecutionManagerOptions)
      (t : Trace) :
  exists o made t',
    getExecutionManager options env None t = (o, Some made, t')
    /\ (o = Returned made
        \/ o = Thrown "No execution path available. Either install Codex CLI (npm install -g @openai/codex) or set OPENAI_API_KEY environment variable.")
    /\ ((exists e, o = Thrown e) <->
        probeAnswer env (count isProbe t) = false /\ hasClient made = false)
    /\ cliAvailable made = probeAnswer env (count isProbe t)
    /\ hasClient made
       = keySet (coalesce (opt_openaiApiKey options) (OPENAI_API_KEY env))
    /\ fallbackTriggered made = false /\ fallbackReason made = None
    /\ appended t t' 1 0 0.
Proof.
  destruct (new_run options env t) as (this & t0 & E & HC & F & R & _ & A0).
  unfold getExecutionManager. rewrite E.
  pose proof (initialize_outcome env this t0) as O.
  destruct (initialize_run env this t0) as (o & t1 & I & A1).
  rewrite I in *. cbn [fst] in O.
  assert (C : count isProbe t0 = count isProbe t)
    by (apply appended_counts in A0; lia).
  rewrite C in *.
  assert (A : appended t t1 1 0 0) by chain.
  destruct o as [[] | e].
  - exists (Returned (setAvailable (probeAnswer env (count isProbe t)) this)),
      (setAvailable (probeAnswer env (count isProbe t)) this), t1.
    change (hasClient (setAvailable (probeAnswer env (count isProbe t)) this))
      with (hasClient this).
    split; [reflexivity |]. split; [now left |].
    split; [| now repeat split].
    split; [intros (e & X); discriminate X |].
    intros (P & H). rewrite P, H in O. discriminate O.
  - exists (Thrown e),
      (setAvailable (probeAnswer env (count isProbe t)) this), t1.
    change (hasClient (setAvailable (probeAnswer env (count isProbe t)) this))
      with (hasClient this).
    split; [reflexivity |].
    destruct (probeAnswer env (count isProbe t)); [discriminate O |].
    destruct (hasClient this) eqn:H; [discriminate O |].
    cbn [negb andb] in O. injection O as ->.
    split; [now right |]. split; [| now repeat split].
    split; [now intros _ | intros _; eexists; reflexivity].
Qed.

(** X13.  When [initialize] throws inside the factory, the manager is
    cached all the same: the first call of [getExecutionManager] throws,
    every later call returns that manager without probing and without
    throwing, and every [execute] on it throws. *)
Theorem factory_caches_failed_initialization
        (env : Env) (options options' : ExecutionManagerOptions)
        (request : CodexExecutionOptions) (t u : Trace) :
  probeAnswer env (count isProbe t) = false ->
  keySet (coalesce (opt_openaiApiKey options) (OPENAI_API_KEY env)) = false ->
  exists e made t',
    getExecutionManager options env None t = (Thrown e, Some made, t')
    /\ getExecutionManager options' env (Some made) t'
       = (Returned made, Some made, t')
    /\ ExecutionManager.execute request env made u
       = (Thrown "No execution path available", made, u).
Proof.
  intros P K.
  destruct (factory_builds env options t)
    as (o & made & t' & E & _ & T & C & H & _).
  rewrite P in C. rewrite K in H.
  destruct (proj2 T (conj P H)) as (e & ->).
  exists e, made, t'. split; [exact E |]. split; [reflexivity |].
  apply execute_no_path.
  unfold getStatus. cbn [st_currentPath]. now rewrite C, H.
Qed.

Lemma factory_caches_failed_initialization_witness :
  exists e made t',
    getExecutionManager
      {| opt_openaiApiKey := None; opt_openaiModel := None |}
      {| probeAnswer := fun _ => false;
         processEnd := fun _ => SpawnFailed true "";
         apiOutcome := fun _ => Answered None;
         OPENAI_API_KEY := None |} None []
    = (Thrown e, Some made, t')
    /\ getExecutionManager
         {| opt_openaiApiKey := None; opt_openaiModel := None |}
         {| probeAnswer := fun _ => false;
            processEnd := fun _ => SpawnFailed true "";
            apiOutcome := fun _ => Answered None;
            OPENAI_API_KEY := None |} (Some made) t'
       = (Returned made, Some made, t').
Proof.
  destruct (factory_caches_failed_initialization
              {| probeAnswer := fun _ => false;
                 processEnd := fun _ => SpawnFailed true "";
                 apiOutcome := fun _ => Answered None;
                 OPENAI_API_KEY := None |}
              {| opt_openaiApiKey := None; opt_openaiModel := None |}
              {| opt_openaiApiKey := None; opt_openaiModel := None |}
              Scenario.request [] [] eq_refl eq_refl)
    as (e & made & t' & E1 & E2 & _).
  now exists e, made, t'.
Defined.

(** X14.  [resetExecutionManager] forgets the manager and with it the
    fallback record: the next [getExecutionManager] probes again and caches
    a manager with no fallback recorded, whatever the earlier one had. *)
Theorem reset_forgets_fallback
        (env : Env) (options : ExecutionManagerOptions)
        (instance : option Manager) (t : Trace) :
  resetExecutionManager env instance t = (Returned tt, None, t)
  /\ exists o made t',
      getExecutionManager options env None t = (o, Some made, t')
      /\ fallbackTriggered made = false
      /\ fallbackReason made = None
      /\ appended t t' 1 0 0.
Proof.
  split; [reflexivity |].
  destruct (factory_builds env options t)
    as (o & made & t' & E & _ & _ & _ & _ & F & R & A).
  now exists o, made, t'.
Qed.

End ManagerFacts.

(** ** Proposals *)

Module ProposalFacts.
Import Text Regex TextMore RegexMore ChangeApplier Proposals ProposalSpec.
Import TextFacts RegexFacts MoreTextFacts MoreRegexFacts.

(** *** The file name of a description *)

Lemma concat_split (sep : ascii -> bool) (c0 : ascii) (s : string) :
  (forall c, sep c = true -> c = c0) ->
  concat (String c0 "") (splitOn sep s) = s.
Proof.
  intros U. induction s as [|c s IH]; cbn [splitOn]; [reflexivity |].
  destruct (sep c) eqn:E.
  - apply U in E as ->. pose proof (splitOn_nonempty sep s) as N.
    destruct (splitOn sep s) as [|l ls]; [now elim N |].
    cbn [concat append] in IH |- *. now rewrite IH.
  - destruct (splitOn sep s) as [|l ls]; [cbn in IH |- *; now rewrite <- IH |].
    destruct ls; cbn [concat append] in IH |- *; now rewrite IH.
Qed.

Lemma concat_last (sep : string) (ls : list string) (x : string) :
  concat sep (ls ++ [x])
  = match ls with [] => x | _ => concat sep ls ++ sep ++ x end.
Proof.
  induction ls as [|l ls IH]; [reflexivity |].
  destruct ls as [|l' ls]; [reflexivity |].
  change (concat sep ((l :: l' :: ls) ++ [x]))
    with (l ++ sep ++ concat sep ((l' :: ls) ++ [x])).
  rewrite IH.
  change (concat sep (l :: l' :: ls)) with (l ++ sep ++ concat sep (l' :: ls)).
  now rewrite !append_assoc.
Qed.

Lemma slash_only (c : ascii) : isSlash c = true -> c = "/"%char.
Proof.
  destruct c as [[] [] [] [] [] [] [] []]; vm_compute;
    first [reflexivity | discriminate].
Qed.

Lemma lastSegment_spec (path : string) :
  allChars (fun c => negb (isSlash c)) (lastSegment path) = true
  /\ (path = lastSegment path
      \/ exists dir, path = dir ++ "/" ++ lastSegment path).
Proof.
  unfold lastSegment.
  pose proof (splitOn_nonempty isSlash path) as N.
  pose proof (splitOn_clean isSlash path) as C.
  pose proof (concat_split isSlash "/" path slash_only) as J.
  destruct (exists_last N) as (init & x & E). rewrite E in *.
  rewrite last_last. split.
  - apply Forall_app in C as [_ C]. now inversion C.
  - rewrite concat_last in J. destruct init as [|i init]; [now left |].
    right. exists (concat "/" (i :: init)). now rewrite <- J.
Qed.

(** X15.  The description of a file change names the file by the part of
    the path after its last slash, which is the whole path when it has no
    slash, and which has no slash in it; the description of a dependency
    or of a configuration change has the whole path. *)
Theorem description_names_the_file (path : string) :
  exists name,
    (path = name \/ exists dir, path = dir ++ "/" ++ name)
    /\ allChars (fun c => negb (isSlash c)) name = true
    /\ generateDescription file_create path = "Create new file: " ++ name
    /\ generateDescription file_modify path = "Modify existing file: " ++ name
    /\ generateDescription file_delete path = "Delete file: " ++ name
    /\ generateDescription dependency_add path = "Add dependency: " ++ path
    /\ generateDescription config_change path
       = "Update configuration: " ++ path.
Proof.
  destruct (lastSegment_spec path) as [A B].
  exists (lastSegment path). split; [exact B |]. split; [exact A |].
  repeat split.
Qed.

(** The description of a change of this development. *)
Example describe_codex_service :
  generateDescription file_modify "src/services/codex.ts"
  = "Modify existing file: codex.ts".
Proof. vm_compute. reflexivity. Qed.

(** *** Proposals read from a text *)

Lemma propose_wellFormed (t : ChangeType) (capture : string) :
  matches (Plus (Cls notNewline)) capture ->
  Forall wellFormed (propose t capture).
Proof.
  intros M. unfold propose.
  destruct (acceptable (trim capture)) eqn:A; [| constructor].
  constructor; [| constructor].
  unfold acceptable in A.
  apply andb_prop in A as [A L]. apply andb_prop in A as [N S].
  unfold wellFormed. cbn [path description impact type].
  repeat split.
  - intros E. rewrite E in N. discriminate.
  - now apply Nat.ltb_lt.
  - now apply negb_true_iff.
  - apply trim_idem.
  - apply allChars_trim. now apply matches_plus_cls.
Qed.

Lemma candidates_wellFormed (s : string) : Forall wellFormed (candidates s).
Proof.
  unfold candidates. apply Forall_forall. intros c I.
  apply in_flat_map in I as (family & _ & I).
  apply in_flat_map in I as (capture & I & J).
  pose proof (execLoop_sound (familyPattern (fst family)) (S (length s)) s) as M.
  rewrite Forall_forall in M. specialize (M capture I).
  pose proof (propose_wellFormed (snd family) capture M) as W.
  rewrite Forall_forall in W. now apply W.
Qed.

Lemma attachFirst_core (file d : string) (cs : list ProposedChange) :
  map core (attachFirst file d cs) = map core cs.
Proof.
  induction cs as [|c cs IH]; cbn [attachFirst]; [reflexivity |].
  destruct (includes (path c) file); cbn [map]; [reflexivity | now rewrite IH].
Qed.

Lemma attachBlock_core (cs : list ProposedChange) (block : string) :
  map core (attachBlock cs block) = map core cs.
Proof.
  unfold attachBlock. destruct (execLineStart _ _ _); [| reflexivity].
  apply attachFirst_core.
Qed.

Lemma parse_core (s : string) :
  map core (parseProposedChanges s) = map core (candidates s).
Proof.
  unfold parseProposedChanges. generalize (candidates s).
  induction (fencedBlocks s) as [|b bs IH]; intros cs; [reflexivity |].
  cbn [fold_left]. now rewrite IH, attachBlock_core.
Qed.

Lemma wellFormed_core (c c' : ProposedChange) :
  core c = core c' -> wellFormed c -> wellFormed c'.
Proof.
  unfold core, wellFormed. intros E. injection E as -> -> -> ->. tauto.
Qed.

Lemma Forall_core (P : ProposedChange -> Prop) (cs cs' : list ProposedChange) :
  (forall c c', core c = core c' -> P c -> P c') ->
  map core cs = map core cs' -> Forall P cs -> Forall P cs'.
Proof.
  intros W. revert cs'. induction cs as [|c cs IH]; intros [|c' cs'] E F;
    try discriminate; [constructor |].
  cbn [map] in E.
  pose proof (f_equal (hd (core c)) E) as E1.
  pose proof (f_equal (@tl _) E) as E2. cbn [hd tl] in E1, E2.
  inversion F; subst.
  constructor; [now apply (W c) | now apply IH].
Qed.

(** X16.  Every proposal read from a text has a path that is not empty,
    shorter than 200 characters, free of line breaks and of spaces around
    it, and that does not start with [//]; its description and its impact
    are the ones [generateDescription] and [assessImpact] give for its kind
    and path. *)
Theorem proposals_are_well_formed (codexOutput : string) :
  Forall wellFormed (parseProposedChanges codexOutput).
Proof.
  apply (Forall_core wellFormed (candidates codexOutput));
    [exact wellFormed_core | symmetry; apply parse_core
     | apply candidates_wellFormed].
Qed.

Lemma propose_types (t : ChangeType) (captures : list string) :
  map type (flat_map (propose t) captures)
  = repeat t (List.length (flat_map (propose t) captures)).
Proof.
  induction captures as [|g gs IH]; [reflexivity |].
  cbn [flat_map]. rewrite map_app, length_app, repeat_app, IH.
  f_equal. unfold propose. now destruct (acceptable (trim g)).
Qed.

(** X17.  The fenced blocks of a text decide nothing but the diffs: kinds,
    paths, descriptions and impacts, and the number of proposals, are
    those before the blocks are looked at.  The proposals come grouped by
    kind, in the order create, modify, delete, dependency, configuration. *)
Theorem proposals_grouped_by_kind (codexOutput : string) :
  map core (parseProposedChanges codexOutput) = map core (candidates codexOutput)
  /\ exists n1 n2 n3 n4 n5,
      map type (parseProposedChanges codexOutput)
      = (repeat file_create n1 ++ repeat file_modify n2
           ++ repeat file_delete n3 ++ repeat dependency_add n4
           ++ repeat config_change n5)%list.
Proof.
  split; [apply parse_core |].
  assert (T : map type (parseProposedChanges codexOutput)
              = map type (candidates codexOutput)).
  { pose proof (parse_core codexOutput) as E.
    apply (f_equal (map (fun x => fst (fst (fst x))))) in E.
    now rewrite !map_map in E. }
  rewrite T. unfold candidates, families. cbn [flat_map fst snd].
  rewrite app_nil_r, !map_app, !propose_types.
  do 5 eexists. reflexivity.
Qed.

(** *** Diffs *)

Lemma attachFirst_diffFrom (blocks : list string) (block file : string)
      (cs : list ProposedChange) :
  In block blocks ->
  execLineStart true diffHeader (trim block) = Some file ->
  Forall (diffFrom blocks) cs ->
  Forall (diffFrom blocks) (attachFirst file (trim block) cs).
Proof.
  intros I H. induction cs as [|c cs IH]; intros F; [constructor |].
  inversion F; subst. cbn [attachFirst].
  destruct (includes (path c) file) eqn:E.
  - constructor; [| assumption].
    intros d D. cbn in D. injection D as <-. now exists block, file.
  - constructor; [assumption | now apply IH].
Qed.

Lemma fenceHere_starts (s : string) (r : string * string) :
  fenceHere s = Some r -> prefix "```" s = true.
Proof.
  unfold fenceHere, fence. cbn [str rmatch]. unfold exact. cbn [rmatch].
  destruct s as [|a [|b [|c s]]]; try discriminate;
    cbn [prefix];
    destruct (Ascii.eqb_spec "`" a) as [<- |]; try discriminate;
    destruct (Ascii.eqb_spec "`" b) as [<- |]; try discriminate;
    destruct (Ascii.eqb_spec "`" c) as [<- |]; try discriminate.
  intros _. cbn. now destruct s.
Qed.

Lemma fenceRest_includes (s : string) (r : string * string) :
  fenceRest s = Some r -> includes s "```" = true.
Proof.
  induction s as [|c s IH]; cbn [fenceRest]; intros H.
  - destruct (fenceHere "") eqn:E; [| discriminate].
    apply fenceHere_starts in E. discriminate.
  - destruct (fenceHere (String c s)) eqn:E.
    + apply fenceHere_starts in E. cbn [includes]. now rewrite E.
    + apply includes_later. now apply IH.
Qed.

(** X18.  A proposal has a diff only when a fenced block of the text,
    trimmed, has a line that starts with [---] or [+++] and names a part of
    the path of the proposal; the diff is then that block, trimmed.  A
    text without a fence gives proposals without diffs. *)
Theorem diffs_come_from_blocks (codexOutput : string) :
  Forall (diffFrom (fencedBlocks codexOutput))
         (parseProposedChanges codexOutput)
  /\ (includes codexOutput "```" = false ->
      Forall (fun c => diff c = None) (parseProposedChanges codexOutput)).
Proof.
  assert (C : forall blocks,
             Forall (diffFrom blocks) (candidates codexOutput)).
  { intros blocks. apply Forall_forall. intros c I d D.
    unfold candidates in I.
    apply in_flat_map in I as (family & _ & I).
    apply in_flat_map in I as (capture & _ & J).
    unfold propose in J. destruct (acceptable (trim capture)); [| easy].
    destruct J as [<- | []]. discriminate D. }
  assert (G : forall todo cs,
             incl todo (fencedBlocks codexOutput) ->
             Forall (diffFrom (fencedBlocks codexOutput)) cs ->
             Forall (diffFrom (fencedBlocks codexOutput))
                    (fold_left attachBlock todo cs)).
  { induction todo as [|b bs IH]; intros cs I F; [exact F |].
    cbn [fold_left]. apply IH; [intros x X; apply I; now right |].
    unfold attachBlock.
    destruct (execLineStart true diffHeader (trim b)) as [file|] eqn:H;
      [| exact F].
    apply attachFirst_diffFrom; [apply I; now left | exact H | exact F]. }
  split.
  - unfold parseProposedChanges. apply G; [apply incl_refl | apply C].
  - intros N.
    assert (E : fencedBlocks codexOutput = []).
    { unfold fencedBlocks. cbn [fenceLoop].
      destruct (fenceRest codexOutput) as [[g rest]|] eqn:R; [| reflexivity].
      apply fenceRest_includes in R. congruence. }
    unfold parseProposedChanges. rewrite E. cbn [fold_left].
    specialize (C []). rewrite Forall_forall in C |- *.
    intros c I. destruct (diff c) as [d|] eqn:D; [| reflexivity].
    destruct (C c I d D) as (block & _ & [] & _).
Qed.

Lemma diffs_come_from_blocks_witness :
  Forall (fun c => diff c = None)
         (parseProposedChanges
            ("create: src/widget.ts" ++ newline ++ "delete: legacy/old.ts")).
Proof.
  destruct (diffs_come_from_blocks
              ("create: src/widget.ts" ++ newline ++ "delete: legacy/old.ts"))
    as (_ & H).
  apply H. vm_compute. reflexivity.
Defined.

(** The two lines of the specification's scenario. *)
Example parse_two_lines :
  map core (parseProposedChanges
              ("create: src/widget.ts" ++ newline ++ "delete: legacy/old.ts"))
  = [ (file_create, "src/widget.ts", "Create new file: widget.ts", medium);
      (file_delete, "legacy/old.ts", "Delete file: old.ts", high) ].
Proof. vm_compute. reflexivity. Qed.

(** *** The audit of applied changes *)

Lemma sort_fold (ac : list string) (cs : list ProposedChange)
      (a f : list string) :
  fold_left (sortChange ac) cs (a, f)
  = ((a ++ map path (filter (wasApplied ac) cs))%list,
     (f ++ map path (filter (fun c => negb (wasApplied ac c)) cs))%list).
Proof.
  revert a f. induction cs as [|c cs IH]; intros a f; cbn [fold_left filter map].
  - now rewrite !app_nil_r.
  - unfold sortChange at 2. cbn [fst snd].
    destruct (wasApplied ac c); cbn [negb map]; rewrite IH;
      now rewrite <- app_assoc.
Qed.

Lemma wasApplied_spec (ac : list string) (c : ProposedChange) :
  wasApplied ac c = true <->
  exists reported a b,
    In reported ac
    /\ toLowerCase reported = a ++ toLowerCase (path c) ++ b.
Proof.
  unfold wasApplied. rewrite existsb_exists. split.
  - intros (r & I & H). apply includes_split in H.
    destruct H as (a & b & H). now exists r, a, b.
  - intros (r & a & b & I & H). exists r. split; [exact I |].
    rewrite H. apply includes_append.
Qed.

(** X19.  The audit sorts the paths of the proposals, in their order, into
    the applied ones, whose path occurs in one of the reported changes
    whatever the case, and the failed ones: no path is lost or counted
    twice.  It succeeds exactly when every proposal was applied, and it is
    partial exactly when some were and some were not. *)
Theorem audit_partitions
        (proposed : list ProposedChange) (reported : list string) :
  let r := validateChangesApplied proposed reported in
  applied r = map path (filter (wasApplied reported) proposed)
  /\ failed r
     = map path (filter (fun c => negb (wasApplied reported c)) proposed)
  /\ List.length (applied r) + List.length (failed r) = List.length proposed
  /\ (success r = true <->
      forall c, In c proposed ->
                exists line a b,
                  In line reported
                  /\ toLowerCase line = a ++ toLowerCase (path c) ++ b)
  /\ (partial r = true <-> applied r <> [] /\ failed r <> [])
  /\ (partial r = true -> success r = false).
Proof.
  unfold validateChangesApplied. cbv zeta. rewrite sort_fold.
  cbn [Datatypes.app fst snd success applied failed partial].
  set (A := filter (wasApplied reported) proposed).
  set (F := filter (fun c => negb (wasApplied reported c)) proposed).
  assert (L : List.length A + List.length F = List.length proposed).
  { subst A F. clear. induction proposed as [|c cs IH]; [reflexivity |].
    cbn [filter]. destruct (wasApplied reported c); cbn [negb List.length];
      rewrite <- IH; lia. }
  split; [reflexivity |]. split; [reflexivity |].
  split; [now rewrite !length_map |].
  split; [| split].
  - rewrite length_map, Nat.eqb_eq. split.
    + intros Z c I. apply wasApplied_spec.
      destruct (wasApplied reported c) eqn:W; [reflexivity |].
      assert (X : In c F) by (apply filter_In; now rewrite W).
      destruct F; [destruct X | discriminate Z].
    + intros H. destruct F as [|c F'] eqn:E; [reflexivity |].
      assert (X : In c F) by (rewrite E; now left).
      apply filter_In in X as [I W].
      apply H, wasApplied_spec in I. rewrite I in W. discriminate.
  - rewrite !length_map, andb_true_iff, !Nat.ltb_lt.
    split; intros [X Y].
    + split; [destruct A | destruct F]; cbn in *; (lia || discriminate).
    + split; [destruct A | destruct F]; cbn in *; (lia || now elim X || now elim Y).
  - rewrite !length_map, andb_true_iff, !Nat.ltb_lt. intros [_ Y].
    apply Nat.eqb_neq. lia.
Qed.

Lemma audit_partitions_witness :
  success (validateChangesApplied [Scenario.lowChange]
                                  ["Updated DOCS/README.md (3 lines)"])
  = true.
Proof.
  destruct (audit_partitions [Scenario.lowChange]
                             ["Updated DOCS/README.md (3 lines)"])
    as (_ & _ & _ & S & _).
  apply S. intros c [<- | []].
  exists "Updated DOCS/README.md (3 lines)", "updated ", " (3 lines)".
  split; [now left | vm_compute; reflexivity].
Defined.

Lemma nothing_applied (proposed : list ProposedChange) :
  filter (wasApplied []) proposed = [].
Proof. induction proposed as [|c cs IH]; [reflexivity | exact IH]. Qed.

Lemma everything_failed (proposed : list ProposedChange) :
  filter (fun c => negb (wasApplied [] c)) proposed = proposed.
Proof.
  induction proposed as [|c cs IH]; [reflexivity |].
  cbn [filter]. change (wasApplied [] c) with false. cbn [negb]. now f_equal.
Qed.

(** X20.  With nothing reported every proposal fails: the audit succeeds
    only for an empty list of proposals and is never partial.  That is the
    audit of every result of the OpenAI API path, whose list of applied
    changes is empty. *)
Theorem audit_of_nothing_reported
        (proposed : list ProposedChange)
        (env : Runtime.Env) (options : Codex.CodexExecutionOptions)
        (this : ExecutionManager.Manager) (t : Runtime.Trace)
        (r : Codex.CodexResult) :
  (applied (validateChangesApplied proposed []) = []
   /\ failed (validateChangesApplied proposed []) = map path proposed
   /\ partial (validateChangesApplied proposed []) = false
   /\ (success (validateChangesApplied proposed []) = true
       <-> proposed = []))
  /\ (fst (fst (ExecutionManager.execute options env this t))
      = Runtime.Returned r ->
      Codex.executionPath r = Codex.openai_api ->
      validateChangesApplied proposed (Codex.changesApplied (Codex.parsed r))
      = validateChangesApplied proposed []).
Proof.
  split.
  - unfold validateChangesApplied. cbv zeta. rewrite sort_fold.
    cbn [Datatypes.app fst snd success applied failed partial].
    rewrite nothing_applied, everything_failed.
    cbn [map List.length Nat.ltb Nat.leb andb]. rewrite length_map.
    repeat split.
    + now destruct proposed.
    + now intros ->.
  - intros R P. f_equal.
    destruct (ExecutionManagerFacts.execute_run options env this t)
      as (u & E & _).
    cbv zeta in E. rewrite E in R. clear E.
    destruct (ExecutionManager.cliAvailable this).
    + destruct (Codex.quotaExhausted _ && ExecutionManager.hasClient this);
        cbn [fst] in R; injection R as <-.
      * apply ExecutionManagerFacts.secondary_changes.
      * rewrite ExecutionManagerFacts.primary_path in P. discriminate.
    + destruct (ExecutionManager.hasClient this); cbn [fst] in R;
        [| discriminate].
      injection R as <-. apply ExecutionManagerFacts.secondary_changes.
Qed.

Lemma audit_of_nothing_reported_witness :
  exists r,
    fst (fst (ExecutionManager.execute Scenario.request Scenario.world
                                       Scenario.ready []))
    = Runtime.Returned r
    /\ failed (validateChangesApplied
                 [Scenario.lowChange; Scenario.highChange]
                 (Codex.changesApplied (Codex.parsed r)))
       = ["docs/README.md"; "legacy/old.ts"].
Proof.
  assert (E : exists r,
             fst (fst (ExecutionManager.execute Scenario.request Scenario.world
                                                Scenario.ready []))
             = Runtime.Returned r
             /\ Codex.executionPath r = Codex.openai_api)
    by (eexists; split; vm_compute; reflexivity).
  destruct E as (r & E & P). exists r. split; [exact E |].
  destruct (audit_of_nothing_reported
              [Scenario.lowChange; Scenario.highChange]
              Scenario.world Scenario.request Scenario.ready [] r)
    as (_ & H).
  rewrite (H E P). reflexivity.
Defined.

(** X21.  More reported changes never turn an applied proposal into a
    failed one: an audit that succeeds still succeeds with more reports. *)
Theorem audit_monotone
        (proposed : list ProposedChange) (reported more : list string) :
  (forall c, wasApplied reported c = true ->
             wasApplied (reported ++ more) c = true)
  /\ (success (validateChangesApplied proposed reported) = true ->
      success (validateChangesApplied proposed (reported ++ more)) = true)
  /\ incl (failed (validateChangesApplied proposed (reported ++ more)))
          (failed (validateChangesApplied proposed reported)).
Proof.
  assert (W : forall c, wasApplied reported c = true ->
                        wasApplied (reported ++ more) c = true).
  { intros c. unfold wasApplied. rewrite existsb_app. now intros ->. }
  split; [exact W |].
  unfold validateChangesApplied. cbv zeta. rewrite !sort_fold.
  cbn [Datatypes.app fst snd success failed]. split.
  - rewrite !length_map, !Nat.eqb_eq. intros Z.
    destruct (filter (fun c => negb (wasApplied (reported ++ more) c)) proposed)
      as [|c F'] eqn:E; [reflexivity |].
    assert (X : In c (c :: F')) by now left. rewrite <- E in X.
    apply filter_In in X as [I N]. apply negb_true_iff in N.
    assert (Y : In c (filter (fun c => negb (wasApplied reported c)) proposed)).
    { apply filter_In. split; [exact I |].
      destruct (wasApplied reported c) eqn:V; [| reflexivity].
      rewrite (W c V) in N. discriminate. }
    destruct (filter (fun c => negb (wasApplied reported c)) proposed);
      [destruct Y | discriminate Z].
  - intros p I. apply in_map_iff in I as (c & <- & I).
    apply filter_In in I as [I N]. apply negb_true_iff in N.
    apply in_map, filter_In. split; [exact I |].
    destruct (wasApplied reported c) eqn:V; [| reflexivity].
    rewrite (W c V) in N. discriminate.
Qed.

Lemma audit_monotone_witness :
  success (validateChangesApplied [Scenario.lowChange]
                                  (["docs/readme.md"] ++ ["other"])) = true.
Proof.
  destruct (audit_monotone [Scenario.lowChange] ["docs/readme.md"] ["other"])
    as (_ & H & _).
  apply H. vm_compute. reflexivity.
Defined.

End ProposalFacts.

(** ** The summary and the confirmation of parsed proposals *)

Module ConfirmationFacts.
Import Text ChangeApplier Proposals ProposalSpec ConfirmationSpec.
Import TextFacts.

Lemma includes_trans (s l d : string) :
  includes s l = true -> includes l d = true -> includes s d = true.
Proof.
  intros H K. apply includes_split in H as (a & b & ->).
  apply includes_split in K as (x & y & ->).
  replace (a ++ (x ++ d ++ y) ++ b) with ((a ++ x) ++ d ++ (y ++ b))
    by now rewrite !append_assoc.
  apply includes_append.
Qed.

Lemma append_nil_right (s : string) : s ++ "" = s.
Proof. induction s as [|c s IH]; cbn [append]; now rewrite ?IH. Qed.

Lemma join_includes (sep l : string) (ls : list string) :
  In l ls -> includes (join sep ls) l = true.
Proof.
  unfold join. induction ls as [|x ls IH]; [easy |]. intros [-> | I].
  - destruct ls as [|y r]; cbn [concat]; [| apply includes_here].
    rewrite <- (append_nil_right l) at 1. apply includes_here.
  - destruct ls as [|y r]; [easy |].
    change (concat sep (x :: y :: r)) with (x ++ sep ++ concat sep (y :: r)).
    specialize (IH I). apply includes_split in IH as (a & b & ->).
    replace (x ++ sep ++ a ++ l ++ b) with ((x ++ sep ++ a) ++ l ++ b)
      by now rewrite !append_assoc.
    apply includes_append.
Qed.

Lemma impactGroup_in (title : string) (line : ProposedChange -> string)
      (group : list ProposedChange) (c : ProposedChange) :
  In c group -> In (line c) (impactGroup title line group).
Proof.
  intros I. unfold impactGroup. destruct group as [|g gs]; [easy |].
  right. apply in_or_app. left. now apply in_map.
Qed.

Lemma summary_join (changes : list ProposedChange) (l : string) :
  changes <> [] ->
  In l ([ "## Proposed Changes"; ""; totalLine changes; "" ]
        ++ impactGroup "### High Impact (requires careful review)"
                       boldLine (filter (hasImpact high) changes)
        ++ impactGroup "### Medium Impact" plainLine
                       (filter (hasImpact medium) changes)
        ++ impactGroup "### Low Impact" plainLine
                       (filter (hasImpact low) changes)
        ++ match filter hasDiff changes with
           | [] => []
           | _ => "### Diffs" :: flat_map diffLines (filter hasDiff changes)
           end)%list ->
  includes (generateConfirmationSummary changes) l = true.
Proof.
  intros N I. unfold generateConfirmationSummary.
  destruct changes as [|c cs]; [now elim N |].
  cbv zeta. now apply join_includes.
Qed.

(** X22.  The summary of a list of changes names every change of the
    list: it has the line of the change, with its kind and its
    description, in bold for a change of high impact; it has the line of
    the total; and for a change with a diff it has the path and the diff.
    Only the empty list gives the text for no changes. *)
Theorem summary_lists_every_change
        (changes : list ProposedChange) (c : ProposedChange) :
  In c changes ->
  let summary := generateConfirmationSummary changes in
  includes summary (summaryLine c) = true
  /\ includes summary (description c) = true
  /\ includes summary (totalLine changes) = true
  /\ (hasDiff c = true ->
      includes summary (path c) = true
      /\ includes summary (diffOf c) = true)
  /\ summary <> "No changes detected.".
Proof.
  intros I. cbv zeta.
  assert (N : changes <> []) by (intros ->; destruct I).
  assert (L : includes (generateConfirmationSummary changes) (summaryLine c)
              = true).
  { apply (summary_join changes _ N).
    apply in_or_app. right. unfold summaryLine.
    destruct (impact c) eqn:E.
    - apply in_or_app. right. apply in_or_app. right.
      apply in_or_app. left.
      apply (impactGroup_in _ plainLine), filter_In.
      split; [exact I | unfold hasImpact; now rewrite E].
    - apply in_or_app. right. apply in_or_app. left.
      apply (impactGroup_in _ plainLine), filter_In.
      split; [exact I | unfold hasImpact; now rewrite E].
    - apply in_or_app. left.
      apply (impactGroup_in _ boldLine), filter_In.
      split; [exact I | unfold hasImpact; now rewrite E]. }
  split; [exact L |]. split; [| split; [| split]].
  - apply (includes_trans _ _ _ L). unfold summaryLine.
    destruct (impact c).
    + replace ("- " ++ showType (type c) ++ ": " ++ description c)
        with (("- " ++ showType (type c) ++ ": ") ++ description c ++ "")
        by now rewrite append_nil_right, !append_assoc.
      apply includes_append.
    + replace ("- " ++ showType (type c) ++ ": " ++ description c)
        with (("- " ++ showType (type c) ++ ": ") ++ description c ++ "")
        by now rewrite append_nil_right, !append_assoc.
      apply includes_append.
    + replace ("- **" ++ showType (type c) ++ "**: " ++ description c)
        with (("- **" ++ showType (type c) ++ "**: ") ++ description c ++ "")
        by now rewrite append_nil_right, !append_assoc.
      apply includes_append.
  - apply (summary_join changes _ N). right. right. now left.
  - intros D.
    assert (J : In c (filter hasDiff changes)) by now apply filter_In.
    assert (K : forall l, In l (diffLines c) ->
                          includes (generateConfirmationSummary changes) l
                          = true).
    { intros l X. apply (summary_join changes _ N).
      do 4 (apply in_or_app; right).
      destruct (filter hasDiff changes) as [|d ds] eqn:E; [destruct J |].
      right. apply in_flat_map. now exists c. }
    split.
    + apply (includes_trans _ (newline ++ "**" ++ path c ++ "**:")).
      * apply K. now left.
      * replace (newline ++ "**" ++ path c ++ "**:")
          with ((newline ++ "**") ++ path c ++ "**:")
          by now rewrite !append_assoc.
        apply includes_append.
    + apply K. right. right. now left.
  - destruct changes as [|x xs]; [now elim N |].
    unfold generateConfirmationSummary, join. cbv zeta.
    cbn [Datatypes.app concat]. discriminate.
Qed.

Lemma summary_lists_every_change_witness :
  includes (generateConfirmationSummary
              [Scenario.lowChange; Scenario.highChange])
           "- **file_delete**: Delete file: old.ts" = true.
Proof.
  destruct (summary_lists_every_change
              [Scenario.lowChange; Scenario.highChange] Scenario.highChange)
    as (H & _).
  - right. now left.
  - exact H.
Defined.

Lemma delete_is_high (p : string) : assessImpact file_delete p = high.
Proof.
  unfold assessImpact. cbv zeta. cbn [isDelete].
  now rewrite !orb_true_r.
Qed.

Lemma filter_length_le {A} (p q : A -> bool) (l : list A) :
  (forall x, In x l -> p x = true -> q x = true) ->
  List.length (filter p l) <= List.length (filter q l).
Proof.
  induction l as [|x l IH]; intros H; [reflexivity |].
  cbn [filter].
  assert (IH' : List.length (filter p l) <= List.length (filter q l))
    by (apply IH; intros y Y; apply H; now right).
  destruct (p x) eqn:P.
  - rewrite (H x (or_introl eq_refl) P). cbn [List.length]. lia.
  - destruct (q x); cbn [List.length]; lia.
Qed.

Lemma parse_wellFormed (codexOutput : string) :
  Forall wellFormed (parseProposedChanges codexOutput).
Proof.
  apply (ProposalFacts.Forall_core wellFormed (candidates codexOutput));
    [exact ProposalFacts.wellFormed_core
    | symmetry; apply ProposalFacts.parse_core
    | apply ProposalFacts.candidates_wellFormed].
Qed.

(** X23.  The confirmation request built from the proposals read from a
    text, as the validation does it: approval is required exactly when a
    proposal was read; every proposal to delete counts as a change of high
    impact; and when a proposal to delete was read the message carries the
    warning. *)
Theorem deletions_are_flagged (codexOutput : string) :
  let changes := parseProposedChanges codexOutput in
  let request := createConfirmationRequest changes in
  (requiresApproval request = true <-> changes <> [])
  /\ List.length (filter deletes changes) <= highImpactCount request
  /\ ((exists c, In c changes /\ type c = file_delete) ->
      0 < highImpactCount request
      /\ includes (message request)
                  (warningSentence (highImpactCount request)) = true).
Proof.
  cbv zeta. unfold createConfirmationRequest. cbv zeta.
  cbn [requiresApproval highImpactCount message].
  set (changes := parseProposedChanges codexOutput).
  assert (W : Forall wellFormed changes) by apply parse_wellFormed.
  assert (D : List.length (filter deletes changes)
              <= List.length (filter (hasImpact high) changes)).
  { apply filter_length_le. intros c I X.
    rewrite Forall_forall in W. destruct (W c I) as (_ & _ & _ & _ & _ & _ & E).
    unfold deletes in X. unfold hasImpact. rewrite E.
    destruct (type c); try discriminate X. now rewrite delete_is_high. }
  split; [| split; [exact D |]].
  - rewrite Nat.ltb_lt. destruct changes; cbn [List.length]; split;
      (lia || easy).
  - intros (c & I & T).
    assert (P : 0 < List.length (filter (hasImpact high) changes)).
    { assert (X : In c (filter deletes changes))
        by (apply filter_In; split; [exact I | unfold deletes; now rewrite T]).
      destruct (filter deletes changes); [destruct X |].
      cbn [List.length] in D. lia. }
    split; [exact P |].
    apply Nat.ltb_lt in P. rewrite P.
    rewrite <- append_assoc. apply includes_append.
Qed.

Lemma deletions_are_flagged_witness :
  includes
    (message (createConfirmationRequest
                (parseProposedChanges
                   ("create: docs/notes.md" ++ newline
                    ++ "delete: legacy/old.ts"))))
    (warningSentence 1) = true.
Proof.
  destruct (deletions_are_flagged
              ("create: docs/notes.md" ++ newline ++ "delete: legacy/old.ts"))
    as (_ & _ & H).
  destruct H as (_ & H).
  - eexists. split; [right; left; reflexivity | reflexivity].
  - exact H.
Defined.

End ConfirmationFacts.

(** ** The verdict *)

Module VerdictFacts.
Import Text Regex Codex ValidatePlan.
Import TextFacts RegexFacts.

Lemma no_severity (s : Severity) (vs : list Context7Violation) :
  (0 <? List.length (filter (hasSeverity s) vs))%nat = false
  <-> forall v, In v vs -> severity v <> s.
Proof.
  rewrite Nat.ltb_ge. split.
  - intros H v I E.
    assert (X : In v (filter (hasSeverity s) vs)).
    { apply filter_In. split; [exact I |].
      unfold hasSeverity. rewrite E. now destruct s. }
    destruct (filter (hasSeverity s) vs); [destruct X | cbn in H; lia].
  - intros H. destruct (filter (hasSeverity s) vs) as [|v l] eqn:E;
      [cbn; lia |].
    assert (X : In v (filter (hasSeverity s) vs)) by (rewrite E; now left).
    apply filter_In in X as [I S]. elim (H v I).
    unfold hasSeverity in S. now destruct (severity v), s.
Qed.

Lemma no_blockers (bs : list string) :
  (0 <? List.length bs)%nat = false <-> bs = [].
Proof. destruct bs; cbn; split; (easy || lia). Qed.

(** X24.  The verdict of a validation.  It is fail exactly when the run
    did not succeed, or the analysis has a blocker, or the feasibility
    score is below 40, or Context7 found a violation of severity error.
    It is pass exactly when the run succeeded, no blocker was found, the
    score is at least 70, and every violation is of severity info. *)
Theorem verdict_rule
        (codexResult : CodexResult) (context7Result : Context7ValidationResult) :
  let verdict := determineValidationStatus codexResult context7Result in
  (verdict = fail <->
   success codexResult = false
   \/ blockers (feasibility (parsed codexResult)) <> []
   \/ (score (feasibility (parsed codexResult)) < 40)%N
   \/ exists v, In v (violations context7Result) /\ severity v = error_)
  /\ (verdict = pass <->
      success codexResult = true
      /\ blockers (feasibility (parsed codexResult)) = []
      /\ (70 <= score (feasibility (parsed codexResult)))%N
      /\ forall v, In v (violations context7Result) -> severity v = info).
Proof.
  cbv zeta. unfold determineValidationStatus. cbv zeta.
  pose proof (no_blockers (blockers (feasibility (parsed codexResult)))) as B.
  pose proof (no_severity error_ (violations context7Result)) as E.
  pose proof (no_severity warning (violations context7Result)) as W.
  destruct (success codexResult); cbn [negb].
  2: { split; split; try easy; first [solve [now left] | solve [now intros (X & _)]]. }
  destruct (0 <? List.length (blockers (feasibility (parsed codexResult))))%nat
    eqn:B1.
  { assert (NB : blockers (feasibility (parsed codexResult)) <> [])
      by (intros X; apply B in X; congruence).
    split; split; try easy;
      first [solve [right; now left] | solve [now intros (_ & X & _)]]. }
  assert (B2 : blockers (feasibility (parsed codexResult)) = [])
    by now apply B.
  destruct (N.ltb_spec (score (feasibility (parsed codexResult))) 40) as [S1|S1].
  { split; split; try easy;
      first [solve [right; right; now left]
            | solve [intros (_ & _ & X & _); lia]]. }
  destruct (0 <? List.length (filter (hasSeverity error_)
                                     (violations context7Result)))%nat eqn:E1.
  { assert (X : exists v, In v (violations context7Result)
                          /\ severity v = error_).
    { destruct (filter (hasSeverity error_) (violations context7Result))
        as [|v l] eqn:F; [discriminate E1 |].
      assert (I : In v (filter (hasSeverity error_)
                               (violations context7Result)))
        by (rewrite F; now left).
      apply filter_In in I as [I S]. exists v. split; [exact I |].
      unfold hasSeverity in S. now destruct (severity v). }
    split; split; try easy;
      first [solve [now do 3 right]
            | solve [intros (_ & _ & _ & A); destruct X as (v & I & S);
                     rewrite (A v I) in S; discriminate]]. }
  assert (E2 : forall v, In v (violations context7Result)
                         -> severity v <> error_) by now apply E.
  assert (NF : ~ (true = false
                  \/ blockers (feasibility (parsed codexResult)) <> []
                  \/ (score (feasibility (parsed codexResult)) < 40)%N
                  \/ exists v, In v (violations context7Result)
                               /\ severity v = error_)).
  { intros [X | [X | [X | (v & I & S)]]];
      [discriminate | now elim X | lia | now elim (E2 v I)]. }
  destruct (N.ltb_spec (score (feasibility (parsed codexResult))) 70) as [S2|S2].
  { split; split; try easy;
      first [solve [intros X; now elim NF]
            | solve [intros (_ & _ & X & _); lia]]. }
  destruct (0 <? List.length (filter (hasSeverity warning)
                                     (violations context7Result)))%nat eqn:W1.
  { split; [split; [discriminate | intros X; now elim NF] |].
    split; [discriminate |].
    intros (_ & _ & _ & A).
    assert (X : forall v, In v (violations context7Result)
                          -> severity v <> warning)
      by (intros v I; rewrite (A v I); discriminate).
    apply W in X. congruence. }
  assert (W2 : forall v, In v (violations context7Result)
                         -> severity v <> warning) by now apply W.
  split; [split; [discriminate | intros X; now elim NF] |].
  split; [| reflexivity].
  intros _. split; [reflexivity |]. split; [exact B2 |]. split; [exact S2 |].
  intros v I. specialize (E2 v I). specialize (W2 v I).
  now destruct (severity v).
Qed.

Lemma verdict_rule_witness :
  determineValidationStatus
    (closeResult suggest 1000 false "Feasibility: 85" "" (Some 0%N))
    {| technologies_detected := ["react"];
       best_practices_checked := [];
       violations := [ {| technology := "react"; violation := "v";
                          bestPractice := "b"; severity := info |} ] |}
  = pass.
Proof.
  destruct (verdict_rule
              (closeResult suggest 1000 false "Feasibility: 85" "" (Some 0%N))
              {| technologies_detected := ["react"];
                 best_practices_checked := [];
                 violations := [ {| technology := "react"; violation := "v";
                                    bestPractice := "b"; severity := info |} ] |})
    as (_ & H).
  apply H. split; [vm_compute; reflexivity |].
  split; [vm_compute; reflexivity |].
  split; [vm_compute; discriminate |].
  intros v [<- | []]. reflexivity.
Defined.

(** X25.  The verdict of a run of the Codex process.  A run that timed
    out, met a quota phrase or ended with another exit code than 0 fails,
    whatever it printed.  A run that ended with exit code 0, and whose
    text has neither a feasibility score nor a list of blockers, passes
    when Context7 found nothing: the score it is given is the initial 70. *)
Theorem verdict_of_a_run
        (mode : Mode) (timeout : N) (timedOut : bool)
        (stdout stderr : string) (code : option N)
        (context7Result : Context7ValidationResult) :
  let run := closeResult mode timeout timedOut stdout stderr code in
  (timedOut = true \/ isQuotaError stderr = true \/ isQuotaError stdout = true
   \/ code <> Some 0%N ->
   determineValidationStatus run context7Result = fail)
  /\ (timedOut = false ->
      isQuotaError stderr = false -> isQuotaError stdout = false ->
      code = Some 0%N ->
      ~ occurs (scorePattern "feasibility") (orElse stdout stderr) ->
      ~ occurs (listPattern blockersHeader) (orElse stdout stderr) ->
      violations context7Result = [] ->
      determineValidationStatus run context7Result = pass).
Proof.
  cbv zeta. split.
  - intros H. unfold closeResult.
    destruct timedOut; [reflexivity |].
    destruct (isQuotaError stderr); [reflexivity |].
    destruct (isQuotaError stdout); [reflexivity |].
    destruct H as [H | [H | [H | H]]]; try discriminate.
    cbn [orb]. unfold determineValidationStatus. cbn [success].
    assert (Z : isZero code = false).
    { unfold isZero. destruct code as [n|]; [| reflexivity].
      apply N.eqb_neq. intros ->. now elim H. }
    now rewrite Z.
  - intros -> Q1 Q2 -> S B V. unfold closeResult. rewrite Q1, Q2.
    cbn [orb isZero N.eqb].
    unfold determineValidationStatus.
    cbn [success parsed parseCodexOutput feasibility score blockers].
    apply exec_none_iff in S. apply exec_none_iff in B.
    unfold scoreSection, listSection. rewrite S, B, V. reflexivity.
Qed.

Lemma verdict_of_a_run_witness :
  determineValidationStatus
    (closeResult suggest 1000 false "Looks fine." "" (Some 0%N))
    {| technologies_detected := []; best_practices_checked := [];
       violations := [] |}
  = pass
  /\ determineValidationStatus
       (closeResult suggest 1000 false "Feasibility: 95" "" (Some 2%N))
       {| technologies_detected := []; best_practices_checked := [];
          violations := [] |}
     = fail.
Proof.
  split.
  - destruct (verdict_of_a_run
                suggest 1000 false "Looks fine." "" (Some 0%N)
                {| technologies_detected := []; best_practices_checked := [];
                   violations := [] |}) as (_ & H).
    apply H; try reflexivity; apply exec_none_iff; vm_compute; reflexivity.
  - destruct (verdict_of_a_run
                suggest 1000 false "Feasibility: 95" "" (Some 2%N)
                {| technologies_detected := []; best_practices_checked := [];
                   violations := [] |}) as (H & _).
    apply H. do 3 right. discriminate.
Defined.

End VerdictFacts.
